(** * GEEDaR database mode: a shallow embedding of [databaseUpdate] and [reduction]

    The development follows src/GEEDaR.py.  Calendar dates, which the
    program carries as 'YYYY-MM-DD' strings and pandas timestamps, are
    day numbers in [Z]: the program checks on load that every stored date
    has that format, on which string equality and timestamp order agree
    with equality and order of day numbers.  Data frames and SQL tables
    are lists of rows in row order. *)

From Stdlib Require Import String Ascii.
From Stdlib Require Import ZArith List Bool Lia QArith Qround.
From Stdlib Require Import Sorting.Sorted Sorting.Permutation.
Import ListNotations.
Open Scope Z_scope.

(** ** Dates and pandas helpers *)

Abbreviation date := Z (only parsing).

(** [pd.date_range(startDate, endDate)]: every day from [s] to [e], both
    included; empty when [e < s]. *)
Definition date_range (s e : date) : list date :=
  map (fun i => s + Z.of_nat i) (seq 0 (Z.to_nat (e - s + 1))).

(** [Series.min()] and [Series.max()]; [None] stands for pandas' NaT on an
    empty series. *)
Definition series_min (l : list Z) : option Z :=
  match l with
  | [] => None
  | x :: xs => Some (fold_left Z.min xs x)
  end.

Definition series_max (l : list Z) : option Z :=
  match l with
  | [] => None
  | x :: xs => Some (fold_left Z.max xs x)
  end.

(** The R-like [which]: positions of the true entries. *)
Fixpoint which_from (i : nat) (l : list bool) : list nat :=
  match l with
  | [] => []
  | b :: l' => if b then i :: which_from (S i) l' else which_from (S i) l'
  end.

Definition which (l : list bool) : list nat := which_from 0 l.

(** Rows of a data frame at the given positions. *)
Definition take_rows {A : Type} (df : list A) (inds : list nat) : list A :=
  flat_map (fun i => match nth_error df i with Some r => [r] | None => [] end) inds.

(** [x in l] on day numbers and on integers. *)
Definition isin (x : Z) (l : list Z) : bool := existsb (Z.eqb x) l.

(** [set.union] on index sets; a Python set holds each index once. *)
Definition set_union_nat (a b : list nat) : list nat :=
  a ++ filter (fun i => negb (existsb (Nat.eqb i) a)) b.

(** [sort_values()] on a date index: ascending order. *)
Fixpoint insert_sorted (x : date) (l : list date) : list date :=
  match l with
  | [] => [x]
  | y :: l' => if x <=? y then x :: l else y :: insert_sorted x l'
  end.

Definition sort_values (l : list date) : list date := fold_right insert_sorted [] l.

(** ** The store and its in-memory views *)

Inductive value :=
| Num (q : Q)
| Str (s : string).

Record Demand := {
  DEMANDID : Z;
  DEMANDSTID : Z;
  DEMANDSTATUS : Z;
  DEMANDPRODUCTID : Z;
  DEMANDPROCALGOID : Z;
  DEMANDESTIMALGOID : Z;
  DEMANDREDUCID : Z;
  DEMANDSTARTDATE : date;
  DEMANDENDDATE : date;
  DEMANDAOIMODE : Z;
  DEMANDAOIRADIUS : Z;
  DEMANDAOIKMLFILE : string
}.

Record TimeSeriesRow := {
  TIMESERIESID : Z;
  TIMESERIESDEMANDID : Z;
  TIMESERIESDATE : date
}.

Record DataRow := {
  DATATIMESERIESID : Z;
  DATAVARID : Z;
  DATASTATSID : Z;
  DATATIME : value;
  DATAVALUE : value
}.

(** [timeSeriesDF["TIMESERIESDATE"][timeSeriesDF["TIMESERIESDEMANDID"] == id]] *)
Definition dates_of (timeSeriesDF : list TimeSeriesRow) (id : Z) : list date :=
  map TIMESERIESDATE (filter (fun r => TIMESERIESDEMANDID r =? id) timeSeriesDF).

(** ** Date Range Planner (lines 2200-2231) *)

Module Planner.

(** The group's first day: the earliest member start date, raised to the
    product's first day when the product declares one. *)
Definition startDate (collectionStartDate : option date) (starts : list date) : option date :=
  match series_min starts with
  | None => None
  | Some m =>
      match collectionStartDate with
      | Some c => series_max [m; c]
      | None => Some m
      end
  end.

Definition endDate (ends : list date) : option date := series_max ends.

(** Update mode: the positions of the span kept for some member, then the
    dates at those positions in ascending order. *)
Definition datesToKeep_inds (tmpDateList : list date) (timeSeriesDF : list TimeSeriesRow)
    (demandGroup_ids : list Z) : list nat :=
  fold_left
    (fun inds id =>
       set_union_nat inds
         (which (map (fun d => negb (isin d (dates_of timeSeriesDF id))) tmpDateList)))
    demandGroup_ids [].

(** [dateList] for a running mode; any mode other than 3 and 4 leaves the
    variable unassigned in the source, which does not reach this code (mode
    5 takes the other branch). *)
Definition dateList (demandRunningMode : Z) (tmpDateList : list date)
    (timeSeriesDF : list TimeSeriesRow) (demandGroup_ids : list Z) : list date :=
  if demandRunningMode =? 3 then
    sort_values (take_rows tmpDateList (datesToKeep_inds tmpDateList timeSeriesDF demandGroup_ids))
  else if demandRunningMode =? 4 then sort_values tmpDateList
  else [].

(** Per member, the earliest and latest date on record, or the span start
    for a member without history. *)
Definition earliestDateRecord (timeSeriesDF : list TimeSeriesRow) (start : date) (id : Z) : date :=
  match series_min (dates_of timeSeriesDF id) with
  | None => start
  | Some d => d
  end.

Definition latestDateRecord (timeSeriesDF : list TimeSeriesRow) (start : date) (id : Z) : date :=
  match series_max (dates_of timeSeriesDF id) with
  | None => start
  | Some d => d
  end.

(** The span start as the specification words it: the latest member start
    date against the product's first day. *)
Definition spec_startDate (collectionStartDate : date) (starts : list date) : option date :=
  match series_max starts with
  | None => None
  | Some m => Some (Z.max m collectionStartDate)
  end.

(** The pending dates as the specification words them: the span without
    every date on record for any member. *)
Definition spec_pending (tmpDateList : list date) (timeSeriesDF : list TimeSeriesRow)
    (demandGroup_ids : list Z) : list date :=
  filter (fun d => negb (existsb (fun id => isin d (dates_of timeSeriesDF id)) demandGroup_ids))
         tmpDateList.

End Planner.

(** ** Batch Scheduler (lines 2233-2263) *)

Module Scheduler.

Definition max_n_proc_pixels : Z := 25000.

(** [img_proc_algo_specs[id]["nSimImgs"]]. *)
Definition nSimImgs_of (demandProcAlgoId : Z) : option Z :=
  match demandProcAlgoId with
  | 0 => Some 500 | 1 => Some 500 | 2 => Some 40 | 3 => Some 60 | 4 => Some 60
  | 5 => Some 500 | 6 => Some 150 | 7 => Some 150 | 8 => Some 150 | 9 => Some 120
  | 10 => Some 150 | 11 => Some 30 | 12 => Some 120 | 13 => Some 30 | 14 => Some 48
  | _ => None
  end.

(** [math.ceil(a / b)] on integers, [b] not zero. *)
Definition ceil_div (a b : Z) : Z := - ((- a) / b).

(** [math.ceil(max_n_proc_pixels / nPixelsInAoI)]. *)
Definition maxNImgs (nPixelsInAoI : Q) : Z :=
  Qceiling (inject_Z max_n_proc_pixels / nPixelsInAoI).

Definition nSimImgs (nPixelsInAoI : Q) (cap : Z) : Z := Z.min (maxNImgs nPixelsInAoI) cap.

Definition filteredDateList (dateList availableDates : list date) : list date :=
  filter (fun d => isin d availableDates) dateList.

(** The inner [while]: dates go into the group until it holds [nSimImgs]
    dates of [filteredDateList] or the list ends; the second component is
    what is left of [dateList] from [dateInd] on. *)
Fixpoint fill_group (nSimImgs : Z) (filtered : list date) (nImgsIncluded : Z)
    (rest : list date) : list date * list date :=
  match rest with
  | [] => ([], [])
  | d :: rest' =>
      if nImgsIncluded <? nSimImgs then
        let '(g, r) :=
          fill_group nSimImgs filtered
            (if isin d filtered then nImgsIncluded + 1 else nImgsIncluded) rest' in
        (d :: g, r)
      else ([], rest)
  end.

(** [for g in range(nGroups)]. *)
Fixpoint make_groups (nGroups : nat) (nSimImgs : Z) (filtered rest : list date)
    : list (list date) :=
  match nGroups with
  | O => []
  | S k =>
      let '(g, r) := fill_group nSimImgs filtered 0 rest in
      g :: make_groups k nSimImgs filtered r
  end.

(** The batches of a group; [None] is a Python exception: the division by
    zero on an area of zero pixels or a cap of zero images, the KeyError on
    an unknown processing algorithm. *)
Definition groups (nPixelsInAoI : Q) (demandProcAlgoId : Z)
    (dateList availableDates : list date) : option (list (list date)) :=
  let filtered := filteredDateList dateList availableDates in
  if (length filtered =? 0)%nat then Some []
  else if Qeq_bool nPixelsInAoI 0 then None
  else
    match nSimImgs_of demandProcAlgoId with
    | None => None
    | Some cap =>
        let n := nSimImgs nPixelsInAoI cap in
        if n =? 0 then None
        else
          let nGroups := ceil_div (Z.of_nat (length filtered)) n in
          Some (make_groups (Z.to_nat nGroups) n filtered dateList)
    end.

End Scheduler.

(** ** Persistence Writer (lines 2286-2377) *)

(** A retrieval result: date to variable name to value, both levels in
    insertion order, each key once. *)
Abbreviation values_t := (list (string * value)) (only parsing).
Abbreviation result_t := (list (Z * list (string * value))) (only parsing).

Fixpoint result_get (result : result_t) (d : date) : option values_t :=
  match result with
  | [] => None
  | (k, v) :: rest => if k =? d then Some v else result_get rest d
  end.

Definition in_result (d : date) (result : result_t) : bool :=
  isin d (map fst result).

Fixpoint result_set (result : result_t) (d : date) (v : values_t) : result_t :=
  match result with
  | [] => [(d, v)]
  | (k, v0) :: rest => if k =? d then (k, v) :: rest else (k, v0) :: result_set rest d v
  end.

Fixpoint values_get (vs : values_t) (name : string) : option value :=
  match vs with
  | [] => None
  | (k, v) :: rest => if String.eqb k name then Some v else values_get rest name
  end.

Fixpoint values_set (vs : values_t) (name : string) (v : value) : values_t :=
  match vs with
  | [] => [(name, v)]
  | (k, v0) :: rest =>
      if String.eqb k name then (k, v) :: rest else (k, v0) :: values_set rest name v
  end.

Definition values_pop (vs : values_t) (name : string) : values_t :=
  filter (fun kv => negb (String.eqb (fst kv) name)) vs.

(** [SELECT MAX(col)]: NULL on an empty table. *)
Definition sql_max (col : list Z) : option Z := series_max col.

(** What a run does towards the demand table and the provider, in order:
    the committed reset of a demand's status, the query for the dates with
    imagery, the retrieval of a batch for a group, and the recomputation of
    mode 5. *)
Inductive run_event :=
| StatusReset (demandId : Z)
| AvailableDates (demandId : Z) (dateList : list date)
| Retrieval (demandGroup_ids : list Z) (dateSublist : list date)
| EstimationOnly (demandId : Z).

(** The database tables, the data frames loaded from them at start-up, the
    writer's running variables, and the events of the run so far. *)
Record State := {
  DEMANDS : list Demand;
  TIMESERIES : list TimeSeriesRow;
  DATA : list DataRow;
  STATISTICS : list (Z * string);
  VARIABLES : list (Z * string);
  timeSeriesDF : list TimeSeriesRow;
  statsDF : list (Z * string);
  varDF : list (Z * string);
  lastTimeSeriesId : Z;
  currTimeSeriesId : option Z;
  anyError : bool;
  history : list run_event
}.

Definition set_DEMANDS (x : list Demand) (s : State) : State :=
  {| DEMANDS := x; TIMESERIES := TIMESERIES s; DATA := DATA s;
     STATISTICS := STATISTICS s; VARIABLES := VARIABLES s;
     timeSeriesDF := timeSeriesDF s; statsDF := statsDF s; varDF := varDF s;
     lastTimeSeriesId := lastTimeSeriesId s; currTimeSeriesId := currTimeSeriesId s;
     anyError := anyError s; history := history s |}.

Definition set_DATA (x : list DataRow) (s : State) : State :=
  {| DEMANDS := DEMANDS s; TIMESERIES := TIMESERIES s; DATA := x;
     STATISTICS := STATISTICS s; VARIABLES := VARIABLES s;
     timeSeriesDF := timeSeriesDF s; statsDF := statsDF s; varDF := varDF s;
     lastTimeSeriesId := lastTimeSeriesId s; currTimeSeriesId := currTimeSeriesId s;
     anyError := anyError s; history := history s |}.

Definition set_lastTimeSeriesId (x : Z) (s : State) : State :=
  {| DEMANDS := DEMANDS s; TIMESERIES := TIMESERIES s; DATA := DATA s;
     STATISTICS := STATISTICS s; VARIABLES := VARIABLES s;
     timeSeriesDF := timeSeriesDF s; statsDF := statsDF s; varDF := varDF s;
     lastTimeSeriesId := x; currTimeSeriesId := currTimeSeriesId s;
     anyError := anyError s; history := history s |}.

Definition set_currTimeSeriesId (x : option Z) (s : State) : State :=
  {| DEMANDS := DEMANDS s; TIMESERIES := TIMESERIES s; DATA := DATA s;
     STATISTICS := STATISTICS s; VARIABLES := VARIABLES s;
     timeSeriesDF := timeSeriesDF s; statsDF := statsDF s; varDF := varDF s;
     lastTimeSeriesId := lastTimeSeriesId s; currTimeSeriesId := x;
     anyError := anyError s; history := history s |}.

Definition set_anyError (x : bool) (s : State) : State :=
  {| DEMANDS := DEMANDS s; TIMESERIES := TIMESERIES s; DATA := DATA s;
     STATISTICS := STATISTICS s; VARIABLES := VARIABLES s;
     timeSeriesDF := timeSeriesDF s; statsDF := statsDF s; varDF := varDF s;
     lastTimeSeriesId := lastTimeSeriesId s; currTimeSeriesId := currTimeSeriesId s;
     anyError := x; history := history s |}.

Definition log_event (e : run_event) (s : State) : State :=
  {| DEMANDS := DEMANDS s; TIMESERIES := TIMESERIES s; DATA := DATA s;
     STATISTICS := STATISTICS s; VARIABLES := VARIABLES s;
     timeSeriesDF := timeSeriesDF s; statsDF := statsDF s; varDF := varDF s;
     lastTimeSeriesId := lastTimeSeriesId s; currTimeSeriesId := currTimeSeriesId s;
     anyError := anyError s; history := history s ++ [e] |}.

(** INSERT INTO TIMESERIES together with the append to [timeSeriesDF]. *)
Definition add_timeseries (r : TimeSeriesRow) (s : State) : State :=
  {| DEMANDS := DEMANDS s; TIMESERIES := TIMESERIES s ++ [r]; DATA := DATA s;
     STATISTICS := STATISTICS s; VARIABLES := VARIABLES s;
     timeSeriesDF := timeSeriesDF s ++ [r]; statsDF := statsDF s; varDF := varDF s;
     lastTimeSeriesId := lastTimeSeriesId s; currTimeSeriesId := currTimeSeriesId s;
     anyError := anyError s; history := history s |}.

(** INSERT INTO STATISTICS together with the append to [statsDF]. *)
Definition add_statistic (r : Z * string) (s : State) : State :=
  {| DEMANDS := DEMANDS s; TIMESERIES := TIMESERIES s; DATA := DATA s;
     STATISTICS := STATISTICS s ++ [r]; VARIABLES := VARIABLES s;
     timeSeriesDF := timeSeriesDF s; statsDF := statsDF s ++ [r]; varDF := varDF s;
     lastTimeSeriesId := lastTimeSeriesId s; currTimeSeriesId := currTimeSeriesId s;
     anyError := anyError s; history := history s |}.

(** INSERT INTO VARIABLES together with the append to [varDF]. *)
Definition add_variable (r : Z * string) (s : State) : State :=
  {| DEMANDS := DEMANDS s; TIMESERIES := TIMESERIES s; DATA := DATA s;
     STATISTICS := STATISTICS s; VARIABLES := VARIABLES s ++ [r];
     timeSeriesDF := timeSeriesDF s; statsDF := statsDF s; varDF := varDF s ++ [r];
     lastTimeSeriesId := lastTimeSeriesId s; currTimeSeriesId := currTimeSeriesId s;
     anyError := anyError s; history := history s |}.

Module Writer.

Definition sameDate_rows (df : list TimeSeriesRow) (d : date) (demandGroup_id : Z) : list nat :=
  which (map (fun r => (TIMESERIESDATE r =? d) && (TIMESERIESDEMANDID r =? demandGroup_id)) df).

(** [var.split("_")[-1]] when [var] holds an underscore. *)
Fixpoint after_last_underscore (s : string) : option string :=
  match s with
  | EmptyString => None
  | String c s' =>
      match after_last_underscore s' with
      | Some r => Some r
      | None => if Ascii.eqb c "_"%char then Some s' else None
      end
  end.

(** The statistic and the variable a returned name stands for (lines
    2323-2335): names listed in [export_vars] and names without a suffix are
    plain variables with statistic "none". *)
Definition split_var (export_vars : list string) (var : string) : string * string :=
  if existsb (String.eqb var) export_vars then ("none"%string, var)
  else
    let suffix := match after_last_underscore var with Some r => r | None => var end in
    if String.eqb suffix var then ("none"%string, var)
    else
      match String.index 0 (String "_"%char suffix) var with
      | Some i => (suffix, String.substring 0 i var)
      | None => (suffix, var)
      end.

(** The id of a catalog name in the data frame, the last row winning. *)
Definition last_id (df : list (Z * string)) (name : string) : option Z :=
  match rev (take_rows df (which (map (fun r => String.eqb (snd r) name) df))) with
  | [] => None
  | r :: _ => Some (fst r)
  end.

Definition next_id (col : list Z) : Z :=
  match sql_max col with
  | None => 1
  | Some m => m + 1
  end.

Definition resolve_stats (s : State) (stats : string) : State * Z :=
  match last_id (statsDF s) stats with
  | None =>
      let statsId := next_id (map fst (STATISTICS s)) in
      (add_statistic (statsId, stats) s, statsId)
  | Some statsId => (s, statsId)
  end.

Definition resolve_var (s : State) (varName : string) : State * Z :=
  match last_id (varDF s) varName with
  | None =>
      let varId := next_id (map fst (VARIABLES s)) in
      (add_variable (varId, varName) s, varId)
  | Some varId => (s, varId)
  end.

(** One turn of [for var, value in result[date].items()].  The source reads
    [currTimeSeriesId] where the model matches on it; an unassigned variable
    would raise NameError there, which [save_reaches_id] below excludes. *)
Definition save_value (export_vars : list string) (imgTime : value) (s : State)
    (kv : string * value) : State :=
  let '(stats, varName) := split_var export_vars (fst kv) in
  let '(s1, statsId) := resolve_stats s stats in
  let '(s2, varId) := resolve_var s1 varName in
  match currTimeSeriesId s2 with
  | Some ts =>
      set_DATA (DATA s2 ++ [{| DATATIMESERIESID := ts; DATAVARID := varId;
                               DATASTATSID := statsId; DATATIME := imgTime;
                               DATAVALUE := snd kv |}]) s2
  | None => s2
  end.

(** DELETE FROM DATA WHERE DATATIMESERIESID = ? *)
Definition delete_data (ts : Z) (s : State) : State :=
  set_DATA (filter (fun r => negb (DATATIMESERIESID r =? ts)) (DATA s)) s.

(** Lines 2300-2310: a new TIMESERIES record, or the id of the one on
    record, whose data go in overwrite mode. *)
Definition open_record (demandRunningMode : Z) (earliest latest : date)
    (demandGroup_id : Z) (result : result_t) (s : State) (d : date) : State :=
  let rows := sameDate_rows (timeSeriesDF s) d demandGroup_id in
  if (length rows =? 0)%nat
     && (in_result d result || ((d >? earliest) && (d <? latest))) then
    let id := lastTimeSeriesId s + 1 in
    add_timeseries {| TIMESERIESID := id; TIMESERIESDEMANDID := demandGroup_id;
                      TIMESERIESDATE := d |}
      (set_currTimeSeriesId (Some id) (set_lastTimeSeriesId id s))
  else if (0 <? length rows)%nat then
    let id := last (map TIMESERIESID (take_rows (timeSeriesDF s) rows)) 0 in
    let s1 := set_currTimeSeriesId (Some id) s in
    if demandRunningMode =? 4 then delete_data id s1 else s1
  else s.

(** Lines 2313-2364: the values of the date, when it has any.  The time of
    the image is taken out of the shared result on first use. *)
Definition save_values (export_vars : list string) (result : result_t) (s : State)
    (d : date) : State * result_t :=
  if in_result d result then
    match result_get result d with
    | Some vs =>
        let '(imgTime, vs') :=
          match values_get vs "img_time" with
          | Some t => (t, values_pop vs "img_time")
          | None => (Str "00:00", vs)
          end in
        (fold_left (save_value export_vars imgTime) vs' s, result_set result d vs')
    | None => (s, result)
    end
  else (s, result).

(** The body of [for date in dateSublist]. *)
Definition write_date (export_vars : list string) (demandRunningMode : Z)
    (earliest latest : date) (demandGroup_id : Z) (st : State * result_t) (d : date)
    : State * result_t :=
  let '(s, result) := st in
  save_values export_vars result
    (open_record demandRunningMode earliest latest demandGroup_id result s d) d.

(** The test of line 2295: an empty result is not written for a member
    whose records end before the batch, start after it, or end on the span
    start. *)
Definition skip_member (result : result_t) (dateMin dateMax earliest latest start : date)
    : bool :=
  match result with
  | [] => (dateMin >? latest) || (dateMax <? earliest) || (latest =? start)
  | _ :: _ => false
  end.

(** The body of [for demandGroup_id in demandGroup_ids]; [dateMin] and
    [dateMax] are the first and the last date of the batch, which is never
    empty. *)
Definition write_member (export_vars : list string) (demandRunningMode : Z)
    (earliestDateRecord latestDateRecord : Z -> date) (start : date)
    (dateSublist : list date) (st : State * result_t) (demandGroup_id : Z)
    : State * result_t :=
  let earliest := earliestDateRecord demandGroup_id in
  let latest := latestDateRecord demandGroup_id in
  if negb (skip_member (snd st) (hd 0 dateSublist) (last dateSublist 0) earliest latest start)
  then fold_left (write_date export_vars demandRunningMode earliest latest demandGroup_id)
                 dateSublist st
  else st.

(** Lines 2286-2377 for a batch whose retrieval returned [result]. *)
Definition write_batch (export_vars : list string) (demandRunningMode : Z)
    (earliestDateRecord latestDateRecord : Z -> date) (start : date)
    (demandGroup_ids : list Z) (dateSublist : list date) (result : result_t) (s : State)
    : State :=
  let lastId := match sql_max (map TIMESERIESID (TIMESERIES s)) with
                | None => 0
                | Some m => m
                end in
  fst (fold_left
         (write_member export_vars demandRunningMode earliestDateRecord latestDateRecord
                       start dateSublist)
         demandGroup_ids (set_lastTimeSeriesId lastId s, result)).

End Writer.

(** ** Retrieval Executor: the retry loop of [reduction] (lines 1391-1460) *)

Module Executor.

(** The three ways the provider's [getInfo] fails, told apart by the text
    of the exception. *)
Inductive failure :=
| ComputationTimedOut
| OutputTooLarge
| OtherFailure.

(** What the loop does towards the outside, in order: a request for the
    result of the whole collection, the request for the dates of the
    collection, a request for the result of one date, and the 30 second
    wait. *)
Inductive event :=
| WholeBatch (tileScale : Z)
| ImgDates
| OneDate (d : date) (tileScale : Z)
| Sleep (seconds : Z).

(** The provider answers each request knowing every event before it, so
    that it may fail at one attempt and not at the next. *)
Record provider := {
  getInfo_batch : list event -> Z -> failure + result_t;
  getInfo_dates : list event -> list date;
  getInfo_date : list event -> date -> Z -> option result_t
}.

Record loop := {
  successful : bool;
  timeoutcounts : Z;
  tileScale : Z;
  result : result_t;
  events : list event
}.

(** [ee.Dictionary(result).combine(localResult)]: the second dictionary
    wins on a key both hold. *)
Definition combine (result localResult : result_t) : result_t :=
  fold_left (fun acc kv => result_set acc (fst kv) (snd kv)) localResult result.

(** Lines 1421-1433: one request per date, keeping what succeeds. *)
Definition one_by_one (p : provider) (localDateList : list date) (l : loop) : loop :=
  fold_left
    (fun l localDate =>
       let ev := events l ++ [OneDate localDate (tileScale l)] in
       match getInfo_date p (events l) localDate (tileScale l) with
       | Some localResult =>
           {| successful := true; timeoutcounts := timeoutcounts l;
              tileScale := tileScale l; result := combine (result l) localResult;
              events := ev |}
       | None =>
           {| successful := successful l; timeoutcounts := timeoutcounts l;
              tileScale := tileScale l; result := result l; events := ev |}
       end)
    localDateList l.

(** [for c in range(3)], on the values of [c] still to come. *)
Fixpoint attempts (p : provider) (cs : list Z) (l : loop) : loop :=
  match cs with
  | [] => l
  | c :: cs' =>
      let ev := events l ++ [WholeBatch (tileScale l)] in
      match getInfo_batch p (events l) (tileScale l) with
      | inr r =>
          {| successful := true; timeoutcounts := timeoutcounts l;
             tileScale := tileScale l; result := r; events := ev |}
      | inl ComputationTimedOut =>
          let n := timeoutcounts l + 1 in
          if n >=? 2 then
            let localDateList := getInfo_dates p ev in
            let l1 := {| successful := successful l; timeoutcounts := n;
                         tileScale := tileScale l; result := result l;
                         events := ev ++ [ImgDates] |} in
            if (1 <? length localDateList)%nat then
              one_by_one p localDateList
                {| successful := successful l1; timeoutcounts := n;
                   tileScale := tileScale l1; result := []; events := events l1 |}
            else attempts p cs' l1
          else
            attempts p cs'
              {| successful := successful l; timeoutcounts := n;
                 tileScale := tileScale l; result := result l; events := ev |}
      | inl OutputTooLarge =>
          attempts p cs'
            {| successful := successful l; timeoutcounts := timeoutcounts l;
               tileScale := if c <? 2 then tileScale l * 2 else tileScale l;
               result := result l; events := ev |}
      | inl OtherFailure =>
          attempts p cs'
            {| successful := successful l; timeoutcounts := timeoutcounts l;
               tileScale := tileScale l; result := result l;
               events := if c <? 2 then ev ++ [Sleep 30] else ev |}
      end
  end.

Definition start : loop :=
  {| successful := false; timeoutcounts := 0; tileScale := 1; result := []; events := [] |}.

Definition retry_loop (p : provider) : loop := attempts p [0; 1; 2] start.

(** Lines 1451-1457: with a reducer of one suffix, the reduced bands take
    the suffix. *)
Definition rename_bands (reducedBands : list string) (sufix : string) (vs : values_t)
    : values_t :=
  fold_left
    (fun acc k2 =>
       if existsb (String.eqb k2) reducedBands then
         match values_get acc k2 with
         | Some v => values_set (values_pop acc k2) (k2 ++ "_" ++ sufix)%string v
         | None => acc
         end
       else acc)
    (map fst vs) vs.

(** What [reduction] hands back: the unevaluated parameter dictionary for
    reducer 0, nothing after a failure, the result otherwise. *)
Inductive outcome :=
| ParamDict
| NoResult
| Result (r : result_t).

Definition reduction (reducer : Z) (sufix : list string) (reducedBands : list string)
    (p : provider) : outcome * list event :=
  if reducer =? 0 then (ParamDict, [])
  else
    let l := retry_loop p in
    if negb (successful l) then (NoResult, events l)
    else
      match sufix with
      | [s] => (Result (map (fun kv => (fst kv, rename_bands reducedBands s (snd kv))) (result l)),
                events l)
      | _ => (Result (result l), events l)
      end.

(** The requests for a result among the events: whole-batch attempts and
    single-date requests. *)
Definition is_whole_batch (e : event) : bool :=
  match e with WholeBatch _ => true | _ => false end.

Definition is_one_date (e : event) : bool :=
  match e with OneDate _ _ => true | _ => false end.

Definition whole_batch_requests (ev : list event) : nat :=
  length (filter is_whole_batch ev).

Definition one_date_requests (ev : list event) : nat :=
  length (filter is_one_date ev).

Definition result_requests (ev : list event) : nat :=
  whole_batch_requests ev + one_date_requests ev.

(** A provider that times out on every request for a result. *)
Definition always_times_out (p : provider) : Prop :=
  (forall ev ts, getInfo_batch p ev ts = inl ComputationTimedOut) /\
  (forall ev d ts, getInfo_date p ev d ts = None).

End Executor.

(** ** The demand loop of [databaseUpdate] (lines 1941-1971, 2139-2377) *)

Module Run.

(** What the loop takes from outside the store.  [isValidRow] is the
    outcome of the checks on a demand row (lines 1998-2115), which also
    resolve its dates; [collectionStartDate] is the product's
    ["startDate"], [None] for the empty string; [nPixelsInAoI] is [None]
    when no geometry could be built for the demand's area; [retrieve]
    stands for [imageProcessing], [estimation] and [reduction] on a batch,
    [None] when [reduction] returns nothing. *)
Record Env := {
  running_mode : Z;
  isValidRow : Demand -> bool;
  collectionStartDate : Z -> option date;
  nPixelsInAoI : Demand -> option Q;
  getAvailableDates : Demand -> list date -> list date;
  export_vars : list Z -> list string;
  retrieve : Demand -> list Z -> list date -> option result_t
}.

(** The data frames as read when the database is opened; every demand is
    taken to have its station, so that the join keeps it. *)
Definition load (s : State) : State :=
  let ids := map DEMANDID (filter (fun d => DEMANDSTATUS d >? 0) (DEMANDS s)) in
  {| DEMANDS := DEMANDS s; TIMESERIES := TIMESERIES s; DATA := DATA s;
     STATISTICS := STATISTICS s; VARIABLES := VARIABLES s;
     timeSeriesDF := filter (fun r => isin (TIMESERIESDEMANDID r) ids) (TIMESERIES s);
     statsDF := STATISTICS s; varDF := VARIABLES s;
     lastTimeSeriesId := 0; currTimeSeriesId := None;
     anyError := false; history := [] |}.

Definition demandsDF (e : Env) (s : State) : list Demand :=
  filter (isValidRow e) (filter (fun d => DEMANDSTATUS d >? 0) (DEMANDS s)).

(** The test of line 2168: same station, product, processing algorithm,
    reducer and area. *)
Definition same_key (a b : Demand) : bool :=
  (DEMANDSTID b =? DEMANDSTID a) && (DEMANDPRODUCTID b =? DEMANDPRODUCTID a)
  && (DEMANDPROCALGOID b =? DEMANDPROCALGOID a) && (DEMANDREDUCID b =? DEMANDREDUCID a)
  && (DEMANDAOIMODE b =? DEMANDAOIMODE a) && (DEMANDAOIRADIUS b =? DEMANDAOIRADIUS a)
  && String.eqb (DEMANDAOIKMLFILE b) (DEMANDAOIKMLFILE a).

(** UPDATE DEMANDS SET DEMANDSTATUS = 1 WHERE DEMANDID = ?, committed. *)
Definition reset_status (demandId : Z) (s : State) : State :=
  log_event (StatusReset demandId)
    (set_DEMANDS
       (map (fun d =>
               if DEMANDID d =? demandId then
                 {| DEMANDID := DEMANDID d; DEMANDSTID := DEMANDSTID d; DEMANDSTATUS := 1;
                    DEMANDPRODUCTID := DEMANDPRODUCTID d;
                    DEMANDPROCALGOID := DEMANDPROCALGOID d;
                    DEMANDESTIMALGOID := DEMANDESTIMALGOID d;
                    DEMANDREDUCID := DEMANDREDUCID d;
                    DEMANDSTARTDATE := DEMANDSTARTDATE d;
                    DEMANDENDDATE := DEMANDENDDATE d;
                    DEMANDAOIMODE := DEMANDAOIMODE d;
                    DEMANDAOIRADIUS := DEMANDAOIRADIUS d;
                    DEMANDAOIKMLFILE := DEMANDAOIKMLFILE d |}
               else d)
            (DEMANDS s))
       s).

(** Lines 2154-2158. *)
Definition demandRunningMode (e : Env) (demandStatus : Z) : Z :=
  if (demandStatus >? 1) && isin demandStatus [3; 4; 5] then demandStatus
  else running_mode e.

(** Lines 2265-2377: one batch, retrieved and written. *)
Definition process_batch (e : Env) (mode : Z) (leader : Demand) (demandGroup_ids : list Z)
    (earliest latest : Z -> date) (start : date) (s : State) (dateSublist : list date)
    : State :=
  let s1 := log_event (Retrieval demandGroup_ids dateSublist) s in
  match retrieve e leader demandGroup_ids dateSublist with
  | None => set_anyError true s1
  | Some result =>
      Writer.write_batch (export_vars e demandGroup_ids) mode earliest latest start
                         demandGroup_ids dateSublist result s1
  end.

(** Lines 2199-2377 for a group whose area has [pixels] pixels.  [None] is
    an exception that ends the run: one of the scheduler, or the date
    formatting of a group without rows. *)
Definition process_group (e : Env) (mode : Z) (leader : Demand) (group : list Demand)
    (pixels : Q) (s : State) : option State :=
  let ids := map DEMANDID group in
  match Planner.startDate (collectionStartDate e (DEMANDPRODUCTID leader))
                          (map DEMANDSTARTDATE group),
        Planner.endDate (map DEMANDENDDATE group) with
  | Some start, Some stop =>
      let tmpDateList := date_range start stop in
      let dateList := Planner.dateList mode tmpDateList (timeSeriesDF s) ids in
      let earliest := Planner.earliestDateRecord (timeSeriesDF s) start in
      let latest := Planner.latestDateRecord (timeSeriesDF s) start in
      let '(availableDates, s1) :=
        if (0 <? length dateList)%nat
        then (getAvailableDates e leader dateList,
              log_event (AvailableDates (DEMANDID leader) dateList) s)
        else ([], s) in
      match Scheduler.groups pixels (DEMANDPROCALGOID leader) dateList availableDates with
      | Some groups =>
          Some (fold_left (process_batch e mode leader ids earliest latest start) groups s1)
      | None => None
      end
  | _, _ => None
  end.

(** [for row_i in validRows], rows being positions in [demandsDF]. *)
Fixpoint rows_loop (e : Env) (demandsDF : list Demand) (validRows alreadyProcessed : list nat)
    (s : State) : option State :=
  match validRows with
  | [] => Some s
  | row_i :: rest =>
      if existsb (Nat.eqb row_i) alreadyProcessed
      then rows_loop e demandsDF rest alreadyProcessed s
      else
        match nth_error demandsDF row_i with
        | None => None
        | Some leader =>
            let mode := demandRunningMode e (DEMANDSTATUS leader) in
            let s1 := if DEMANDSTATUS leader >? 1 then reset_status (DEMANDID leader) s
                      else s in
            if mode <? 5 then
              let inds := which (map (same_key leader) demandsDF) in
              let group := take_rows demandsDF inds in
              match nPixelsInAoI e leader with
              | None =>
                  rows_loop e demandsDF rest (alreadyProcessed ++ inds) (set_anyError true s1)
              | Some pixels =>
                  match process_group e mode leader group pixels s1 with
                  | Some s2 => rows_loop e demandsDF rest (alreadyProcessed ++ inds) s2
                  | None => None
                  end
              end
            else if mode =? 5 then
              rows_loop e demandsDF rest alreadyProcessed
                        (log_event (EstimationOnly (DEMANDID leader)) s1)
            else rows_loop e demandsDF rest alreadyProcessed s1
        end
  end.

(** A run in database mode.  The recomputation of mode 5 is recorded as an
    event; its effect on the data is not part of this development. *)
Definition databaseUpdate (e : Env) (s : State) : option State :=
  let df := demandsDF e s in
  rows_loop e df (seq 0 (length df)) [] (load s).

End Run.

(** ** Notions the properties are stated with *)

(** How many dates of a batch have imagery, by the provider's answer to
    the query for available dates. *)
Definition n_available (availableDates g : list date) : nat :=
  length (filter (fun d => isin d availableDates) g).

(** A provider that times out on every request for a result and reports
    the dates [dates] for the collection. *)
Definition timing_out (dates : list date) : Executor.provider :=
  {| Executor.getInfo_batch := fun _ _ => inl Executor.ComputationTimedOut;
     Executor.getInfo_dates := fun _ => dates;
     Executor.getInfo_date := fun _ _ _ => None |}.

(** The retry bound as the specification words it, for a batch that always
    times out: one fallback with one request for each date of the
    collection, and no more requests for a result than the initial attempt,
    one retry and one per date. *)
Definition spec_timeout_requests (p : Executor.provider) (dates : list date) : Prop :=
  Executor.one_date_requests (Executor.events (Executor.retry_loop p)) = length dates /\
  (Executor.result_requests (Executor.events (Executor.retry_loop p))
   <= 1 + 1 + length dates)%nat.

(** The part of the state that saving values leaves alone. *)
Definition same_records (s s' : State) : Prop :=
  DEMANDS s' = DEMANDS s /\ TIMESERIES s' = TIMESERIES s /\
  timeSeriesDF s' = timeSeriesDF s /\ lastTimeSeriesId s' = lastTimeSeriesId s /\
  currTimeSeriesId s' = currTimeSeriesId s /\ history s' = history s /\
  anyError s' = anyError s.

(** The records of a demand for a date. *)
Definition is_record (demandId : Z) (d : date) (r : TimeSeriesRow) : bool :=
  (TIMESERIESDATE r =? d) && (TIMESERIESDEMANDID r =? demandId).

Definition records_of (table : list TimeSeriesRow) (demandId : Z) (d : date)
    : list TimeSeriesRow :=
  filter (is_record demandId d) table.

(** The data rows of a record. *)
Definition data_of (table : list DataRow) (timeSeriesId : Z) : list DataRow :=
  filter (fun r => DATATIMESERIESID r =? timeSeriesId) table.

(** At most one record per demand and date. *)
Definition unique_records (table : list TimeSeriesRow) : Prop :=
  NoDup (map (fun r => (TIMESERIESDEMANDID r, TIMESERIESDATE r)) table).

(** The in-memory view holds every record of the table that belongs to one
    of the demands [ids]. *)
Definition view_complete (ids : list Z) (s : State) : Prop :=
  forall r, In r (TIMESERIES s) -> In (TIMESERIESDEMANDID r) ids -> In r (timeSeriesDF s).

Definition records_inv (ids : list Z) (s : State) : Prop :=
  unique_records (TIMESERIES s) /\ view_complete ids s.

(** The values of a date as they are saved: the result's entry without the
    time of the image. *)
Definition saved_values (result : result_t) (d : date) : values_t :=
  match result_get result d with
  | Some vs => values_pop vs "img_time"
  | None => []
  end.

(** The data table of [s'] is that of [s] with rows added at its end. *)
Definition only_inserts (s s' : State) : Prop :=
  exists added, DATA s' = DATA s ++ added.

(** No record of the view and no data row carries an id above the last id
    given out. *)
Definition ids_bounded (s : State) : Prop :=
  (forall r, In r (timeSeriesDF s) -> TIMESERIESID r <= lastTimeSeriesId s) /\
  (forall x, In x (DATA s) -> DATATIMESERIESID x <= lastTimeSeriesId s).

(** Before the date is reached: it keeps having no record, and ids stay
    bounded. *)
Definition before_gap (s0 : State) (m : Z) (d : date) (st : State * result_t) : Prop :=
  records_of (timeSeriesDF (fst st)) m d = [] /\
  ids_bounded (fst st) /\
  in_result d (snd st) = false /\
  lastTimeSeriesId s0 <= lastTimeSeriesId (fst st) /\
  records_of (TIMESERIES (fst st)) m d = records_of (TIMESERIES s0) m d.

(** After the stub of id [id] is made: it stays the only record with that
    id, and no data row refers to it. *)
Definition after_gap (recs : list TimeSeriesRow) (id m : Z) (d : date)
    (st : State * result_t) : Prop :=
  (forall r, In r (timeSeriesDF (fst st)) -> TIMESERIESID r = id -> TIMESERIESDATE r = d) /\
  id <= lastTimeSeriesId (fst st) /\
  data_of (DATA (fst st)) id = [] /\
  records_of (TIMESERIES (fst st)) m d = recs.

(** Every record of the view is a record of the table. *)
Definition view_sound (s : State) : Prop := incl (timeSeriesDF s) (TIMESERIES s).

(** Every data row belongs to a record of the table. *)
Definition data_has_parents (s : State) : Prop :=
  forall x, In x (DATA s) -> In (DATATIMESERIESID x) (map TIMESERIESID (TIMESERIES s)).

(** While a batch is written in overwrite mode, around the record [i] of
    member [m] for day [d]: the record keeps its id to itself, no id lies
    above the last one given out, the member's records of the day stay as
    they are in the view and in the table, and the day keeps its values in
    the result. *)
Definition around_record (i m : Z) (d : date) (view table : list TimeSeriesRow)
    (vs : values_t) (st : State * result_t) : Prop :=
  (forall r, In r (timeSeriesDF (fst st)) -> TIMESERIESID r = i ->
             TIMESERIESDEMANDID r = m /\ TIMESERIESDATE r = d) /\
  (forall r, In r (timeSeriesDF (fst st)) -> TIMESERIESID r <= lastTimeSeriesId (fst st)) /\
  records_of (timeSeriesDF (fst st)) m d = view /\
  records_of (TIMESERIES (fst st)) m d = table /\
  saved_values (snd st) d = vs /\
  in_result d (snd st) = true.

(** ** An unchanged provider *)

(** The result of a batch when the provider answers date by date: [r d]
    are the values of day [d], when it has any, whatever batch the day is
    asked in. *)
Definition per_date (r : date -> option values_t) (batch : list date) : result_t :=
  flat_map (fun d => match r d with Some vs => [(d, vs)] | None => [] end) batch.

(** The provider of a run answers date by date, never fails, and has
    values only for dates it reports as having imagery. *)
Definition answers_by_date (e : Run.Env) (avail : Demand -> date -> bool)
    (r : Demand -> list Z -> date -> option values_t) : Prop :=
  (forall leader ids batch,
      Run.retrieve e leader ids batch = Some (per_date (r leader ids) batch)) /\
  (forall leader dateList,
      Run.getAvailableDates e leader dateList = filter (avail leader) dateList) /\
  (forall leader ids d, r leader ids d <> None -> avail leader d = true).

(** Every member has a record of every day of the span the provider has
    values for. *)
Definition complete_for (r : date -> option values_t) (ids : list Z) (start stop : date)
    (df : list TimeSeriesRow) : Prop :=
  forall d id, start <= d <= stop -> r d <> None -> In id ids -> records_of df id d <> [].

(** The rows of the group a demand leads. *)
Definition group_of (df : list Demand) (leader : Demand) : list Demand :=
  take_rows df (which (map (Run.same_key leader) df)).

(** The demands an update run processes as leaders of a group with an
    area, in order. *)
Fixpoint leaders (e : Run.Env) (df : list Demand) (validRows alreadyProcessed : list nat)
    : list Demand :=
  match validRows with
  | [] => []
  | row_i :: rest =>
      if existsb (Nat.eqb row_i) alreadyProcessed then leaders e df rest alreadyProcessed
      else
        match nth_error df row_i with
        | None => []
        | Some leader =>
            let inds := which (map (Run.same_key leader) df) in
            match Run.nPixelsInAoI e leader with
            | None => leaders e df rest (alreadyProcessed ++ inds)
            | Some _ => leader :: leaders e df rest (alreadyProcessed ++ inds)
            end
        end
  end.

(** The group of every leader is complete in the view. *)
Definition all_complete (e : Run.Env) (r : Demand -> list Z -> date -> option values_t)
    (df : list Demand) (ls : list Demand) (view : list TimeSeriesRow) : Prop :=
  forall leader start stop,
    In leader ls ->
    Planner.startDate (Run.collectionStartDate e (DEMANDPRODUCTID leader))
                      (map DEMANDSTARTDATE (group_of df leader)) = Some start ->
    Planner.endDate (map DEMANDENDDATE (group_of df leader)) = Some stop ->
    complete_for (r leader (map DEMANDID (group_of df leader)))
                 (map DEMANDID (group_of df leader)) start stop view.

(** ** Sample data for the worked cases *)

Module Sample.

Definition demand (id status start stop : Z) : Demand :=
  {| DEMANDID := id; DEMANDSTID := 1; DEMANDSTATUS := status; DEMANDPRODUCTID := 101;
     DEMANDPROCALGOID := 2; DEMANDESTIMALGOID := 0; DEMANDREDUCID := 1;
     DEMANDSTARTDATE := start; DEMANDENDDATE := stop; DEMANDAOIMODE := 0;
     DEMANDAOIRADIUS := 100; DEMANDAOIKMLFILE := "" |}.

Definition record (id m : Z) (d : date) : TimeSeriesRow :=
  {| TIMESERIESID := id; TIMESERIESDEMANDID := m; TIMESERIESDATE := d |}.

Definition datum (ts v : Z) : DataRow :=
  {| DATATIMESERIESID := ts; DATAVARID := 1; DATASTATSID := 1; DATATIME := Str "10:30";
     DATAVALUE := Num (inject_Z v) |}.

(** A store with the given demands, records and data, the view in step
    with the table and [lastId] the last id given out. *)
Definition store (demands : list Demand) (records : list TimeSeriesRow)
    (data : list DataRow) (lastId : Z) : State :=
  {| DEMANDS := demands; TIMESERIES := records; DATA := data;
     STATISTICS := [(1, "median"%string)]; VARIABLES := [(1, "red"%string)];
     timeSeriesDF := records; statsDF := [(1, "median"%string)];
     varDF := [(1, "red"%string)];
     lastTimeSeriesId := lastId; currTimeSeriesId := None; anyError := false;
     history := [] |}.

Definition values (v : Z) : values_t :=
  [("img_time"%string, Str "10:30"); ("red_median"%string, Num (inject_Z v))].

Definition env (mode : Z) (avail : date -> bool) (r : date -> option values_t) : Run.Env :=
  {| Run.running_mode := mode;
     Run.isValidRow := fun _ => true;
     Run.collectionStartDate := fun _ => Some 0;
     Run.nPixelsInAoI := fun _ => Some (100 # 1)%Q;
     Run.getAvailableDates := fun _ dateList => filter avail dateList;
     Run.export_vars := fun _ => ["img_time"%string];
     Run.retrieve := fun _ _ batch => Some (per_date r batch) |}.

End Sample.

(** ** Notions for the further properties *)

(** The waits among the events of the retry loop. *)
Definition is_sleep (e : Executor.event) : bool :=
  match e with Executor.Sleep _ => true | _ => false end.

(** Whether a single-date request of the fallback came back with a result. *)
Definition answered (answer : date -> option result_t) (d : date) : bool :=
  match answer d with Some _ => true | None => false end.

(** What the fallback of [reduction] ends with when the provider answers
    date [d] with [answer d]: the answers that came back, combined in the
    order of the dates. *)
Definition combined_answers (answer : date -> option result_t) (dates : list date)
    : result_t :=
  fold_left (fun acc d => match answer d with
                          | Some localResult => Executor.combine acc localResult
                          | None => acc
                          end) dates [].


(** [reduction_specs[reducer]["sufix"]] (lines 300-333). *)
Definition reduction_specs_sufix (reducer : Z) : option (list string) :=
  match reducer with
  | 0 => Some [""%string]
  | 1 => Some ["median"%string]
  | 2 => Some ["mean"%string]
  | 3 => Some ["mean"%string; "stdDev"%string]
  | 4 => Some ["min"%string; "max"%string]
  | 5 => Some ["count"%string]
  | 6 => Some ["sum"%string]
  | 7 => Some ["median"%string; "mean"%string; "stdDev"%string; "min"%string; "max"%string]
  | _ => None
  end.


(** [k2 in reducedBands] (line 1456). *)
Definition is_reduced (reducedBands : list string) (k2 : string) : bool :=
  existsb (String.eqb k2) reducedBands.

(** The values of a date with every reduced band under its new name: the
    other entries first, in their order, then the reduced bands, in
    theirs. *)
Definition with_sufix (reducedBands : list string) (sufix : string) (vs : values_t)
    : values_t :=
  filter (fun kv => negb (is_reduced reducedBands (fst kv))) vs
  ++ map (fun kv => ((fst kv ++ "_" ++ sufix)%string, snd kv))
         (filter (fun kv => is_reduced reducedBands (fst kv)) vs).


(** Every data row refers to a record, a variable and a statistic that
    exist: the three foreign keys of DATA. *)
Definition data_refs (s : State) : Prop :=
  forall x, In x (DATA s) ->
    In (DATATIMESERIESID x) (map TIMESERIESID (TIMESERIES s)) /\
    In (DATAVARID x) (map fst (VARIABLES s)) /\
    In (DATASTATSID x) (map fst (STATISTICS s)).

(** The keys of the two catalogs the writer adds to: the primary keys
    STATSID and VARID, and the UNIQUE column VARNAME. *)
Definition catalog_keys (s : State) : Prop :=
  NoDup (map fst (STATISTICS s)) /\ NoDup (map fst (VARIABLES s)) /\
  NoDup (map snd (VARIABLES s)).

(** A demand with its status replaced, as UPDATE DEMANDS SET DEMANDSTATUS
    leaves it. *)
Definition with_status (status : Z) (d : Demand) : Demand :=
  {| DEMANDID := DEMANDID d; DEMANDSTID := DEMANDSTID d; DEMANDSTATUS := status;
     DEMANDPRODUCTID := DEMANDPRODUCTID d; DEMANDPROCALGOID := DEMANDPROCALGOID d;
     DEMANDESTIMALGOID := DEMANDESTIMALGOID d; DEMANDREDUCID := DEMANDREDUCID d;
     DEMANDSTARTDATE := DEMANDSTARTDATE d; DEMANDENDDATE := DEMANDENDDATE d;
     DEMANDAOIMODE := DEMANDAOIMODE d; DEMANDAOIRADIUS := DEMANDAOIRADIUS d;
     DEMANDAOIKMLFILE := DEMANDAOIKMLFILE d |}.

(** The requests for a batch among the events of a run. *)
Definition is_retrieval (ev : run_event) : bool :=
  match ev with Retrieval _ _ => true | _ => false end.


(** While a run goes on: the views of the two catalogs are the tables,
    the keys are unique, and the tables are those at the start with rows
    added at the end. *)
Definition catalogs_inv (S0 V0 : list (Z * string)) (s : State) : Prop :=
  statsDF s = STATISTICS s /\ varDF s = VARIABLES s /\ catalog_keys s /\
  (exists added, STATISTICS s = S0 ++ added) /\ (exists added, VARIABLES s = V0 ++ added).

(** While a run goes on: the views lie within their tables, the current
    record id is the id of a record, and the foreign keys of DATA hold. *)
Definition refs_inv (s : State) : Prop :=
  view_sound s /\ incl (statsDF s) (STATISTICS s) /\ incl (varDF s) (VARIABLES s) /\
  (forall ts, currTimeSeriesId s = Some ts -> In ts (map TIMESERIESID (TIMESERIES s))) /\
  data_refs s.


(** While a batch is written: the ids of the records are unique and none
    lies above the last id given out. *)
Definition record_ids_inv (s : State) : Prop :=
  NoDup (map TIMESERIESID (TIMESERIES s)) /\
  forall r, In r (TIMESERIES s) -> TIMESERIESID r <= lastTimeSeriesId s.


(** What a run may do to a demand: nothing, or the reset to 1 of its
    status when a demand of its id among [leaders] has a status above 1. *)
Definition status_reset_only (leaders : list Demand) (d d' : Demand) : Prop :=
  d' = d \/
  (d' = with_status 1 d /\
   exists l, In l leaders /\ DEMANDID l = DEMANDID d /\ 1 < DEMANDSTATUS l).

(** While a run goes on without a retrieval that succeeds: the four tables
    are as they were, and a request for a batch has raised the error
    flag. *)
Definition untouched (T : list TimeSeriesRow) (D : list DataRow) (S V : list (Z * string))
    (s : State) : Prop :=
  TIMESERIES s = T /\ DATA s = D /\ STATISTICS s = S /\ VARIABLES s = V /\
  (existsb is_retrieval (history s) = true -> anyError s = true).


(** ** The batches of [specificDatesRetrieval] (lines 1786-1795) *)

Module SpecificDates.

(** [range(lo, hi)]. *)
Definition py_range (lo hi : Z) : list Z :=
  map (fun k => lo + Z.of_nat k) (seq 0 (Z.to_nat (hi - lo))).

(** [l[i]] on a Python list: a negative index counts from the end, and
    [None] is the IndexError of an index out of range. *)
Definition py_getitem {A : Type} (l : list A) (i : Z) : option A :=
  if 0 <=? i then nth_error l (Z.to_nat i)
  else if - Z.of_nat (length l) <=? i then nth_error l (Z.to_nat (Z.of_nat (length l) + i))
  else None.

(** A comprehension whose elements may raise. *)
Fixpoint all_some {A : Type} (l : list (option A)) : option (list A) :=
  match l with
  | [] => Some []
  | None :: _ => None
  | Some x :: l' =>
      match all_some l' with
      | Some r => Some (x :: r)
      | None => None
      end
  end.

(** [dateSublist] for group [g]. *)
Definition dateSublist (availableDates : list date) (group_len g : Z) : option (list date) :=
  let nAvailableDates := Z.of_nat (length availableDates) in
  let dateSublist_inds :=
    py_range (g * group_len) (Z.min (g * group_len + group_len) nAvailableDates) in
  all_some (map (py_getitem availableDates) dateSublist_inds).

(** The date sublists requested for a site and a processing code; [None]
    is a Python exception: the division by zero on an area of zero pixels or
    a group length of zero, the KeyError on an unknown processing algorithm,
    the IndexError of a date index out of range. *)
Definition dateSublists (nPixelsInAoI : Q) (imgProcAlgo : Z) (availableDates : list date)
    : option (list (list date)) :=
  if Qeq_bool nPixelsInAoI 0 then None
  else
    let maxNImgs := Scheduler.maxNImgs nPixelsInAoI in
    match Scheduler.nSimImgs_of imgProcAlgo with
    | None => None
    | Some cap =>
        let group_len := Z.min maxNImgs cap in
        if group_len =? 0 then None
        else
          let nAvailableDates := Z.of_nat (length availableDates) in
          let nGroups := Scheduler.ceil_div nAvailableDates group_len in
          all_some (map (dateSublist availableDates group_len) (py_range 0 nGroups))
    end.

End SpecificDates.


(** ** The expansion to a time window in [specificDatesRetrieval] (lines
    1673-1706) *)

Module TimeWindow.

(** The frame being filled: [tmpDF] and the series [imgDate], both built
    with one empty cell per row of the result, the next row to write and the
    rows written for a valid row of the input.  An empty cell is [None]. *)
Record frame (A : Type) := {
  tmpDF : list (option A);
  imgDate : list (option date);
  row_j : nat;
  validRows_new : list nat
}.

Arguments tmpDF {A} _.
Arguments imgDate {A} _.
Arguments row_j {A} _.
Arguments validRows_new {A} _.

(** [tmpDF.iloc[j] = x]: an IndexError, here [None], past the last row. *)
Definition iloc_set {X : Type} (l : list (option X)) (j : nat) (x : X)
    : option (list (option X)) :=
  if (j <? length l)%nat then Some (firstn j l ++ Some x :: skipn (S j) l) else None.

(** [imgDate[j] = x]: a label past the index would enlarge the series;
    the assignment to the frame, of the same length, comes first and has
    raised by then. *)
Definition series_set {X : Type} (l : list (option X)) (j : nat) (x : X) : list (option X) :=
  if (j <? length l)%nat then firstn j l ++ Some x :: skipn (S j) l else l ++ [Some x].

(** [for window_i in range(window_size)], on the turns still to come. *)
Fixpoint window_loop {A : Type} (row : A) (turns : nat) (date_j : date) (st : frame A)
    : option (frame A) :=
  match turns with
  | O => Some st
  | S turns' =>
      match iloc_set (tmpDF st) (row_j st) row with
      | None => None
      | Some t =>
          window_loop row turns' (date_j + 1)
            {| tmpDF := t;
               imgDate := series_set (imgDate st) (row_j st) date_j;
               row_j := S (row_j st);
               validRows_new := validRows_new st ++ [row_j st] |}
      end
  end.

(** [for row_i in range(nrows)], on the rows from [row_i] on. *)
Fixpoint rows_loop {A : Type} (date_of : A -> date) (validRows : list nat) (time_window : Z)
    (row_i : nat) (rows : list A) (st : frame A) : option (frame A) :=
  match rows with
  | [] => Some st
  | row :: rest =>
      let window_size := 1 + time_window * 2 in
      let step :=
        if existsb (Nat.eqb row_i) validRows then
          window_loop row (Z.to_nat window_size) (date_of row - time_window) st
        else
          match iloc_set (tmpDF st) (row_j st) row with
          | None => None
          | Some t =>
              Some {| tmpDF := t; imgDate := imgDate st; row_j := S (row_j st);
                      validRows_new := validRows_new st |}
          end in
      match step with
      | None => None
      | Some st' => rows_loop date_of validRows time_window (S row_i) rest st'
      end
  end.

(** Lines 1677-1694 on the rows of the template, [valid] telling the rows
    without a missing date, site or coordinate (line 1664). *)
Definition expand {A : Type} (date_of : A -> date) (valid : A -> bool) (time_window : Z)
    (rows : list A) : option (frame A) :=
  let validRows := which (map valid rows) in
  let nrows := Z.of_nat (length rows) in
  let window_size := 1 + time_window * 2 in
  let nrows_tmp := Z.of_nat (length validRows) * window_size
                   + (nrows - Z.of_nat (length validRows)) in
  rows_loop date_of validRows time_window 0 rows
    {| tmpDF := repeat None (Z.to_nat nrows_tmp);
       imgDate := repeat None (Z.to_nat nrows_tmp);
       row_j := 0;
       validRows_new := [] |}.

End TimeWindow.

(** The rows and the image dates the expansion is meant to give: a valid
    row once for each day of its window, from [time_window] days before its
    date to [time_window] days after it, any other row once and without an
    image date. *)
Definition window_rows {A : Type} (valid : A -> bool) (time_window : Z) (rows : list A)
    : list A :=
  flat_map (fun row => if valid row then repeat row (Z.to_nat (1 + time_window * 2))
                       else [row]) rows.

Definition window_dates {A : Type} (date_of : A -> date) (valid : A -> bool)
    (time_window : Z) (rows : list A) : list (option date) :=
  flat_map (fun row =>
              if valid row then
                map (fun k => Some (date_of row - time_window + Z.of_nat k))
                    (seq 0 (Z.to_nat (1 + time_window * 2)))
              else [None]) rows.

Definition has_date (o : option date) : bool :=
  match o with Some _ => true | None => false end.

(** A frame whose first rows are [X] with the image dates [Y], and whose
    [R] rows after them are still empty. *)
Definition filled {A : Type} (X : list A) (Y : list (option date)) (R : nat)
    (st : TimeWindow.frame A) : Prop :=
  TimeWindow.tmpDF st = map Some X ++ repeat None R /\
  TimeWindow.imgDate st = Y ++ repeat None R /\
  TimeWindow.row_j st = length X /\
  length Y = length X /\
  TimeWindow.validRows_new st = which (map has_date Y).


(** ** The catalog tables of products and algorithms: [updateGEEDaRtables]
    (lines 1874-1929) *)

Module Catalog.

(** One turn of a loop over a specification dictionary: the id is looked
    for in the data frame read before the loop; an id it does not hold is
    INSERTed, which raises, here [None], when the primary key is in the
    table already; an id it holds has its columns UPDATEd. *)
Definition upsert {V : Type} (idsRead : list Z) (table : option (list (Z * V)))
    (spec : Z * V) : option (list (Z * V)) :=
  match table with
  | None => None
  | Some rows =>
      if negb (isin (fst spec) idsRead) then
        if isin (fst spec) (map fst rows) then None else Some (rows ++ [spec])
      else Some (map (fun r => if fst r =? fst spec then (fst r, snd spec) else r) rows)
  end.

Definition sync_table {V : Type} (specs table : list (Z * V)) : option (list (Z * V)) :=
  fold_left (upsert (map fst table)) specs (Some table).

(** The four tables with their columns after the id: name, sensor and
    description of a product; name, description and reference of a
    processing algorithm; name, description, model, reference and parameter
    of an estimation algorithm; description of a reducer. *)
Record tables := {
  PRODUCTS : list (Z * (string * string * string));
  PROCALGOS : list (Z * (string * string * string));
  ESTIMALGOS : list (Z * (string * string * string * string * string));
  REDUCERS : list (Z * string)
}.

(** The four dictionaries, each as its items in order, the values being
    the columns written to the table. *)
Record specs := {
  product_specs : list (Z * (string * string * string));
  img_proc_algo_specs : list (Z * (string * string * string));
  estimation_algo_specs : list (Z * (string * string * string * string * string));
  reduction_specs : list (Z * string)
}.

(** The return code and the tables: 0 and the synchronised tables after
    the commit, or -1 and the tables as they were when an exception ended
    the transaction before it. *)
Definition updateGEEDaRtables (sp : specs) (db : tables) : Z * tables :=
  match sync_table (product_specs sp) (PRODUCTS db),
        sync_table (img_proc_algo_specs sp) (PROCALGOS db),
        sync_table (estimation_algo_specs sp) (ESTIMALGOS db),
        sync_table (reduction_specs sp) (REDUCERS db) with
  | Some p, Some a, Some e, Some r =>
      (0, {| PRODUCTS := p; PROCALGOS := a; ESTIMALGOS := e; REDUCERS := r |})
  | _, _, _, _ => (-1, db)
  end.

End Catalog.

(** [specs[id]], when the dictionary has the id. *)
Fixpoint spec_get {V : Type} (specs : list (Z * V)) (id : Z) : option V :=
  match specs with
  | [] => None
  | (k, v) :: rest => if k =? id then Some v else spec_get rest id
  end.

(** A table in step with a dictionary: every row whose id the dictionary
    has carries the dictionary's columns, the other rows are as they were,
    and the entries the table did not have follow, in the dictionary's
    order. *)
Definition synced {V : Type} (specs table : list (Z * V)) : list (Z * V) :=
  map (fun r => match spec_get specs (fst r) with
                | Some v => (fst r, v)
                | None => r
                end) table
  ++ filter (fun spec => negb (isin (fst spec) (map fst table))) specs.

(** The keys of a dictionary are distinct. *)
Definition dict_keys (sp : Catalog.specs) : Prop :=
  NoDup (map fst (Catalog.product_specs sp)) /\
  NoDup (map fst (Catalog.img_proc_algo_specs sp)) /\
  NoDup (map fst (Catalog.estimation_algo_specs sp)) /\
  NoDup (map fst (Catalog.reduction_specs sp)).


(** The values of a date no longer hold the time of the image. *)
Definition popped (result : result_t) (d : date) : Prop :=
  forall vs, result_get result d = Some vs -> values_get vs "img_time" = None.

(** While the members after the first are written: the dates of the batch
    have lost the time of the image, and a data row is one the first member
    left or carries the time 00:00. *)
Definition after_first_member (batch : list date) (D1 : list DataRow)
    (st : State * result_t) : Prop :=
  (forall d, In d batch -> popped (snd st) d) /\
  (forall x, In x (DATA (fst st)) -> In x D1 \/ DATATIME x = Str "00:00").


(** ** The command line (lines 64-85 and 2690-2733) *)

Module Args.

(** [run_par] with its default values, the keys in the order of the
    dictionary. *)
Definition run_par : list (ascii * string) :=
  [("h"%char, ""%string); ("i"%char, ""%string); ("o"%char, ""%string);
   ("m"%char, ""%string);
   ("c"%char, "[10110001, 10210001, 30109001, 30209001, 30309001, 20109001]"%string);
   ("k"%char, ""%string); ("r"%char, ""%string); ("t"%char, "0"%string);
   ("a"%char, ""%string)].

(** [key in run_par], [run_par[key]] and [run_par[key] = value] for a key
    the dictionary has. *)
Definition par_has (rp : list (ascii * string)) (key : ascii) : bool :=
  existsb (fun kv => Ascii.eqb (fst kv) key) rp.

Fixpoint par_get (rp : list (ascii * string)) (key : ascii) : string :=
  match rp with
  | [] => ""%string
  | (k, v) :: rest => if Ascii.eqb k key then v else par_get rest key
  end.

Definition par_set (rp : list (ascii * string)) (key : ascii) (value : string)
    : list (ascii * string) :=
  map (fun kv => if Ascii.eqb (fst kv) key then (fst kv, value) else kv) rp.

(** [arg[0] == c] and the like: [None] is the IndexError. *)
Definition char_is (arg : string) (i : nat) (c : ascii) : option bool :=
  match String.get i arg with
  | Some x => Some (Ascii.eqb x c)
  | None => None
  end.

(** The body of [for arg in arg_list[1:]] on [input_passed] and [run_par];
    [None] is an exception. *)
Definition parse_arg (st : bool * list (ascii * string)) (arg : string)
    : option (bool * list (ascii * string)) :=
  let '(input_passed, rp) := st in
  match char_is arg 0 "-" with
  | None => None
  | Some hyphen =>
      let named :=
        if negb hyphen then
          if negb input_passed then Some (("-i:" ++ arg)%string, true) else None
        else Some (arg, input_passed) in
      match named with
      | None => None
      | Some (arg1, input_passed1) =>
          match char_is arg1 0 "-" with
          | None => None
          | Some hyphen1 =>
              let arg2 := if hyphen1 && (String.length arg1 =? 2)%nat
                          then (arg1 ++ ":True")%string else arg1 in
              match char_is arg2 0 "-" with
              | None => None
              | Some hyphen2 =>
                  match (if hyphen2 then char_is arg2 2 ":" else Some false) with
                  | None => None
                  | Some false => None
                  | Some true =>
                      if (String.length arg2 <? 4)%nat then None
                      else
                        match String.get 1 arg2 with
                        | None => None
                        | Some key =>
                            if negb (par_has rp key) then None
                            else
                              Some (input_passed1 || Ascii.eqb key "i",
                                    par_set rp key
                                      (String.substring 3 (String.length arg2 - 3) arg2))
                        end
                  end
              end
          end
      end
  end.

Inductive outcome :=
| Raised
| Quit
| Parsed (rp : list (ascii * string)).

(** Lines 2690-2733 on [sys.argv]. *)
Definition parse (arg_list : list string) : outcome :=
  if (length arg_list <? 2)%nat then Raised
  else if (length arg_list =? 2)%nat
          && existsb (String.eqb (nth 1 arg_list ""%string))
               ["?"%string; "-?"%string; "-h"%string; "-help"%string; "--help"%string;
                "help"%string]
  then Quit
  else
    match fold_left (fun st arg => match st with
                                   | None => None
                                   | Some st0 => parse_arg st0 arg
                                   end)
                    (tl arg_list) (Some (false, run_par)) with
    | None => Raised
    | Some (_, rp) => if negb (String.eqb (par_get rp "h") "") then Quit else Parsed rp
    end.

End Args.

(** A path given without a name: not empty and without a leading
    hyphen. *)
Definition positional (arg : string) : Prop :=
  exists c rest, arg = String c rest /\ c <> "-"%char.


(** ** The processing code: [unfoldProcessingCode] (lines 432-507) *)

Module ProcessingCode.

Definition img_proc_algo_list : list Z := [0; 1; 2; 3; 4; 5; 6; 7; 8; 9; 10; 11; 12; 13; 14].

Definition estimation_algo_list : list Z := [0; 1; 2; 3; 4; 5; 10; 11; 12; 99].

(** [len(reducerList)]. *)
Definition n_reducers : Z := 8.

(** [fullCode.replace(" ", "")]. *)
Fixpoint remove_spaces (s : string) : string :=
  match s with
  | EmptyString => EmptyString
  | String c s' => if Ascii.eqb c " " then remove_spaces s' else String c (remove_spaces s')
  end.

(** [s.split(",")]. *)
Fixpoint split_commas (s : string) : list string :=
  match s with
  | EmptyString => [EmptyString]
  | String c s' =>
      if Ascii.eqb c "," then EmptyString :: split_commas s'
      else
        match split_commas s' with
        | piece :: pieces => String c piece :: pieces
        | [] => [String c EmptyString]
        end
  end.

(** [s[-1]] as a string; [None] is the IndexError on the empty string. *)
Fixpoint last_char (s : string) : option string :=
  match s with
  | EmptyString => None
  | String c EmptyString => Some (String c EmptyString)
  | String _ s' => last_char s'
  end.

(** What the function ends with: an exception, the tuple of [None]s that
    a failure gives when [silent], or the five lists. *)
Inductive outcome :=
| Raised
| FailValues
| Codes (processingCodes productIDs imgProcAlgos estimationAlgos reducers : list Z).

Definition fail (silent : bool) : outcome := if silent then FailValues else Raised.

Section WithInt.

(** [int(s)] on a string, [None] for its ValueError, and the ids of the
    products, which come from a module that is not part of these
    sources. *)
Variable py_int : string -> option Z.
Variable available_products : list Z.

(** [for strCode in strCodes], on the codes still to come.  Only the first
    [int] is inside a [try]; the ValueError of a later one is not caught. *)
Fixpoint unfold_codes (silent : bool) (strCodes : list string)
    (processingCodes productIDs imgProcAlgos estimationAlgos reducers : list Z) : outcome :=
  match strCodes with
  | [] => Codes processingCodes productIDs imgProcAlgos estimationAlgos reducers
  | strCode :: rest =>
      match py_int strCode with
      | None => fail silent
      | Some code =>
          if code <? 10000000 then fail silent
          else
            match py_int (String.substring 0 3 strCode) with
            | None => Raised
            | Some productID =>
                if negb (isin productID available_products) then fail silent
                else
                  match py_int (String.substring 3 2 strCode) with
                  | None => Raised
                  | Some imgProcAlgo =>
                      if negb (isin imgProcAlgo img_proc_algo_list) then fail silent
                      else
                        match py_int (String.substring 5 2 strCode) with
                        | None => Raised
                        | Some estimationAlgo =>
                            if negb (isin estimationAlgo estimation_algo_list)
                            then fail silent
                            else
                              match last_char strCode with
                              | None => Raised
                              | Some a =>
                                  match py_int a with
                                  | None => Raised
                                  | Some reducer =>
                                      if negb ((0 <=? reducer) && (reducer <? n_reducers))
                                      then fail silent
                                      else
                                        unfold_codes silent rest
                                          (processingCodes ++ [code])
                                          (productIDs ++ [productID])
                                          (imgProcAlgos ++ [imgProcAlgo])
                                          (estimationAlgos ++ [estimationAlgo])
                                          (reducers ++ [reducer])
                                  end
                              end
                        end
                  end
            end
      end
  end.

Definition unfoldProcessingCode (fullCode : string) (silent : bool) : outcome :=
  if (String.length fullCode <? 8)%nat then fail silent
  else
    let bracketed :=
      match String.get 0 fullCode, last_char fullCode with
      | Some first, Some last =>
          Ascii.eqb first "[" && String.eqb last "]"
      | _, _ => false
      end in
    let fullCode1 :=
      if bracketed then String.substring 1 (String.length fullCode - 2) fullCode
      else fullCode in
    unfold_codes silent (split_commas (remove_spaces fullCode1)) [] [] [] [] [].

End WithInt.

End ProcessingCode.

(** A decimal digit, its value, and the number a string of digits
    writes. *)
Definition is_digit (c : ascii) : bool :=
  ((48 <=? N_of_ascii c) && (N_of_ascii c <=? 57))%N.

Definition digit_val (c : ascii) : Z := Z.of_N (N_of_ascii c) - 48.

Fixpoint all_digits (s : string) : bool :=
  match s with
  | EmptyString => true
  | String c s' => is_digit c && all_digits s'
  end.

Fixpoint decimal_from (acc : Z) (s : string) : Z :=
  match s with
  | EmptyString => acc
  | String c s' => decimal_from (acc * 10 + digit_val c) s'
  end.

Definition decimal (s : string) : Z := decimal_from 0 s.

(** What is taken of [int]: a string of decimal digits that is not empty
    is read as the number it writes. *)
Definition reads_decimals (py_int : string -> option Z) : Prop :=
  forall s, s <> EmptyString -> all_digits s = true -> py_int s = Some (decimal s).


(** ** The bit masks of [qaMask_collection] (lines 572-577) *)

Module QaMask.

(** [bitToInt] after the inner loop over [range(startBit, endBit + 1)];
    [int(math.pow(2, j))] is [2 ^ j] for the bit positions a float can
    hold, below 1024, and the largest position in the tables is 11. *)
Definition bitToInt (startBit endBit : Z) : Z :=
  fold_left (fun bitToInt j => bitToInt + 2 ^ j)
            (SpecificDates.py_range startBit (endBit + 1)) 0.

(** What is tested on a pixel of the quality layer:
    [bitwiseAnd(maskVal).rightShift(startBit)]. *)
Definition tested (startBit endBit : Z) (pixel : Z) : Z :=
  Z.shiftr (Z.land pixel (bitToInt startBit endBit)) startBit.

End QaMask.


(** While a batch is written, before the turn of member [m] and day [d],
    a day with values and without a record of the member: the view has no
    record of it, no id lies above the last one given out, which is not
    below [L0], the table holds the records [recs] for it, and the day keeps
    its values [vals] in the result. *)
Definition before_new (L0 m : Z) (d : date) (recs : list TimeSeriesRow) (vals : values_t)
    (st : State * result_t) : Prop :=
  records_of (timeSeriesDF (fst st)) m d = [] /\
  ids_bounded (fst st) /\
  L0 <= lastTimeSeriesId (fst st) /\
  records_of (TIMESERIES (fst st)) m d = recs /\
  in_result d (snd st) = true /\
  saved_values (snd st) d = vals.

(** After that turn has made the record of id [id]: the id is above [L0]
    and not above the last one given out, the record is the only one of the
    view with its id and the only one of the view for the member and the
    day, the table holds it after the records [recs], and its data rows
    carry the values [vals]. *)
Definition after_new (L0 id m : Z) (d : date) (recs : list TimeSeriesRow) (vals : values_t)
    (st : State * result_t) : Prop :=
  let row := {| TIMESERIESID := id; TIMESERIESDEMANDID := m; TIMESERIESDATE := d |} in
  L0 < id /\ id <= lastTimeSeriesId (fst st) /\
  (forall r, In r (timeSeriesDF (fst st)) -> TIMESERIESID r = id -> r = row) /\
  records_of (timeSeriesDF (fst st)) m d = [row] /\
  records_of (TIMESERIES (fst st)) m d = recs ++ [row] /\
  map DATAVALUE (data_of (DATA (fst st)) id) = map snd vals.

(** * Properties *)

(** ** Lists, positions and sorting *)

Section ListFacts.

Lemma which_from_In (l : list bool) : forall k i,
  In i (which_from k l) <-> exists j, i = (k + j)%nat /\ nth_error l j = Some true.
Proof.
  induction l as [|b l IH]; intros k i; simpl.
  - split; [tauto|]. intros [j [_ H]]. destruct j; discriminate.
  - destruct b; simpl; rewrite ?IH; split.
    + intros [<-|[j [-> H]]]; [exists 0%nat | exists (S j)]; simpl; split; auto; lia.
    + intros [[|j] [-> H]]; [left; lia | right; exists j; split; auto; lia].
    + intros [j [-> H]]. exists (S j). split; auto; lia.
    + intros [[|j] [-> H]]; [discriminate | exists j; split; auto; lia].
Qed.

Lemma which_from_NoDup (l : list bool) : forall k, NoDup (which_from k l).
Proof.
  induction l as [|b l IH]; intros k; simpl; [constructor|].
  destruct b; auto. constructor; auto.
  rewrite which_from_In. intros [j [E _]]. lia.
Qed.

Lemma which_In (l : list bool) (i : nat) :
  In i (which l) <-> nth_error l i = Some true.
Proof.
  unfold which. rewrite which_from_In. split.
  - intros [j [-> H]]. exact H.
  - intros H. exists i. auto.
Qed.

(** Selecting by [which] is filtering. *)
Lemma take_rows_which_from {A : Type} (p : A -> bool) (l : list A) : forall pre,
  take_rows (pre ++ l) (which_from (length pre) (map p l)) = filter p l.
Proof.
  induction l as [|x l IH]; intros pre; simpl; auto.
  assert (E : pre ++ x :: l = (pre ++ [x]) ++ l) by (rewrite <- app_assoc; reflexivity).
  assert (L : S (length pre) = length (pre ++ [x])) by (rewrite length_app; simpl; lia).
  destruct (p x); simpl.
  - rewrite nth_error_app2 by lia. rewrite Nat.sub_diag. simpl.
    f_equal. rewrite E, L. apply IH.
  - rewrite E, L. apply IH.
Qed.

Lemma take_rows_which {A : Type} (p : A -> bool) (l : list A) :
  take_rows l (which (map p l)) = filter p l.
Proof. exact (take_rows_which_from p l []). Qed.

Lemma take_rows_In {A : Type} (l : list A) (inds : list nat) (x : A) :
  In x (take_rows l inds) <-> exists i, In i inds /\ nth_error l i = Some x.
Proof.
  unfold take_rows. rewrite in_flat_map. split.
  - intros [i [Hi Hx]]. exists i. split; auto.
    destruct (nth_error l i); simpl in Hx; [destruct Hx as [->|[]]; auto | tauto].
  - intros [i [Hi Hx]]. exists i. split; auto. rewrite Hx. left; auto.
Qed.

Lemma take_rows_NoDup {A : Type} (l : list A) (inds : list nat) :
  NoDup l -> NoDup inds -> NoDup (take_rows l inds).
Proof.
  intros Hl. induction 1 as [|i inds Hi Hn IH]; simpl; [constructor|].
  destruct (nth_error l i) as [x|] eqn:E; simpl; auto.
  constructor; auto. rewrite take_rows_In. intros [j [Hj Ej]].
  assert (i = j); [|subst; auto].
  apply (proj1 (NoDup_nth_error l) Hl); [|congruence].
  apply nth_error_Some. congruence.
Qed.

Lemma set_union_nat_In (a b : list nat) (i : nat) :
  In i (set_union_nat a b) <-> In i a \/ In i b.
Proof.
  unfold set_union_nat. rewrite in_app_iff, filter_In, negb_true_iff. split.
  - tauto.
  - intros [H|H]; auto.
    destruct (existsb (Nat.eqb i) a) eqn:E; auto.
    apply existsb_exists in E. destruct E as [x [Hx E]].
    apply Nat.eqb_eq in E. subst. auto.
Qed.

Lemma set_union_nat_NoDup (a b : list nat) :
  NoDup a -> NoDup b -> NoDup (set_union_nat a b).
Proof.
  intros Ha Hb. unfold set_union_nat.
  apply NoDup_app; auto.
  - apply NoDup_filter; auto.
  - intros x Hx Hf. apply filter_In in Hf. destruct Hf as [_ Hf].
    apply negb_true_iff in Hf.
    assert (existsb (Nat.eqb x) a = true); [|congruence].
    apply existsb_exists. exists x. split; auto. apply Nat.eqb_refl.
Qed.

Lemma isin_In (x : Z) (l : list Z) : isin x l = true <-> In x l.
Proof.
  unfold isin. rewrite existsb_exists. split.
  - intros [y [Hy E]]. apply Z.eqb_eq in E. subst; auto.
  - intros H. exists x. split; auto. apply Z.eqb_refl.
Qed.

Lemma isin_false (x : Z) (l : list Z) : isin x l = false <-> ~ In x l.
Proof. rewrite <- isin_In. destruct (isin x l); split; congruence. Qed.

Lemma insert_sorted_perm (x : date) (l : list date) : Permutation (x :: l) (insert_sorted x l).
Proof.
  induction l as [|y l IH]; simpl; auto.
  destruct (x <=? y); auto.
  eapply perm_trans; [apply perm_swap|]. constructor. exact IH.
Qed.

Lemma sort_values_perm (l : list date) : Permutation l (sort_values l).
Proof.
  induction l as [|x l IH]; simpl; auto.
  eapply perm_trans; [|apply insert_sorted_perm]. constructor. exact IH.
Qed.

Lemma insert_sorted_sorted (x : date) (l : list date) :
  StronglySorted Z.le l -> StronglySorted Z.le (insert_sorted x l).
Proof.
  induction 1 as [|y l Hs IH Hy]; simpl.
  - repeat constructor.
  - destruct (Z.leb_spec x y).
    + constructor; [constructor; auto|]. constructor; auto.
      eapply Forall_impl; [|exact Hy]. simpl. intros; lia.
    + constructor; auto.
      eapply Permutation_Forall; [apply insert_sorted_perm|].
      constructor; auto. lia.
Qed.

Lemma sort_values_sorted (l : list date) : StronglySorted Z.le (sort_values l).
Proof.
  induction l as [|x l IH]; simpl; [constructor|].
  apply insert_sorted_sorted. exact IH.
Qed.

(** Ascending lists with the same elements are the same list. *)
Lemma sorted_perm_eq (l1 : list Z) : forall l2,
  StronglySorted Z.le l1 -> StronglySorted Z.le l2 -> Permutation l1 l2 -> l1 = l2.
Proof.
  induction l1 as [|x l1 IH]; intros l2 H1 H2 P.
  - apply Permutation_nil in P. auto.
  - destruct l2 as [|y l2]; [apply Permutation_sym, Permutation_nil in P; discriminate|].
    inversion H1 as [|? ? S1 F1]; inversion H2 as [|? ? S2 F2]; subst.
    assert (x = y).
    { assert (In x (y :: l2)) as Hx by (eapply Permutation_in; [exact P|left; auto]).
      assert (In y (x :: l1)) as Hy
          by (eapply Permutation_in; [apply Permutation_sym; exact P|left; auto]).
      rewrite Forall_forall in F1, F2.
      destruct Hx as [->|Hx]; auto. destruct Hy as [->|Hy]; auto.
      specialize (F1 _ Hy). specialize (F2 _ Hx). lia. }
    subst. f_equal. apply IH; auto. eapply Permutation_cons_inv; exact P.
Qed.

Lemma sort_values_id (l : list date) : StronglySorted Z.le l -> sort_values l = l.
Proof.
  intros H. apply sorted_perm_eq; auto using sort_values_sorted.
  apply Permutation_sym, sort_values_perm.
Qed.

Lemma date_range_In (s e d : date) : In d (date_range s e) <-> s <= d <= e.
Proof.
  unfold date_range. rewrite in_map_iff. split.
  - intros [i [<- Hi]]. apply in_seq in Hi. lia.
  - intros H. exists (Z.to_nat (d - s)). split; [lia|]. apply in_seq. lia.
Qed.

Lemma date_range_sorted (s e : date) : StronglySorted Z.lt (date_range s e).
Proof.
  unfold date_range. generalize (Z.to_nat (e - s + 1)) as n. generalize 0%nat as k.
  intros k n. revert k. induction n as [|n IH]; intros k; simpl; constructor; auto.
  apply Forall_forall. intros x Hx. apply in_map_iff in Hx.
  destruct Hx as [i [<- Hi]]. apply in_seq in Hi. lia.
Qed.

Lemma sorted_lt_le (l : list Z) : StronglySorted Z.lt l -> StronglySorted Z.le l.
Proof.
  induction 1; constructor; auto.
  eapply Forall_impl; [|eassumption]. simpl. intros; lia.
Qed.

Lemma sorted_lt_NoDup (l : list Z) : StronglySorted Z.lt l -> NoDup l.
Proof.
  induction 1 as [|x l Hs IH Hx]; constructor; auto.
  intros Hin. rewrite Forall_forall in Hx. specialize (Hx _ Hin). lia.
Qed.

Lemma sorted_filter (R : Z -> Z -> Prop) (p : Z -> bool) (l : list Z) :
  StronglySorted R l -> StronglySorted R (filter p l).
Proof.
  induction 1 as [|x l Hs IH Hx]; simpl; [constructor|].
  destruct (p x); auto. constructor; auto.
  apply Forall_forall. intros y Hy. apply filter_In in Hy.
  rewrite Forall_forall in Hx. apply Hx. tauto.
Qed.

End ListFacts.

(** ** Date Range Planner *)

Section PlannerFacts.

Lemma fold_min_spec (l : list Z) : forall x,
  let m := fold_left Z.min l x in
  In m (x :: l) /\ forall y, In y (x :: l) -> m <= y.
Proof.
  induction l as [|a l IH]; intros x; simpl.
  - split; auto. intros y [<-|[]]. lia.
  - destruct (IH (Z.min x a)) as [Hin Hle]. split.
    + destruct Hin as [E|Hin]; [|auto].
      rewrite <- E. destruct (Z.min_spec x a) as [[_ ->]|[_ ->]]; auto.
    + intros y Hy. assert (fold_left Z.min l (Z.min x a) <= Z.min x a) by (apply Hle; left; auto).
      destruct Hy as [<-|[<-|Hy]]; try lia. apply Hle. right; auto.
Qed.

Lemma fold_max_spec (l : list Z) : forall x,
  let m := fold_left Z.max l x in
  In m (x :: l) /\ forall y, In y (x :: l) -> y <= m.
Proof.
  induction l as [|a l IH]; intros x; simpl.
  - split; auto. intros y [<-|[]]. lia.
  - destruct (IH (Z.max x a)) as [Hin Hle]. split.
    + destruct Hin as [E|Hin]; [|auto].
      rewrite <- E. destruct (Z.max_spec x a) as [[_ ->]|[_ ->]]; auto.
    + intros y Hy. assert (Z.max x a <= fold_left Z.max l (Z.max x a)) by (apply Hle; left; auto).
      destruct Hy as [<-|[<-|Hy]]; try lia. apply Hle. right; auto.
Qed.

Lemma series_min_spec (l : list Z) (m : Z) :
  series_min l = Some m -> In m l /\ forall y, In y l -> m <= y.
Proof.
  destruct l as [|x l]; simpl; [discriminate|].
  intros E. injection E as <-. apply fold_min_spec.
Qed.

Lemma series_max_spec (l : list Z) (m : Z) :
  series_max l = Some m -> In m l /\ forall y, In y l -> y <= m.
Proof.
  destruct l as [|x l]; simpl; [discriminate|].
  intros E. injection E as <-. apply fold_max_spec.
Qed.

Lemma series_min_None (l : list Z) : series_min l = None <-> l = [].
Proof. destruct l; simpl; split; congruence. Qed.

Lemma series_max_None (l : list Z) : series_max l = None <-> l = [].
Proof. destruct l; simpl; split; congruence. Qed.

(** The positions kept in update mode: each once, and exactly those whose
    date some member has no record of. *)
Lemma datesToKeep_inds_spec (tmp : list date) (df : list TimeSeriesRow) (ids : list Z) :
  NoDup (Planner.datesToKeep_inds tmp df ids) /\
  forall i, In i (Planner.datesToKeep_inds tmp df ids) <->
            exists d id, nth_error tmp i = Some d /\ In id ids /\ ~ In d (dates_of df id).
Proof.
  unfold Planner.datesToKeep_inds.
  assert (G : forall (acc : list nat),
    NoDup acc ->
    let r := fold_left
      (fun inds id =>
         set_union_nat inds (which (map (fun d => negb (isin d (dates_of df id))) tmp)))
      ids acc in
    NoDup r /\
    forall i, In i r <->
      In i acc \/ exists d id, nth_error tmp i = Some d /\ In id ids /\ ~ In d (dates_of df id)).
  { induction ids as [|id ids IH]; intros acc Hacc; simpl.
    - split; auto. intros i. split; auto. intros [H|[d [id [_ [[] _]]]]]. exact H.
    - edestruct IH as [Hn Hi].
      { apply set_union_nat_NoDup; [exact Hacc | apply which_from_NoDup]. }
      split; [exact Hn|]. intros i. rewrite Hi. rewrite set_union_nat_In, which_In.
      rewrite nth_error_map. split.
      + intros [[H|H]|[d [id' [H1 [H2 H3]]]]]; auto.
        * destruct (nth_error tmp i) as [d|] eqn:E; simpl in H; [|discriminate].
          injection H as H. apply negb_true_iff, isin_false in H.
          right. exists d, id. auto.
        * right. exists d, id'. auto.
      + intros [H|[d [id' [H1 [[<-|H2] H3]]]]]; auto.
        * left. right. rewrite H1. simpl. f_equal. apply negb_true_iff, isin_false. exact H3.
        * right. exists d, id'. auto. }
  destruct (G [] (NoDup_nil _)) as [Hn Hi]. split; auto.
  intros i. rewrite Hi. simpl. tauto.
Qed.

(** In update mode the pending dates are the days of the span, in order,
    that at least one member has no record of. *)
Lemma dateList_update (s e : date) (df : list TimeSeriesRow) (ids : list Z) :
  Planner.dateList 3 (date_range s e) df ids =
  filter (fun d => existsb (fun id => negb (isin d (dates_of df id))) ids) (date_range s e).
Proof.
  unfold Planner.dateList. simpl.
  destruct (datesToKeep_inds_spec (date_range s e) df ids) as [Hn Hi].
  pose proof (date_range_sorted s e) as Hs.
  apply sorted_perm_eq.
  - apply sort_values_sorted.
  - apply sorted_lt_le, sorted_filter, Hs.
  - eapply perm_trans; [apply Permutation_sym, sort_values_perm|].
    apply NoDup_Permutation.
    + apply take_rows_NoDup; auto. apply sorted_lt_NoDup, Hs.
    + apply NoDup_filter, sorted_lt_NoDup, Hs.
    + intros d. rewrite take_rows_In, filter_In, existsb_exists. split.
      * intros [i [H1 H2]]. apply Hi in H1. destruct H1 as [d' [id [E [Hid Hd]]]].
        assert (d' = d) by congruence. subst d'. split; [eapply nth_error_In; eauto|].
        exists id. split; auto. apply negb_true_iff, isin_false. exact Hd.
      * intros [H1 [id [Hid Hd]]]. apply In_nth_error in H1. destruct H1 as [i E].
        exists i. split; auto. apply Hi. exists d, id. repeat split; auto.
        apply isin_false, negb_true_iff. exact Hd.
Qed.

Lemma dateList_overwrite (s e : date) (df : list TimeSeriesRow) (ids : list Z) :
  Planner.dateList 4 (date_range s e) df ids = date_range s e.
Proof.
  unfold Planner.dateList. simpl. apply sort_values_id, sorted_lt_le, date_range_sorted.
Qed.

(** C7 (as amended): the span of a group starts at the earliest of the
    members' start dates, raised to the product's first day when the
    product declares one, and ends at the latest of the members' end dates. *)
Theorem span_from_earliest_start (c s0 e0 : date) (starts ends : list date) :
  exists m M,
    In m (s0 :: starts) /\ (forall x, In x (s0 :: starts) -> m <= x) /\
    In M (e0 :: ends) /\ (forall x, In x (e0 :: ends) -> x <= M) /\
    Planner.startDate (Some c) (s0 :: starts) = Some (Z.max m c) /\
    Planner.startDate None (s0 :: starts) = Some m /\
    Planner.endDate (e0 :: ends) = Some M.
Proof.
  exists (fold_left Z.min starts s0), (fold_left Z.max ends e0).
  destruct (fold_min_spec starts s0) as [H1 H2].
  destruct (fold_max_spec ends e0) as [H3 H4].
  repeat split; auto.
Qed.

(** C7, the claim as worded fails: with member start dates 10 and 20 and a
    product available from day 5 the span starts on day 10, not on the
    latest start date 20. *)
Lemma span_start_not_latest :
  Planner.startDate (Some 5) [10; 20] = Some 10 /\
  Planner.startDate (Some 5) [10; 20] <> Planner.spec_startDate 5 [10; 20].
Proof. split; [reflexivity | discriminate]. Qed.

Lemma dateList_update_In (s e : date) (df : list TimeSeriesRow) (ids : list Z) (d : date) :
  In d (Planner.dateList 3 (date_range s e) df ids) <->
  s <= d <= e /\ exists id, In id ids /\ ~ In d (dates_of df id).
Proof.
  rewrite dateList_update, filter_In, date_range_In, existsb_exists.
  split; intros [H [id [Hid Hd]]]; split; auto; exists id; split; auto.
  - apply negb_true_iff, isin_false in Hd. exact Hd.
  - apply negb_true_iff, isin_false. exact Hd.
Qed.

(** C2 (as amended): in update mode the pending dates of a group are the
    days of its span, in ascending order, for which at least one member has
    no TimeSeries record; a day is left out only when every member has a
    record of it. *)
Theorem pending_dates_update (s e : date) (df : list TimeSeriesRow) (ids : list Z) :
  Planner.dateList 3 (date_range s e) df ids =
    filter (fun d => existsb (fun id => negb (isin d (dates_of df id))) ids) (date_range s e)
  /\ forall d, In d (Planner.dateList 3 (date_range s e) df ids) <->
               s <= d <= e /\ exists id, In id ids /\ ~ In d (dates_of df id).
Proof.
  split; [apply dateList_update|]. intros d. apply dateList_update_In.
Qed.

(** C2, the claim as worded fails: members 1 and 2 share a span of days 1
    and 2, member 1 has a record of day 1 and member 2 has none; day 1 is
    pending again, where the claim leaves only day 2. *)
Lemma pending_dates_not_any_member :
  let df := [{| TIMESERIESID := 1; TIMESERIESDEMANDID := 1; TIMESERIESDATE := 1 |}] in
  Planner.dateList 3 (date_range 1 2) df [1; 2] = [1; 2] /\
  Planner.spec_pending (date_range 1 2) df [1; 2] = [2] /\
  Planner.dateList 3 (date_range 1 2) df [1; 2] <> Planner.spec_pending (date_range 1 2) df [1; 2].
Proof. repeat split. discriminate. Qed.

End PlannerFacts.

(** ** Batch Scheduler *)

Section SchedulerFacts.

Lemma fill_group_split (n : Z) (f : list date) (rest : list date) : forall k g r,
  Scheduler.fill_group n f k rest = (g, r) -> rest = g ++ r.
Proof.
  induction rest as [|d rest IH]; intros k g r; simpl.
  - intros E. injection E as <- <-. reflexivity.
  - destruct (k <? n).
    + destruct (Scheduler.fill_group n f (if isin d f then k + 1 else k) rest) as [g' r'] eqn:E.
      intros E'. injection E' as <- <-. simpl. f_equal. eapply IH; eauto.
    + intros E. injection E as <- <-. reflexivity.
Qed.

(** A group stops at [n] counted dates, or at the end of the list. *)
Lemma fill_group_count (n : Z) (f : list date) (rest : list date) : forall k g r,
  k <= n ->
  Scheduler.fill_group n f k rest = (g, r) ->
  k + Z.of_nat (n_available f g) <= n /\
  (r = [] \/ k + Z.of_nat (n_available f g) = n).
Proof.
  unfold n_available.
  induction rest as [|d rest IH]; intros k g r Hk; simpl.
  - intros E. injection E as <- <-. simpl. split; [lia|auto].
  - destruct (Z.ltb_spec k n).
    + destruct (Scheduler.fill_group n f (if isin d f then k + 1 else k) rest) as [g' r'] eqn:E.
      intros E'. injection E' as <- <-. simpl.
      destruct (isin d f); simpl; apply IH in E; try lia;
        destruct E as [E1 E2]; (split; [lia|destruct E2; [auto|right; lia]]).
    + intros E. injection E as <- <-. simpl. split; [lia|right; lia].
Qed.

(** A group takes at least one date when any is left and [n] is positive. *)
Lemma fill_group_nonempty (n : Z) (f : list date) (rest : list date) (g r : list date) :
  0 < n -> rest <> [] -> Scheduler.fill_group n f 0 rest = (g, r) -> g <> [].
Proof.
  intros Hn Hr. destruct rest as [|d rest]; [congruence|]. simpl.
  destruct (Z.ltb_spec 0 n); [|lia].
  destruct (Scheduler.fill_group n f _ rest).
  intros E. injection E as <- <-. discriminate.
Qed.

Lemma n_available_app (f a b : list date) :
  n_available f (a ++ b) = (n_available f a + n_available f b)%nat.
Proof. unfold n_available. rewrite filter_app, length_app. reflexivity. Qed.

(** The groups are consecutive slices of the date list, none with more
    than [n] counted dates; what they leave out has no counted date once
    there are enough groups. *)
Lemma make_groups_spec (n : Z) (f : list date) (ng : nat) : forall rest,
  0 <= n ->
  exists r,
    rest = concat (Scheduler.make_groups ng n f rest) ++ r /\
    Forall (fun g => Z.of_nat (n_available f g) <= n) (Scheduler.make_groups ng n f rest) /\
    (r = [] \/
     Z.of_nat (n_available f (concat (Scheduler.make_groups ng n f rest))) = Z.of_nat ng * n).
Proof.
  induction ng as [|ng IH]; intros rest Hn; simpl Scheduler.make_groups.
  - exists rest. simpl. repeat split; auto.
  - destruct (Scheduler.fill_group n f 0 rest) as [g r0] eqn:E.
    pose proof (fill_group_split _ _ _ _ _ _ E) as Hs.
    destruct (fill_group_count _ _ _ _ _ _ Hn E) as [Hc He].
    destruct (IH r0 Hn) as [r [H1 [H2 H3]]].
    exists r. cbn [concat]. rewrite <- app_assoc, <- H1. split; [exact Hs|split].
    + constructor; auto; lia.
    + destruct H3 as [H3|H3]; auto.
      destruct He as [He|He].
      * subst r0. left. destruct (concat (Scheduler.make_groups ng n f [])); simpl in H1;
          [auto | discriminate].
      * right. rewrite n_available_app. nia.
Qed.

Lemma make_groups_nonempty (n : Z) (f : list date) (ng : nat) : forall rest g,
  0 < n ->
  Z.of_nat ng * n < Z.of_nat (n_available f rest) + n ->
  In g (Scheduler.make_groups ng n f rest) -> g <> [].
Proof.
  induction ng as [|ng IH]; intros rest g Hn Hc; simpl; [tauto|].
  destruct (Scheduler.fill_group n f 0 rest) as [g0 r0] eqn:E.
  assert (Hrest : rest <> []).
  { intros ->. change (n_available f []) with 0%nat in Hc. nia. }
  intros [<-|Hin].
  - eapply fill_group_nonempty; eauto.
  - pose proof (fill_group_split _ _ _ _ _ _ E) as Hs.
    destruct (fill_group_count n f rest 0 g0 r0 ltac:(lia) E) as [Hc1 Hc2].
    destruct ng as [|ng']; [simpl in Hin; tauto|].
    eapply (IH r0); eauto.
    subst rest. rewrite n_available_app in Hc.
    rewrite Nat2Z.inj_succ in Hc.
    destruct Hc2 as [->|Hc2]; [|nia].
    exfalso. change (n_available f []) with 0%nat in Hc. nia.
Qed.

Lemma n_available_filtered (dateList availableDates g : list date) :
  incl g dateList ->
  n_available (Scheduler.filteredDateList dateList availableDates) g
  = n_available availableDates g.
Proof.
  intros Hg. unfold n_available. f_equal. apply filter_ext_in. intros d Hd.
  unfold Scheduler.filteredDateList.
  destruct (isin d availableDates) eqn:E.
  - apply isin_In. apply filter_In. split; auto.
  - apply isin_false. intros H. apply filter_In in H. destruct H. congruence.
Qed.

Lemma filtered_length (dateList availableDates : list date) :
  length (Scheduler.filteredDateList dateList availableDates)
  = n_available availableDates dateList.
Proof. reflexivity. Qed.

Lemma ceil_div_bound (a b : Z) : 0 < b -> a <= Scheduler.ceil_div a b * b < a + b.
Proof.
  intros Hb. unfold Scheduler.ceil_div.
  pose proof (Z.div_mod (- a) b ltac:(lia)).
  pose proof (Z.mod_pos_bound (- a) b Hb). nia.
Qed.

(** What [groups] returns, spelled out. *)
Lemma groups_Some (P : Q) (algo : Z) (dateList availableDates : list date) (gs : list (list date)) :
  Scheduler.groups P algo dateList availableDates = Some gs ->
  exists cap,
    (Scheduler.filteredDateList dateList availableDates = [] /\ gs = [] \/
     Scheduler.nSimImgs_of algo = Some cap /\ Scheduler.nSimImgs P cap <> 0 /\
     gs = Scheduler.make_groups
            (Z.to_nat (Scheduler.ceil_div
                         (Z.of_nat (length (Scheduler.filteredDateList dateList availableDates)))
                         (Scheduler.nSimImgs P cap)))
            (Scheduler.nSimImgs P cap)
            (Scheduler.filteredDateList dateList availableDates) dateList).
Proof.
  unfold Scheduler.groups.
  destruct (Scheduler.filteredDateList dateList availableDates) as [|d0 fl] eqn:Ef.
  - simpl. intros E. injection E as <-. exists 0. left. auto.
  - simpl length. simpl Nat.eqb. cbv iota.
    destruct (Qeq_bool P 0); [discriminate|].
    destruct (Scheduler.nSimImgs_of algo) as [cap|]; [|discriminate].
    destruct (Z.eqb_spec (Scheduler.nSimImgs P cap) 0); [discriminate|].
    intros E. injection E as <-. exists cap. right. auto.
Qed.

(** The batches are consecutive slices of the pending dates. *)
Lemma groups_slices (P : Q) (algo : Z) (dateList availableDates : list date) (gs : list (list date)) :
  Scheduler.groups P algo dateList availableDates = Some gs ->
  exists r, dateList = concat gs ++ r.
Proof.
  intros E. apply groups_Some in E. destruct E as [cap [[_ ->]|[_ [Hn ->]]]].
  - exists dateList. reflexivity.
  - set (n := Scheduler.nSimImgs P cap) in *.
    destruct (Z.lt_ge_cases n 0) as [Hneg|Hpos].
    + assert (E0 : Z.to_nat (Scheduler.ceil_div
                (Z.of_nat (length (Scheduler.filteredDateList dateList availableDates))) n) = 0%nat).
      { unfold Scheduler.ceil_div.
        assert (0 <= - Z.of_nat (length (Scheduler.filteredDateList dateList availableDates)) / n).
        { pose proof (Z.div_mod (- Z.of_nat (length (Scheduler.filteredDateList dateList availableDates))) n ltac:(lia)).
          pose proof (Z.mod_neg_bound (- Z.of_nat (length (Scheduler.filteredDateList dateList availableDates))) n Hneg).
          nia. }
        lia. }
      rewrite E0. exists dateList. reflexivity.
    + destruct (make_groups_spec n (Scheduler.filteredDateList dateList availableDates)
                  (Z.to_nat (Scheduler.ceil_div
                     (Z.of_nat (length (Scheduler.filteredDateList dateList availableDates))) n))
                  dateList Hpos) as [r [H _]].
      exists r. exact H.
Qed.

End SchedulerFacts.

Section BatchBound.

Lemma groups_incl (P : Q) (algo : Z) (dateList availableDates : list date)
    (gs : list (list date)) (g : list date) :
  Scheduler.groups P algo dateList availableDates = Some gs -> In g gs -> incl g dateList.
Proof.
  intros E Hg. destruct (groups_slices _ _ _ _ _ E) as [r ->].
  intros d Hd. apply in_or_app. left. apply in_concat. exists g. auto.
Qed.

(** C4: no batch holds more dates with imagery than the smaller of
    ceil(max_n_proc_pixels / P) and the algorithm's cap, and a batch may
    well hold more calendar dates than that: with 50000 pixels and a cap
    of 40 the bound is 1, and the days 1 to 3, of which only day 3 has
    imagery, form one batch. *)
Theorem batch_size_bound :
  (forall (P : Q) (algo cap : Z) (dateList availableDates : list date)
          (gs : list (list date)) (g : list date),
      Scheduler.nSimImgs_of algo = Some cap ->
      Scheduler.groups P algo dateList availableDates = Some gs ->
      In g gs ->
      Z.of_nat (n_available availableDates g)
      <= Z.min (Qceiling (inject_Z Scheduler.max_n_proc_pixels / P)) cap)
  /\ (Scheduler.nSimImgs_of 2 = Some 40 /\
      Scheduler.groups (50000 # 1) 2 [1; 2; 3] [3] = Some [[1; 2; 3]] /\
      Z.min (Qceiling (inject_Z Scheduler.max_n_proc_pixels / (50000 # 1))) 40
      < Z.of_nat (length [1; 2; 3])).
Proof.
  split.
  - intros P algo cap dateList availableDates gs g Hcap E Hg.
    pose proof (groups_incl _ _ _ _ _ _ E Hg) as Hincl.
    apply groups_Some in E. destruct E as [cap' [[_ ->]|[Hcap' [Hn ->]]]]; [destruct Hg|].
    assert (cap' = cap) by congruence. subst cap'.
    change (Z.min (Qceiling (inject_Z Scheduler.max_n_proc_pixels / P)) cap)
      with (Scheduler.nSimImgs P cap).
    set (n := Scheduler.nSimImgs P cap) in *.
    set (f := Scheduler.filteredDateList dateList availableDates) in *.
    destruct (Z.lt_ge_cases n 0) as [Hneg|Hpos].
    + assert (E0 : Z.to_nat (Scheduler.ceil_div (Z.of_nat (length f)) n) = 0%nat).
      { unfold Scheduler.ceil_div.
        pose proof (Z.div_mod (- Z.of_nat (length f)) n ltac:(lia)).
        pose proof (Z.mod_neg_bound (- Z.of_nat (length f)) n Hneg). nia. }
      rewrite E0 in Hg. destruct Hg.
    + destruct (make_groups_spec n f
                  (Z.to_nat (Scheduler.ceil_div (Z.of_nat (length f)) n)) dateList Hpos)
        as [r [_ [HF _]]].
      rewrite Forall_forall in HF. specialize (HF g Hg).
      unfold f in HF. rewrite n_available_filtered in HF; auto.
  - repeat split.
Qed.

Lemma batch_size_bound_witness :
  Z.of_nat (n_available [3] [1; 2; 3])
  <= Z.min (Qceiling (inject_Z Scheduler.max_n_proc_pixels / (50000 # 1))) 40.
Proof.
  apply (proj1 batch_size_bound (50000 # 1)%Q 2 40 [1; 2; 3] [3] [[1; 2; 3]] [1; 2; 3]).
  - reflexivity.
  - reflexivity.
  - left. reflexivity.
Defined.

(** The scenario of the specification: 50000 pixels against the 25000
    allowed and a cap of 40 give batches of one image. *)
Example batch_of_one : Scheduler.nSimImgs (50000 # 1) 40 = 1.
Proof. reflexivity. Qed.

End BatchBound.

(** ** Retrieval Executor *)

Section ExecutorFacts.

Import Executor.

Lemma whole_batch_requests_app (a b : list event) :
  whole_batch_requests (a ++ b) = (whole_batch_requests a + whole_batch_requests b)%nat.
Proof. unfold whole_batch_requests. rewrite filter_app, length_app. reflexivity. Qed.

Lemma one_date_requests_app (a b : list event) :
  one_date_requests (a ++ b) = (one_date_requests a + one_date_requests b)%nat.
Proof. unfold one_date_requests. rewrite filter_app, length_app. reflexivity. Qed.

(** The fallback asks once for each date, in order, and for nothing else. *)
Lemma one_by_one_events (p : provider) (dates : list date) : forall l,
  events (one_by_one p dates l)
  = events l ++ map (fun d => OneDate d (tileScale l)) dates
  /\ tileScale (one_by_one p dates l) = tileScale l.
Proof.
  unfold one_by_one. induction dates as [|d dates IH]; intros l; simpl.
  - rewrite app_nil_r. auto.
  - destruct (getInfo_date p (events l) d (tileScale l));
      match goal with |- context [fold_left ?f dates ?l0] => destruct (IH l0) as [E1 E2] end;
      rewrite E1, E2; simpl; rewrite <- app_assoc; auto.
Qed.

Lemma one_by_one_all_fail (p : provider) (dates : list date) : forall l,
  (forall ev d ts, getInfo_date p ev d ts = None) ->
  successful (one_by_one p dates l) = successful l /\
  result (one_by_one p dates l) = result l.
Proof.
  unfold one_by_one. induction dates as [|d dates IH]; intros l H; simpl; auto.
  rewrite H. destruct (IH {| successful := successful l; timeoutcounts := timeoutcounts l;
                             tileScale := tileScale l; result := result l;
                             events := events l ++ [OneDate d (tileScale l)] |} H) as [E1 E2].
  rewrite E1, E2. auto.
Qed.

Lemma map_one_date_counts (ts : Z) (dates : list date) :
  whole_batch_requests (map (fun d => OneDate d ts) dates) = 0%nat /\
  one_date_requests (map (fun d => OneDate d ts) dates) = length dates.
Proof.
  unfold whole_batch_requests, one_date_requests.
  induction dates as [|d dates [IH1 IH2]]; simpl; auto.
Qed.

Lemma whole_batch_requests_one (e : event) :
  whole_batch_requests [e] = if is_whole_batch e then 1%nat else 0%nat.
Proof. unfold whole_batch_requests. simpl. destruct (is_whole_batch e); reflexivity. Qed.

Lemma one_date_requests_one (e : event) :
  one_date_requests [e] = if is_one_date e then 1%nat else 0%nat.
Proof. unfold one_date_requests. simpl. destruct (is_one_date e); reflexivity. Qed.

Ltac count_requests :=
  cbn [events] in *;
  rewrite ?whole_batch_requests_app, ?one_date_requests_app,
          ?whole_batch_requests_one, ?one_date_requests_one in *;
  cbn [is_whole_batch is_one_date] in *.

(** Whatever the provider answers, the loop asks for the whole batch at
    most once per turn, and for single dates only in one fallback over a
    list of dates the provider gave. *)
Lemma attempts_requests (p : provider) (cs : list Z) : forall l,
  exists dates,
    (dates = [] \/ exists ev, dates = getInfo_dates p ev) /\
    (whole_batch_requests (events (attempts p cs l))
     <= whole_batch_requests (events l) + length cs)%nat /\
    one_date_requests (events (attempts p cs l))
    = (one_date_requests (events l) + length dates)%nat.
Proof.
  induction cs as [|c cs IH]; intros l; cbn [attempts length].
  - exists []. simpl. split; auto. lia.
  - destruct (getInfo_batch p (events l) (tileScale l)) as [[| |]|r].
    + destruct (timeoutcounts l + 1 >=? 2).
      * destruct (1 <? length (getInfo_dates p (events l ++ [WholeBatch (tileScale l)])))%nat.
        -- match goal with |- context [one_by_one p ?d ?l0] =>
             destruct (one_by_one_events p d l0) as [E _]; rewrite E;
             exists d end.
           cbn [tileScale].
           destruct (map_one_date_counts (tileScale l)
                     (getInfo_dates p (events l ++ [WholeBatch (tileScale l)]))) as [W O].
           count_requests. rewrite W, O.
           split; [right; eexists; reflexivity|]. lia.
        -- match goal with |- context [attempts p cs ?l0] =>
             destruct (IH l0) as [dates [Hd [Hw Ho]]] end.
           exists dates. count_requests. split; auto. lia.
      * match goal with |- context [attempts p cs ?l0] =>
          destruct (IH l0) as [dates [Hd [Hw Ho]]] end.
        exists dates. count_requests. split; auto. lia.
    + match goal with |- context [attempts p cs ?l0] =>
        destruct (IH l0) as [dates [Hd [Hw Ho]]] end.
      exists dates. count_requests. split; auto. lia.
    + match goal with |- context [attempts p cs ?l0] =>
        destruct (IH l0) as [dates [Hd [Hw Ho]]] end.
      exists dates. destruct (c <? 2); count_requests; (split; auto; lia).
    + exists []. count_requests. simpl. split; auto. lia.
Qed.

(** Against a provider that always times out and reports the dates
    [dates] of the collection. *)
Lemma always_timeout_events (p : provider) (dates : list date) :
  always_times_out p ->
  (forall ev, getInfo_dates p ev = dates) ->
  events (retry_loop p)
  = (if (1 <? length dates)%nat
     then [WholeBatch 1; WholeBatch 1; ImgDates] ++ map (fun d => OneDate d 1) dates
     else [WholeBatch 1; WholeBatch 1; ImgDates; WholeBatch 1; ImgDates])
  /\ successful (retry_loop p) = false.
Proof.
  intros [Hb Hd] Hdates. unfold retry_loop, start.
  cbn [attempts events tileScale timeoutcounts successful result].
  rewrite Hb. cbn [Z.add Z.geb Z.compare Pos.add Pos.compare Pos.compare_cont
                   events tileScale timeoutcounts successful result app].
  change (0 + 1 >=? 2) with false. cbv iota.
  cbn [attempts events tileScale timeoutcounts successful result].
  rewrite Hb. change (0 + 1 + 1 >=? 2) with true. cbv iota. rewrite Hdates.
  destruct (1 <? length dates)%nat eqn:E1.
  - match goal with |- context [one_by_one p dates ?l0] =>
      destruct (one_by_one_events p dates l0) as [E _];
      destruct (one_by_one_all_fail p dates l0 Hd) as [S _] end.
    rewrite E, S. simpl. auto.
  - cbn [attempts events tileScale timeoutcounts successful result].
    rewrite Hb. change (0 + 1 + 1 + 1 >=? 2) with true. cbv iota. rewrite Hdates, E1.
    simpl. auto.
Qed.

End ExecutorFacts.

Section RetryBound.

Import Executor.

(** C5 (as amended): the loop asks for the whole batch at most 3 times,
    and its requests for a result never exceed 3 plus the dates of one list
    the provider gave.  Against a provider that always times out, a
    collection of more than one date gets two whole-batch attempts, then
    one fallback of one request per date, and nothing after it; a
    collection of at most one date gets no fallback and a third
    whole-batch attempt.  Either way nothing is returned. *)
Theorem retry_bound :
  (forall p, (whole_batch_requests (events (retry_loop p)) <= 3)%nat) /\
  (forall p, exists dates,
      (dates = [] \/ exists ev, dates = getInfo_dates p ev) /\
      (result_requests (events (retry_loop p)) <= 3 + length dates)%nat) /\
  (forall p dates,
      always_times_out p ->
      (forall ev, getInfo_dates p ev = dates) ->
      (forall reducer sufix reducedBands,
          reducer <> 0 -> fst (reduction reducer sufix reducedBands p) = NoResult) /\
      ((1 < length dates)%nat ->
         events (retry_loop p)
         = [WholeBatch 1; WholeBatch 1; ImgDates] ++ map (fun d => OneDate d 1) dates /\
         result_requests (events (retry_loop p)) = (2 + length dates)%nat) /\
      ((length dates <= 1)%nat ->
         events (retry_loop p)
         = [WholeBatch 1; WholeBatch 1; ImgDates; WholeBatch 1; ImgDates] /\
         result_requests (events (retry_loop p)) = 3%nat)).
Proof.
  split; [|split].
  - intros p. destruct (attempts_requests p [0; 1; 2] start) as [dates [_ [H _]]].
    exact H.
  - intros p. destruct (attempts_requests p [0; 1; 2] start) as [dates [Hd [Hw Ho]]].
    exists dates. split; auto. unfold result_requests, retry_loop.
    change (whole_batch_requests (events start)) with 0%nat in Hw.
    change (one_date_requests (events start)) with 0%nat in Ho.
    simpl length in Hw. lia.
  - intros p dates Hp Hdates.
    destruct (always_timeout_events p dates Hp Hdates) as [E S].
    split; [|split].
    + intros reducer sufix reducedBands Hr. unfold reduction.
      destruct (Z.eqb_spec reducer 0); [contradiction|]. rewrite S. reflexivity.
    + intros Hlen. apply Nat.ltb_lt in Hlen. rewrite Hlen in E. split; auto.
      rewrite E. unfold result_requests.
      destruct (map_one_date_counts 1 dates) as [W O].
      rewrite whole_batch_requests_app, one_date_requests_app, W, O. reflexivity.
    + intros Hlen. apply Nat.ltb_ge in Hlen. rewrite Hlen in E. split; auto.
      rewrite E. reflexivity.
Qed.

Lemma retry_bound_witness :
  events (retry_loop (timing_out [1; 2]))
  = [WholeBatch 1; WholeBatch 1; ImgDates; OneDate 1 1; OneDate 2 1].
Proof.
  refine (proj1 (proj1 (proj2 (proj2 (proj2 retry_bound) (timing_out [1; 2]) [1; 2] _ _)) _)).
  - split; intros; reflexivity.
  - intros; reflexivity.
  - simpl. lia.
Defined.

(** C5, the claim as worded fails: when the collection holds the single
    day 7 and every request times out, the whole batch is asked for three
    times and day 7 is never asked for on its own: no fallback takes
    place. *)
Lemma timeout_single_date_no_fallback :
  always_times_out (timing_out [7]) /\
  events (retry_loop (timing_out [7]))
  = [WholeBatch 1; WholeBatch 1; ImgDates; WholeBatch 1; ImgDates] /\
  whole_batch_requests (events (retry_loop (timing_out [7]))) = 3%nat /\
  one_date_requests (events (retry_loop (timing_out [7]))) = 0%nat /\
  ~ spec_timeout_requests (timing_out [7]) [7].
Proof.
  split; [split; intros; reflexivity|]. repeat (split; [reflexivity|]).
  intros [H _]. vm_compute in H. discriminate.
Qed.

End RetryBound.

(** ** Persistence Writer *)

Section WriterFacts.

Import Writer.

Lemma which_from_length (l : list bool) : forall k,
  length (which_from k l) = length (filter (fun b => b) l).
Proof. induction l as [|b l IH]; intros k; simpl; auto. destruct b; simpl; auto. Qed.

Lemma which_map_length {A : Type} (p : A -> bool) (l : list A) :
  length (which (map p l)) = length (filter p l).
Proof.
  unfold which. rewrite which_from_length.
  induction l as [|x l IH]; simpl; auto. destruct (p x); simpl; auto.
Qed.

Lemma sameDate_rows_records (df : list TimeSeriesRow) (d : date) (id : Z) :
  take_rows df (sameDate_rows df d id) = records_of df id d /\
  length (sameDate_rows df d id) = length (records_of df id d).
Proof.
  unfold sameDate_rows, records_of. split.
  - apply (take_rows_which (is_record id d)).
  - apply (which_map_length (is_record id d)).
Qed.

Lemma same_records_refl (s : State) : same_records s s.
Proof. repeat split. Qed.

Lemma same_records_trans (s1 s2 s3 : State) :
  same_records s1 s2 -> same_records s2 s3 -> same_records s1 s3.
Proof.
  unfold same_records. intros (A1 & A2 & A3 & A4 & A5 & A6 & A7) (B1 & B2 & B3 & B4 & B5 & B6 & B7).
  repeat split; congruence.
Qed.

Lemma resolve_stats_frame (s : State) (stats : string) :
  same_records s (fst (resolve_stats s stats)) /\ DATA (fst (resolve_stats s stats)) = DATA s.
Proof.
  unfold resolve_stats. destruct (last_id (statsDF s) stats); simpl; repeat split.
Qed.

Lemma resolve_var_frame (s : State) (varName : string) :
  same_records s (fst (resolve_var s varName)) /\ DATA (fst (resolve_var s varName)) = DATA s.
Proof.
  unfold resolve_var. destruct (last_id (varDF s) varName); simpl; repeat split.
Qed.

(** Saving one value adds one data row under the current record id and
    with the value as returned. *)
Lemma save_value_spec (ev : list string) (t : value) (s : State) (kv : string * value) :
  same_records s (save_value ev t s kv) /\
  match currTimeSeriesId s with
  | Some ts => exists r, DATA (save_value ev t s kv) = DATA s ++ [r] /\
                         DATATIMESERIESID r = ts /\ DATAVALUE r = snd kv /\ DATATIME r = t
  | None => DATA (save_value ev t s kv) = DATA s
  end.
Proof.
  unfold save_value. destruct (split_var ev (fst kv)) as [stats varName].
  pose proof (resolve_stats_frame s stats) as [F1 D1].
  destruct (resolve_stats s stats) as [s1 statsId]. simpl in F1, D1.
  pose proof (resolve_var_frame s1 varName) as [F2 D2].
  destruct (resolve_var s1 varName) as [s2 varId]. simpl in F2, D2.
  pose proof (same_records_trans _ _ _ F1 F2) as F.
  assert (C : currTimeSeriesId s2 = currTimeSeriesId s) by apply F.
  rewrite C. destruct (currTimeSeriesId s) as [ts|].
  - split.
    + destruct F as (A1 & A2 & A3 & A4 & A5 & A6 & A7). repeat split; simpl; auto.
    + eexists. simpl. rewrite D2, D1. split; [reflexivity|]. simpl. auto.
  - split; auto. congruence.
Qed.

Lemma save_value_fold (ev : list string) (t : value) (vs : values_t) : forall s,
  let s' := fold_left (save_value ev t) vs s in
  same_records s s' /\
  match currTimeSeriesId s with
  | Some ts => exists rows, DATA s' = DATA s ++ rows /\
                            Forall (fun r => DATATIMESERIESID r = ts) rows /\
                            map DATAVALUE rows = map snd vs /\
                            Forall (fun r => DATATIME r = t) rows
  | None => DATA s' = DATA s
  end.
Proof.
  induction vs as [|kv vs IH]; intros s; simpl.
  - split; [apply same_records_refl|]. destruct (currTimeSeriesId s); auto.
    exists []. rewrite app_nil_r. auto.
  - destruct (save_value_spec ev t s kv) as [F1 D1].
    destruct (IH (save_value ev t s kv)) as [F2 D2].
    split; [eapply same_records_trans; eauto|].
    assert (C : currTimeSeriesId (save_value ev t s kv) = currTimeSeriesId s) by apply F1.
    rewrite C in D2. destruct (currTimeSeriesId s) as [ts|].
    + destruct D1 as [r [E1 [E2 [E3 E4]]]]. destruct D2 as [rows [E5 [E6 [E7 E8]]]].
      exists (r :: rows). rewrite E5, E1, <- app_assoc. simpl.
      repeat split; auto. congruence.
    + congruence.
Qed.

Lemma in_result_get (d : date) (result : result_t) :
  in_result d result = true <-> exists vs, result_get result d = Some vs.
Proof.
  unfold in_result. induction result as [|[k v] result IH]; simpl.
  - split; [discriminate|]. intros [vs H]. discriminate.
  - rewrite Z.eqb_sym. destruct (k =? d); simpl.
    + split; eauto.
    + exact IH.
Qed.

Lemma result_set_keys (result : result_t) (d : date) (vs : values_t) :
  in_result d result = true -> map fst (result_set result d vs) = map fst result.
Proof.
  unfold in_result. induction result as [|[k v] result IH]; simpl; [discriminate|].
  rewrite Z.eqb_sym. destruct (k =? d) eqn:E; simpl; auto.
  intros H. f_equal. auto.
Qed.

(** The values of a date go under the current record id; the result keeps
    its dates. *)
Lemma save_values_spec (ev : list string) (result : result_t) (s : State) (d : date) :
  let s' := fst (save_values ev result s d) in
  let result' := snd (save_values ev result s d) in
  same_records s s' /\
  map fst result' = map fst result /\
  match currTimeSeriesId s with
  | Some ts => exists rows, DATA s' = DATA s ++ rows /\
                            Forall (fun r => DATATIMESERIESID r = ts) rows /\
                            map DATAVALUE rows = map snd (saved_values result d)
  | None => DATA s' = DATA s
  end.
Proof.
  unfold save_values, saved_values.
  destruct (in_result d result) eqn:Hin.
  - destruct (proj1 (in_result_get d result) Hin) as [vs Hvs]. rewrite Hvs.
    assert (P : values_get vs "img_time" = None -> values_pop vs "img_time" = vs).
    { clear. unfold values_pop. induction vs as [|[k v] vs IH]; simpl; auto.
      destruct (String.eqb k "img_time"); simpl; [discriminate|].
      intros H. f_equal. auto. }
    destruct (values_get vs "img_time") as [t|] eqn:Et; simpl.
    + destruct (save_value_fold ev t (values_pop vs "img_time") s) as [F D].
      split; auto. split; [apply result_set_keys; auto|].
      destruct (currTimeSeriesId s); auto.
      destruct D as [rows [E1 [E2 [E3 _]]]]. exists rows. auto.
    + destruct (save_value_fold ev (Str "00:00") vs s) as [F D].
      split; auto. split; [apply result_set_keys; auto|].
      rewrite (P eq_refl).
      destruct (currTimeSeriesId s); auto.
      destruct D as [rows [E1 [E2 [E3 _]]]]. exists rows. auto.
  - simpl. split; [apply same_records_refl|]. split; auto.
    destruct (result_get result d) as [vs|] eqn:Hvs.
    + assert (in_result d result = true) by (apply in_result_get; eauto). congruence.
    + destruct (currTimeSeriesId s); auto. exists []. rewrite app_nil_r. auto.
Qed.

(** The three ways a date is opened for a member: a new record, the
    record on file, or nothing. *)
Lemma open_record_cases (mode earliest latest m : Z) (result : result_t) (s : State) (d : date) :
  let recs := records_of (timeSeriesDF s) m d in
  let s' := open_record mode earliest latest m result s d in
  (recs = [] /\ (in_result d result = true \/ earliest < d < latest) /\
   s' = add_timeseries {| TIMESERIESID := lastTimeSeriesId s + 1; TIMESERIESDEMANDID := m;
                          TIMESERIESDATE := d |}
          (set_currTimeSeriesId (Some (lastTimeSeriesId s + 1))
             (set_lastTimeSeriesId (lastTimeSeriesId s + 1) s)))
  \/ (recs <> [] /\
      s' = (if mode =? 4
            then delete_data (last (map TIMESERIESID recs) 0)
                   (set_currTimeSeriesId (Some (last (map TIMESERIESID recs) 0)) s)
            else set_currTimeSeriesId (Some (last (map TIMESERIESID recs) 0)) s))
  \/ (recs = [] /\ in_result d result = false /\ ~ earliest < d < latest /\ s' = s).
Proof.
  intros recs s'. subst recs s'. unfold open_record.
  destruct (sameDate_rows_records (timeSeriesDF s) d m) as [E1 E2].
  rewrite E1, E2.
  destruct (records_of (timeSeriesDF s) m d) as [|r recs] eqn:Er; simpl length.
  - simpl Nat.eqb. simpl Nat.ltb. rewrite andb_true_l.
    destruct (in_result d result) eqn:Hin; simpl orb.
    + left. auto.
    + destruct (Z.gtb_spec d earliest); destruct (Z.ltb_spec d latest); simpl;
        try (left; split; auto; split; auto; right; lia);
        right; right; repeat split; auto; lia.
  - right. left. split; [discriminate|]. reflexivity.
Qed.

(** Where a date has values, opening it sets the current record id, so
    that saving them never meets the variable unassigned. *)
Lemma save_reaches_id (mode earliest latest m : Z) (result : result_t) (s : State) (d : date) :
  in_result d result = true ->
  currTimeSeriesId (open_record mode earliest latest m result s d) <> None.
Proof.
  intros Hin.
  destruct (open_record_cases mode earliest latest m result s d)
    as [(_ & _ & ->)|[(_ & ->)|(_ & Hout & _)]].
  - discriminate.
  - destruct (mode =? 4); discriminate.
  - congruence.
Qed.

End WriterFacts.

Section UpdateKeepsData.

Import Writer.

Lemma fold_left_inv {A B : Type} (P : A -> Prop) (f : A -> B -> A) (l : list B) :
  (forall a b, In b l -> P a -> P (f a b)) -> forall a, P a -> P (fold_left f l a).
Proof.
  induction l as [|x l IH]; intros H a Ha; simpl; auto.
  apply IH; [intros; apply H; simpl; auto|]. apply H; simpl; auto.
Qed.

Lemma only_inserts_refl (s : State) : only_inserts s s.
Proof. exists []. rewrite app_nil_r. reflexivity. Qed.

Lemma only_inserts_trans (s1 s2 s3 : State) :
  only_inserts s1 s2 -> only_inserts s2 s3 -> only_inserts s1 s3.
Proof.
  intros [a Ha] [b Hb]. exists (a ++ b). rewrite Hb, Ha, app_assoc. reflexivity.
Qed.

Lemma open_record_keeps_data (mode earliest latest m : Z) (result : result_t) (s : State)
    (d : date) :
  mode <> 4 -> DATA (open_record mode earliest latest m result s d) = DATA s.
Proof.
  intros Hm.
  destruct (open_record_cases mode earliest latest m result s d)
    as [(_ & _ & ->)|[(_ & ->)|(_ & _ & _ & ->)]]; auto.
  destruct (Z.eqb_spec mode 4); [contradiction|reflexivity].
Qed.

Lemma save_values_only_inserts (ev : list string) (result : result_t) (s : State) (d : date) :
  only_inserts s (fst (save_values ev result s d)).
Proof.
  destruct (save_values_spec ev result s d) as [_ [_ H]].
  destruct (currTimeSeriesId s).
  - destruct H as [rows [H _]]. exists rows. exact H.
  - exists []. rewrite app_nil_r. exact H.
Qed.

Lemma write_date_only_inserts (ev : list string) (mode earliest latest m : Z)
    (st : State * result_t) (d : date) :
  mode <> 4 -> only_inserts (fst st) (fst (write_date ev mode earliest latest m st d)).
Proof.
  intros Hm. destruct st as [s result]. unfold write_date. simpl fst at 1.
  eapply only_inserts_trans; [|apply save_values_only_inserts].
  exists []. rewrite app_nil_r. apply open_record_keeps_data. exact Hm.
Qed.

Lemma write_member_only_inserts (ev : list string) (mode : Z) (earliest latest : Z -> date)
    (start : date) (batch : list date) (st : State * result_t) (m : Z) :
  mode <> 4 ->
  only_inserts (fst st) (fst (write_member ev mode earliest latest start batch st m)).
Proof.
  intros Hm. unfold write_member.
  destruct (negb (skip_member (snd st) (hd 0 batch) (last batch 0) (earliest m) (latest m) start));
    [|apply only_inserts_refl].
  apply (fold_left_inv (fun st' => only_inserts (fst st) (fst st'))
           (write_date ev mode (earliest m) (latest m) m) batch);
    [|apply only_inserts_refl].
  intros a b _ H. eapply only_inserts_trans; [exact H|].
  apply write_date_only_inserts. exact Hm.
Qed.

(** C10: outside overwrite mode, and so in update mode, writing a batch
    deletes no row of DATA: the table afterwards is the table before with
    rows added at its end. *)
Theorem update_mode_never_deletes (ev : list string) (mode : Z)
    (earliest latest : Z -> date) (start : date) (ids : list Z) (batch : list date)
    (result : result_t) (s : State) :
  mode <> 4 ->
  exists added,
    DATA (write_batch ev mode earliest latest start ids batch result s) = DATA s ++ added.
Proof.
  intros Hm. unfold write_batch.
  match goal with |- context [fold_left ?f ids (?s0, result)] =>
    change (only_inserts s0 (fst (fold_left f ids (s0, result))));
    apply (fold_left_inv (fun st' => only_inserts s0 (fst st')) f ids)
  end.
  - intros a b _ H. eapply only_inserts_trans; [exact H|].
    apply write_member_only_inserts. exact Hm.
  - apply only_inserts_refl.
Qed.

End UpdateKeepsData.

(** ** Invariants of a run *)

(** A property of the state that every elementary step keeps is kept by
    the writer, by a batch, by a group and by the whole demand loop. *)
Section RunInvariant.

Import Writer Run.

Variable ids : list Z.
Variable P : State -> Prop.

Hypothesis P_log : forall ev s, P s -> P (log_event ev s).
Hypothesis P_error : forall b s, P s -> P (set_anyError b s).
Hypothesis P_last : forall x s, P s -> P (set_lastTimeSeriesId x s).
Hypothesis P_demands : forall x s, P s -> P (set_DEMANDS x s).
Hypothesis P_write_date : forall ev mode earliest latest m st d,
  In m ids -> P (fst st) -> P (fst (write_date ev mode earliest latest m st d)).

Lemma write_member_inv ev mode earliest latest start batch st m :
  In m ids -> P (fst st) -> P (fst (write_member ev mode earliest latest start batch st m)).
Proof.
  intros Hm H. unfold write_member.
  destruct (negb (skip_member (snd st) (hd 0 batch) (last batch 0) (earliest m) (latest m) start));
    auto.
  apply (fold_left_inv (fun st' => P (fst st'))); auto.
Qed.

Lemma write_batch_inv ev mode earliest latest start members batch result s :
  incl members ids -> P s ->
  P (write_batch ev mode earliest latest start members batch result s).
Proof.
  intros Hm H. unfold write_batch.
  apply (fold_left_inv (fun st' => P (fst st'))); simpl; auto.
  intros a b Hb Ha. apply write_member_inv; auto.
Qed.

Lemma process_batch_inv e mode leader members earliest latest start s batch :
  incl members ids -> P s ->
  P (process_batch e mode leader members earliest latest start s batch).
Proof.
  intros Hm H. unfold process_batch.
  destruct (retrieve e leader members batch); auto using write_batch_inv.
Qed.

Lemma process_group_inv e mode leader group pixels s s' :
  incl (map DEMANDID group) ids -> P s ->
  process_group e mode leader group pixels s = Some s' -> P s'.
Proof.
  intros Hm H. unfold process_group.
  destruct (Planner.startDate _ _) as [start|]; [|discriminate].
  destruct (Planner.endDate _) as [stop|]; [|discriminate].
  match goal with |- context [if ?c then _ else _] => destruct c end;
    cbv beta iota zeta;
    (destruct (Scheduler.groups _ _ _ _) as [gs|]; [|discriminate]);
    intros E; injection E as <-;
    (apply (fold_left_inv P); [intros; apply process_batch_inv; auto|auto]).
Qed.

Lemma take_rows_incl {A : Type} (l : list A) (inds : list nat) : incl (take_rows l inds) l.
Proof.
  intros x Hx. apply take_rows_In in Hx. destruct Hx as [i [_ Hi]].
  eapply nth_error_In; eauto.
Qed.

Lemma rows_loop_inv e df rows : forall already s s',
  incl (map DEMANDID df) ids -> P s ->
  rows_loop e df rows already s = Some s' -> P s'.
Proof.
  induction rows as [|i rows IH]; intros already s s' Hdf H; simpl.
  - intros E. injection E as <-. exact H.
  - destruct (existsb (Nat.eqb i) already); [apply IH; auto|].
    destruct (nth_error df i) as [leader|]; [|discriminate].
    assert (H1 : P (if DEMANDSTATUS leader >? 1 then reset_status (DEMANDID leader) s else s)).
    { destruct (DEMANDSTATUS leader >? 1); auto. unfold reset_status. auto. }
    destruct (demandRunningMode e (DEMANDSTATUS leader) <? 5).
    + destruct (nPixelsInAoI e leader) as [pixels|]; [|apply IH; auto].
      destruct (process_group e _ leader _ pixels _) as [s2|] eqn:E; [|discriminate].
      apply IH; auto. eapply process_group_inv; [|exact H1|exact E].
      intros x Hx. apply Hdf. apply in_map_iff in Hx. destruct Hx as [dm [<- Hdm]].
      apply in_map. eapply take_rows_incl; eauto.
    + destruct (demandRunningMode e (DEMANDSTATUS leader) =? 5); apply IH; auto.
Qed.

End RunInvariant.

Section OneRecordPerDate.

Import Writer Run.

Lemma last_In_nonempty {A : Type} (l : list A) (x : A) : l <> [] -> In (last l x) l.
Proof.
  induction l as [|a l IH]; intros Hl; [contradiction|].
  destruct l as [|b l]; [left; reflexivity|]. right. apply IH. discriminate.
Qed.

Lemma last_map_nonempty {A B : Type} (f : A -> B) (l : list A) (x : A) (z : B) :
  l <> [] -> last (map f l) z = f (last l x).
Proof.
  induction l as [|a l IH]; intros Hl; [contradiction|].
  destruct l as [|b l]; [reflexivity|]. apply IH. discriminate.
Qed.

Lemma records_of_In (table : list TimeSeriesRow) (m : Z) (d : date) (r : TimeSeriesRow) :
  In r (records_of table m d) <->
  In r table /\ TIMESERIESDEMANDID r = m /\ TIMESERIESDATE r = d.
Proof.
  unfold records_of, is_record. rewrite filter_In, andb_true_iff, !Z.eqb_eq. tauto.
Qed.

Lemma open_record_records_inv (ids : list Z) mode earliest latest m result s d :
  In m ids -> records_inv ids s ->
  records_inv ids (open_record mode earliest latest m result s d).
Proof.
  intros Hm [Hu Hc].
  destruct (open_record_cases mode earliest latest m result s d)
    as [(Hr & _ & ->)|[(_ & ->)|(_ & _ & _ & ->)]].
  - split.
    + unfold unique_records in *. simpl. rewrite map_app. simpl.
      apply NoDup_app; auto.
      * constructor; [intros []|constructor].
      * intros k Hk [<-|[]]. apply in_map_iff in Hk. destruct Hk as [r [Ek Hin]].
        injection Ek as E1 E2.
        assert (In r (records_of (timeSeriesDF s) m d)).
        { apply records_of_In. split; auto. apply Hc; auto. congruence. }
        rewrite Hr in H. destruct H.
    + intros r. simpl. rewrite !in_app_iff. intros [H|H] Hid; auto.
  - destruct (mode =? 4); split; auto.
  - split; auto.
Qed.

Lemma same_records_records_inv (ids : list Z) (s s' : State) :
  same_records s s' -> records_inv ids s -> records_inv ids s'.
Proof.
  intros (_ & E1 & E2 & _) [Hu Hc]. split.
  - rewrite E1. exact Hu.
  - intros r. rewrite E1, E2. apply Hc.
Qed.

Lemma write_date_records_inv (ids : list Z) ev mode earliest latest m st d :
  In m ids -> records_inv ids (fst st) ->
  records_inv ids (fst (write_date ev mode earliest latest m st d)).
Proof.
  intros Hm H. destruct st as [s result]. unfold write_date.
  eapply same_records_records_inv; [apply save_values_spec|].
  apply open_record_records_inv; auto.
Qed.

Lemma load_records_inv (s : State) :
  unique_records (TIMESERIES s) ->
  records_inv (map DEMANDID (filter (fun d => DEMANDSTATUS d >? 0) (DEMANDS s))) (load s).
Proof.
  intros Hu. split; auto.
  intros r Hr Hid. simpl. apply filter_In. split; auto. apply isin_In. exact Hid.
Qed.

(** C9: a run keeps at most one TimeSeries record per demand and date.
    When the writer opens a date for a member it looks the pair up in its
    in-memory view: the table changes only when no record is found, and
    when records are found the table is left as it is and the id of one of
    them becomes the current id. *)
Theorem one_record_per_demand_and_date :
  (forall e s s',
      unique_records (TIMESERIES s) ->
      databaseUpdate e s = Some s' ->
      unique_records (TIMESERIES s')) /\
  (forall mode earliest latest m result s d,
      let s' := open_record mode earliest latest m result s d in
      (TIMESERIES s' <> TIMESERIES s -> records_of (timeSeriesDF s) m d = []) /\
      (records_of (timeSeriesDF s) m d <> [] ->
         TIMESERIES s' = TIMESERIES s /\
         exists r, In r (records_of (timeSeriesDF s) m d) /\
                   currTimeSeriesId s' = Some (TIMESERIESID r))).
Proof.
  split.
  - intros e s s' Hu E. unfold databaseUpdate in E.
    set (ids := map DEMANDID (filter (fun d => DEMANDSTATUS d >? 0) (DEMANDS s))).
    apply (rows_loop_inv ids (records_inv ids)) in E.
    + apply E.
    + intros ev s0 [H1 H2]. split; auto.
    + intros b s0 [H1 H2]. split; auto.
    + intros x s0 [H1 H2]. split; auto.
    + intros x s0 [H1 H2]. split; auto.
    + intros. apply write_date_records_inv; auto.
    + unfold demandsDF. intros x Hx. apply in_map_iff in Hx. destruct Hx as [dm [<- Hdm]].
      apply in_map. apply filter_In in Hdm. tauto.
    + apply load_records_inv. exact Hu.
  - intros mode earliest latest m result s d s'. subst s'.
    destruct (open_record_cases mode earliest latest m result s d)
      as [(Hr & _ & E)|[(Hr & E)|(Hr & _ & _ & E)]]; rewrite E; clear E.
    + split; [auto|contradiction].
    + assert (T : TIMESERIES
                    (if mode =? 4
                     then delete_data (last (map TIMESERIESID (records_of (timeSeriesDF s) m d)) 0)
                            (set_currTimeSeriesId
                               (Some (last (map TIMESERIESID (records_of (timeSeriesDF s) m d)) 0)) s)
                     else set_currTimeSeriesId
                            (Some (last (map TIMESERIESID (records_of (timeSeriesDF s) m d)) 0)) s)
                  = TIMESERIES s) by (destruct (mode =? 4); reflexivity).
      split; [intros H; contradiction|]. intros _. split; [exact T|].
      destruct (records_of (timeSeriesDF s) m d) as [|r0 recs] eqn:Er; [contradiction|].
      exists (last (r0 :: recs) r0). split.
      * apply last_In_nonempty. discriminate.
      * rewrite (last_map_nonempty TIMESERIESID (r0 :: recs) r0 0) by discriminate.
        destruct (mode =? 4); reflexivity.
    + split; [intros H; contradiction|contradiction].
Qed.

End OneRecordPerDate.

Section Overwrite.

Import Writer.

Lemma data_of_deleted (table : list DataRow) (id : Z) :
  data_of (filter (fun r => negb (DATATIMESERIESID r =? id)) table) id = [].
Proof.
  unfold data_of. induction table as [|r table IH]; simpl; auto.
  destruct (DATATIMESERIESID r =? id) eqn:E; simpl; auto. rewrite E. exact IH.
Qed.

Lemma data_of_all (rows : list DataRow) (id : Z) :
  Forall (fun r => DATATIMESERIESID r = id) rows -> data_of rows id = rows.
Proof.
  unfold data_of. induction 1 as [|r rows Hr _ IH]; simpl; auto.
  rewrite (proj2 (Z.eqb_eq _ _) Hr). f_equal. exact IH.
Qed.

(** In overwrite mode, when the view holds a record of the member for the
    date, writing the date leaves the TimeSeries table as it is, makes the
    id of the last such record the current one, deletes every Data row of
    the record and then adds the values just retrieved under the same id;
    the Data rows of the record afterwards are those new rows and no
    other. *)
Lemma write_date_overwrite (ev : list string) (earliest latest m : Z) (s : State)
    (result : result_t) (d : date) :
  records_of (timeSeriesDF s) m d <> [] ->
  let id := last (map TIMESERIESID (records_of (timeSeriesDF s) m d)) 0 in
  let s' := fst (write_date ev 4 earliest latest m (s, result) d) in
  (exists r, In r (records_of (timeSeriesDF s) m d) /\ TIMESERIESID r = id) /\
  TIMESERIES s' = TIMESERIES s /\
  timeSeriesDF s' = timeSeriesDF s /\
  currTimeSeriesId s' = Some id /\
  exists new,
    DATA s' = filter (fun r => negb (DATATIMESERIESID r =? id)) (DATA s) ++ new /\
    Forall (fun r => DATATIMESERIESID r = id) new /\
    map DATAVALUE new = map snd (saved_values result d) /\
    data_of (DATA s') id = new.
Proof.
  intros Hr id s'. subst s'. unfold write_date.
  destruct (open_record_cases 4 earliest latest m result s d)
    as [(Hr' & _)|[(_ & E)|(Hr' & _)]]; try contradiction.
  rewrite E. clear E. simpl Z.eqb. cbv iota. fold id.
  set (s1 := delete_data id (set_currTimeSeriesId (Some id) s)).
  destruct (save_values_spec ev result s1 d) as [(F1 & F2 & F3 & F4 & F5 & F6 & F7) [_ D]].
  simpl in D. destruct D as [new [D1 [D2 D3]]].
  split.
  { destruct (records_of (timeSeriesDF s) m d) as [|r0 recs] eqn:Er; [contradiction|].
    exists (last (r0 :: recs) r0). split; [apply last_In_nonempty; discriminate|].
    unfold id. symmetry. apply last_map_nonempty. discriminate. }
  split; [rewrite F2; reflexivity|].
  split; [rewrite F3; reflexivity|].
  split; [rewrite F5; reflexivity|].
  exists new. repeat split; auto.
  rewrite D1. unfold data_of. rewrite filter_app.
  fold (data_of (filter (fun r => negb (DATATIMESERIESID r =? id)) (DATA s)) id).
  fold (data_of new id). rewrite data_of_deleted, data_of_all; auto.
Qed.

End Overwrite.

(** ** What writing one date does *)

Section WriteDateEffect.

Import Writer.

Lemma save_values_absent (ev : list string) (result : result_t) (s : State) (d : date) :
  in_result d result = false -> save_values ev result s d = (s, result).
Proof. intros H. unfold save_values. rewrite H. reflexivity. Qed.

Lemma write_date_unfold ev mode earliest latest m s result d :
  write_date ev mode earliest latest m (s, result) d
  = save_values ev result (open_record mode earliest latest m result s d) d.
Proof. reflexivity. Qed.

(** Writing a date for a member does one of three things: it adds a record
    with the next id and the values of the date under it; it takes the id
    of a record of the view, deletes the data of that record in overwrite
    mode, and adds the values of the date under it; or it does nothing, the
    date having no record, no values and lying outside the member's range. *)
Lemma write_date_effect ev mode earliest latest m s result d :
  let st' := write_date ev mode earliest latest m (s, result) d in
  let s' := fst st' in
  map fst (snd st') = map fst result /\
  DEMANDS s' = DEMANDS s /\ history s' = history s /\ anyError s' = anyError s /\
  ((records_of (timeSeriesDF s) m d = [] /\
    (in_result d result = true \/ earliest < d < latest) /\
    TIMESERIES s' = TIMESERIES s ++ [{| TIMESERIESID := lastTimeSeriesId s + 1;
                                         TIMESERIESDEMANDID := m; TIMESERIESDATE := d |}] /\
    timeSeriesDF s' = timeSeriesDF s ++ [{| TIMESERIESID := lastTimeSeriesId s + 1;
                                             TIMESERIESDEMANDID := m; TIMESERIESDATE := d |}] /\
    lastTimeSeriesId s' = lastTimeSeriesId s + 1 /\
    currTimeSeriesId s' = Some (lastTimeSeriesId s + 1) /\
    exists rows, DATA s' = DATA s ++ rows /\
                 Forall (fun r => DATATIMESERIESID r = lastTimeSeriesId s + 1) rows /\
                 map DATAVALUE rows = map snd (saved_values result d))
   \/
   (exists r, In r (records_of (timeSeriesDF s) m d) /\
    TIMESERIES s' = TIMESERIES s /\ timeSeriesDF s' = timeSeriesDF s /\
    lastTimeSeriesId s' = lastTimeSeriesId s /\
    currTimeSeriesId s' = Some (TIMESERIESID r) /\
    exists rows,
      DATA s' = (if mode =? 4
                 then filter (fun x => negb (DATATIMESERIESID x =? TIMESERIESID r)) (DATA s)
                 else DATA s) ++ rows /\
      Forall (fun x => DATATIMESERIESID x = TIMESERIESID r) rows /\
      map DATAVALUE rows = map snd (saved_values result d))
   \/
   (records_of (timeSeriesDF s) m d = [] /\ in_result d result = false /\
    ~ earliest < d < latest /\ st' = (s, result))).
Proof.
  intros st' s'. subst s' st'. rewrite write_date_unfold.
  set (s1 := open_record mode earliest latest m result s d).
  destruct (save_values_spec ev result s1 d) as [(F1 & F2 & F3 & F4 & F5 & F6 & F7) [K D]].
  split; [exact K|].
  assert (B : DEMANDS s1 = DEMANDS s /\ history s1 = history s /\ anyError s1 = anyError s).
  { subst s1. destruct (open_record_cases mode earliest latest m result s d)
      as [(_ & _ & ->)|[(_ & ->)|(_ & _ & _ & ->)]]; auto.
    destruct (mode =? 4); auto. }
  destruct B as (B1 & B2 & B3).
  split; [congruence|]. split; [congruence|]. split; [congruence|].
  destruct (open_record_cases mode earliest latest m result s d)
    as [(Hr & Hc & E)|[(Hr & E)|(Hr & Hin & Hout & E)]]; fold s1 in E.
  - left. rewrite E in *. simpl in *. destruct D as [rows D]. repeat split; auto.
    exists rows. exact D.
  - right. left.
    destruct (records_of (timeSeriesDF s) m d) as [|r0 recs] eqn:Er; [contradiction|].
    exists (last (r0 :: recs) r0). split; [apply last_In_nonempty; discriminate|].
    rewrite (last_map_nonempty TIMESERIESID (r0 :: recs) r0 0) in E by discriminate.
    rewrite E in *. destruct (mode =? 4); simpl in *; destruct D as [rows D];
      repeat split; auto; exists rows; exact D.
  - right. right. repeat split; auto. rewrite save_values_absent, E; auto.
Qed.

End WriteDateEffect.

(** ** Gap stamping *)

Section GapStamping.

Import Writer.

Lemma records_of_app (a b : list TimeSeriesRow) (m : Z) (d : date) :
  records_of (a ++ b) m d = records_of a m d ++ records_of b m d.
Proof. apply filter_app. Qed.

Lemma records_of_other (id m m' : Z) (d d' : date) :
  d' <> d ->
  records_of [{| TIMESERIESID := id; TIMESERIESDEMANDID := m'; TIMESERIESDATE := d' |}] m d = [].
Proof.
  intros H. unfold records_of, is_record. simpl.
  destruct (Z.eqb_spec d' d); [contradiction|reflexivity].
Qed.

Lemma records_of_self (id m : Z) (d : date) :
  records_of [{| TIMESERIESID := id; TIMESERIESDEMANDID := m; TIMESERIESDATE := d |}] m d
  = [{| TIMESERIESID := id; TIMESERIESDEMANDID := m; TIMESERIESDATE := d |}].
Proof. unfold records_of, is_record. simpl. rewrite !Z.eqb_refl. reflexivity. Qed.

Lemma data_of_app (a b : list DataRow) (id : Z) :
  data_of (a ++ b) id = data_of a id ++ data_of b id.
Proof. apply filter_app. Qed.

Lemma data_of_none (rows : list DataRow) (id j : Z) :
  j <> id -> Forall (fun x => DATATIMESERIESID x = j) rows -> data_of rows id = [].
Proof.
  intros Hj. unfold data_of. induction 1 as [|x rows Hx _ IH]; simpl; auto.
  rewrite Hx. destruct (Z.eqb_spec j id); [contradiction|exact IH].
Qed.

Lemma data_of_filter_nil (p : DataRow -> bool) (table : list DataRow) (id : Z) :
  data_of table id = [] -> data_of (filter p table) id = [].
Proof.
  unfold data_of. induction table as [|x table IH]; simpl; auto.
  destruct (DATATIMESERIESID x =? id) eqn:E; [discriminate|].
  intros H. destruct (p x); simpl; rewrite ?E; auto.
Qed.

Lemma data_of_bounded (table : list DataRow) (id bound : Z) :
  (forall x, In x table -> DATATIMESERIESID x <= bound) -> bound < id -> data_of table id = [].
Proof.
  intros H Hb. unfold data_of. induction table as [|x table IH]; simpl; auto.
  destruct (Z.eqb_spec (DATATIMESERIESID x) id) as [E|E].
  - specialize (H x (or_introl eq_refl)). lia.
  - apply IH. intros y Hy. apply H. right. exact Hy.
Qed.

Lemma in_result_keys (d : date) (r1 r2 : result_t) :
  map fst r1 = map fst r2 -> in_result d r1 = in_result d r2.
Proof. unfold in_result. intros ->. reflexivity. Qed.

(** A date beyond the member's latest record and without values gets no
    record, whatever else is written. *)
Lemma write_date_beyond ev mode earliest latest m d st d' :
  latest < d -> in_result d (snd st) = false ->
  let st' := write_date ev mode earliest latest m st d' in
  in_result d (snd st') = false /\
  records_of (TIMESERIES (fst st')) m d = records_of (TIMESERIES (fst st)) m d.
Proof.
  intros Hl Hin. destruct st as [s result]. simpl in Hin.
  destruct (write_date_effect ev mode earliest latest m s result d')
    as (K & _ & _ & _ & [(Hr & Hc & T & _)|[(r & _ & T & _)|(_ & _ & _ & E)]]).
  - split; [rewrite (in_result_keys d _ _ K); exact Hin|].
    cbv zeta. rewrite T, records_of_app.
    destruct (Z.eq_dec d' d) as [->|Hd].
    + destruct Hc as [Hc|Hc]; [congruence|lia].
    + rewrite records_of_other by exact Hd. apply app_nil_r.
  - split; [rewrite (in_result_keys d _ _ K); exact Hin|]. cbv zeta. rewrite T. reflexivity.
  - cbv zeta. rewrite E. simpl. auto.
Qed.

Lemma write_date_before_gap ev mode earliest latest m d s0 st d' :
  d' <> d -> before_gap s0 m d st ->
  before_gap s0 m d (write_date ev mode earliest latest m st d').
Proof.
  intros Hd (H1 & [H2 H3] & H4 & H5 & H6). destruct st as [s result].
  cbn [fst snd] in H1, H2, H3, H4, H5, H6.
  destruct (write_date_effect ev mode earliest latest m s result d')
    as (K & _ & _ & _ & [(Hr & Hc & T & F & L & C & rows & D & Drows & _)
                        |[(r & Hr & T & F & L & C & rows & D & Drows & _)
                        |(_ & _ & _ & E)]]).
  - unfold before_gap, ids_bounded.
    rewrite F, T, L, !records_of_app, records_of_other, !app_nil_r by exact Hd.
    repeat split; auto.
    + intros r Hin. apply in_app_iff in Hin. destruct Hin as [Hin|[<-|[]]]; simpl; [|lia].
      specialize (H2 r Hin). lia.
    + intros x Hin. rewrite D in Hin. apply in_app_iff in Hin. destruct Hin as [Hin|Hin].
      * specialize (H3 x Hin). lia.
      * rewrite Forall_forall in Drows. rewrite (Drows x Hin). lia.
    + rewrite (in_result_keys d _ _ K). exact H4.
    + lia.
  - unfold before_gap, ids_bounded. rewrite F, T, L. repeat split; auto.
    + intros x Hin. rewrite D in Hin. apply in_app_iff in Hin. destruct Hin as [Hin|Hin].
      * apply H3. destruct (mode =? 4); [apply filter_In in Hin; tauto|exact Hin].
      * rewrite Forall_forall in Drows. rewrite (Drows x Hin). apply H2.
        apply records_of_In in Hr. tauto.
    + rewrite (in_result_keys d _ _ K). exact H4.
  - rewrite E. repeat split; auto.
Qed.

Lemma write_date_after_gap ev mode earliest latest m d recs id st d' :
  d' <> d -> after_gap recs id m d st ->
  after_gap recs id m d (write_date ev mode earliest latest m st d').
Proof.
  intros Hd (H1 & H2 & H3 & H4). destruct st as [s result].
  cbn [fst snd] in H1, H2, H3, H4.
  destruct (write_date_effect ev mode earliest latest m s result d')
    as (K & _ & _ & _ & [(Hr & Hc & T & F & L & C & rows & D & Drows & _)
                        |[(r & Hr & T & F & L & C & rows & D & Drows & _)
                        |(_ & _ & _ & E)]]).
  - unfold after_gap. rewrite F, T, L, D, records_of_app, records_of_other, app_nil_r by exact Hd.
    repeat split; auto.
    + intros r Hin. apply in_app_iff in Hin. destruct Hin as [Hin|[<-|[]]]; simpl; auto. lia.
    + lia.
    + rewrite data_of_app, H3. simpl.
      apply (data_of_none rows id (lastTimeSeriesId s + 1)); auto. lia.
  - unfold after_gap. rewrite F, T, L, D. repeat split; auto.
    apply records_of_In in Hr. destruct Hr as (Hin & _ & Hdate).
    assert (Hne : TIMESERIESID r <> id).
    { intros Eid. specialize (H1 r Hin Eid). congruence. }
    rewrite data_of_app, (data_of_none rows id (TIMESERIESID r)) by auto.
    rewrite app_nil_r. destruct (mode =? 4); auto. apply data_of_filter_nil. exact H3.
  - rewrite E. repeat split; auto.
Qed.

Lemma sorted_hd_last (batch : list date) (d : date) :
  StronglySorted Z.lt batch -> In d batch -> hd 0 batch <= d <= last batch 0.
Proof.
  induction 1 as [|x l Hs IH Hx]; intros Hin; [destruct Hin|].
  rewrite Forall_forall in Hx. simpl hd.
  destruct Hin as [->|Hin].
  - split; [lia|]. destruct l as [|y l]; [simpl; lia|].
    assert (In (last (y :: l) 0) (y :: l)) by (apply last_In_nonempty; discriminate).
    specialize (Hx _ H). simpl in *. lia.
  - specialize (Hx _ Hin). specialize (IH Hin).
    destruct l as [|y l]; [destruct Hin|]. simpl hd in IH.
    change (last (x :: y :: l) 0) with (last (y :: l) 0). lia.
Qed.

(** C3 (as amended): take a member and a date of the batch without entry
    in the result.  If the date lies beyond the member's latest record, no
    TimeSeries record is made for it.  If the member has no record of the
    date yet and the date lies strictly inside the member's range of
    records, exactly one record is made for it, with a fresh id and without
    any Data row. *)
Theorem gap_stamping (ev : list string) (mode : Z) (earliest latest : Z -> date)
    (start : date) (batch : list date) (s : State) (result : result_t) (m : Z) (d : date) :
  in_result d result = false ->
  let s' := fst (write_member ev mode earliest latest start batch (s, result) m) in
  (latest m < d ->
     records_of (TIMESERIES s') m d = records_of (TIMESERIES s) m d) /\
  (StronglySorted Z.lt batch -> In d batch -> start <= d ->
   records_of (timeSeriesDF s) m d = [] -> ids_bounded s ->
   earliest m < d < latest m ->
     exists id,
       lastTimeSeriesId s < id /\
       records_of (TIMESERIES s') m d
       = records_of (TIMESERIES s) m d
         ++ [{| TIMESERIESID := id; TIMESERIESDEMANDID := m; TIMESERIESDATE := d |}] /\
       data_of (DATA s') id = []).
Proof.
  intros Hin s'. subst s'. unfold write_member. cbn [snd]. split.
  - intros Hl.
    destruct (negb (skip_member result (hd 0 batch) (last batch 0) (earliest m) (latest m) start));
      [|reflexivity].
    apply (fold_left_inv
             (fun st => in_result d (snd st) = false /\
                        records_of (TIMESERIES (fst st)) m d = records_of (TIMESERIES s) m d)
             (write_date ev mode (earliest m) (latest m) m) batch); [|split; auto].
    intros st d' _ [H1 H2].
    destruct (write_date_beyond ev mode (earliest m) (latest m) m d st d' Hl H1) as [H3 H4].
    split; [exact H3|]. rewrite H4. exact H2.
  - intros Hs Hd Hstart Hr Hb Hrange.
    assert (G : skip_member result (hd 0 batch) (last batch 0) (earliest m) (latest m) start
                = false).
    { pose proof (sorted_hd_last batch d Hs Hd) as Hhl. unfold skip_member.
      destruct result; auto.
      destruct (Z.gtb_spec (hd 0 batch) (latest m)); [lia|].
      destruct (Z.ltb_spec (last batch 0) (earliest m)); [lia|].
      destruct (Z.eqb_spec (latest m) start); [lia|]. reflexivity. }
    rewrite G. cbn [negb].
    destruct (in_split d batch Hd) as [pre [post Eb]].
    assert (Hnd : NoDup batch) by (apply sorted_lt_NoDup; exact Hs).
    rewrite Eb in Hnd. pose proof (NoDup_remove_2 _ _ _ Hnd) as Hnot.
    rewrite Eb, fold_left_app. cbn [fold_left].
    set (st1 := fold_left (write_date ev mode (earliest m) (latest m) m) pre (s, result)).
    assert (B : before_gap s m d st1).
    { apply (fold_left_inv (before_gap s m d)).
      - intros st d' Hd' Hst. apply write_date_before_gap; auto.
        intros ->. apply Hnot. apply in_or_app. left. exact Hd'.
      - repeat split; auto; try apply Hb. cbn [fst]. lia. }
    destruct B as (B1 & [B2 B3] & B4 & B5 & B6). destruct st1 as [s1 result1].
    cbn [fst snd] in B1, B2, B3, B4, B5, B6.
    destruct (write_date_effect ev mode (earliest m) (latest m) m s1 result1 d)
      as (K & _ & _ & _ & [(_ & _ & T & F & L & C & rows & D & Drows & V)
                          |[(r & Hr1 & _)|(_ & _ & Hout & _)]]).
    + exists (lastTimeSeriesId s1 + 1). split; [lia|].
      set (st2 := write_date ev mode (earliest m) (latest m) m (s1, result1) d) in *.
      assert (Hrows : rows = []).
      { unfold saved_values in V.
        destruct (result_get result1 d) as [vs|] eqn:Eg.
        - assert (in_result d result1 = true) by (apply in_result_get; eauto). congruence.
        - destruct rows; [reflexivity|discriminate]. }
      subst rows. rewrite app_nil_r in D.
      assert (A : after_gap (records_of (TIMESERIES s) m d
                              ++ [{| TIMESERIESID := lastTimeSeriesId s1 + 1;
                                     TIMESERIESDEMANDID := m; TIMESERIESDATE := d |}])
                            (lastTimeSeriesId s1 + 1) m d
                            (fold_left (write_date ev mode (earliest m) (latest m) m) post st2)).
      { apply (fold_left_inv (after_gap _ (lastTimeSeriesId s1 + 1) m d)).
        - intros st d' Hd' Hst. apply write_date_after_gap; auto.
          intros ->. apply Hnot. apply in_or_app. right. exact Hd'.
        - unfold after_gap. rewrite F, T, L, D, records_of_app, records_of_self, B6.
          repeat split; auto; [|lia|].
          + intros r Hr1 Eid. apply in_app_iff in Hr1. destruct Hr1 as [Hr1|[<-|[]]]; auto.
            specialize (B2 r Hr1). lia.
          + apply (data_of_bounded _ _ (lastTimeSeriesId s1)); auto. lia. }
      destruct A as (_ & _ & A3 & A4). split; assumption.
    + rewrite B1 in Hr1. destruct Hr1.
    + contradiction.
Qed.

End GapStamping.

(** ** Worked cases *)

Section WorkedCases.

Import Writer Run Sample.

(** Member 7 has records of days 1, 3 and 5; the batch of days 2 and 4
    comes back empty.  Day 2 gets a stub. *)
Lemma gap_stamping_witness :
  let s := store [demand 7 1 1 5] [record 1 7 1; record 2 7 3; record 3 7 5]
                 [datum 1 10; datum 2 30; datum 3 50] 3 in
  let s' := fst (write_member ["img_time"%string] 3 (fun _ => 1) (fun _ => 5) 1 [2; 4]
                              (s, []) 7) in
  exists id,
    3 < id /\
    records_of (TIMESERIES s') 7 2 = [] ++ [record id 7 2] /\
    data_of (DATA s') id = [].
Proof.
  refine (proj2 (gap_stamping ["img_time"%string] 3 (fun _ => 1) (fun _ => 5) 1 [2; 4]
                   (store [demand 7 1 1 5] [record 1 7 1; record 2 7 3; record 3 7 5]
                          [datum 1 10; datum 2 30; datum 3 50] 3)
                   [] 7 2 eq_refl) _ _ _ _ _ _).
  - repeat constructor; lia.
  - left. reflexivity.
  - lia.
  - reflexivity.
  - split; simpl; intros x H; repeat (destruct H as [<-|H]; [simpl; lia|]); destruct H.
  - simpl. lia.
Defined.

(** C3, the claim as worded fails.  In overwrite mode member 7 has records
    of days 1, 2 and 3 and the batch of day 2 comes back empty: day 2 lies
    strictly inside the member's range and has no entry in the result, yet
    no record is made; the one on file is taken.  In update mode the
    demands 1 and 2 form a group, demand 1 with records of days 1, 2 and 3
    and demand 2 with records of days 1 and 3; the run asks for day 2 and
    gets nothing: the only record it makes is the stub of demand 2, and
    demand 1, for which day 2 also lies strictly inside the range, gets
    none. *)
Lemma no_stub_where_a_record_exists :
  (let s := store [demand 7 1 1 3] [record 1 7 1; record 2 7 2; record 3 7 3]
                  [datum 1 10; datum 2 20; datum 3 30] 3 in
   let s' := fst (write_member ["img_time"%string] 4 (fun _ => 1) (fun _ => 3) 1 [2]
                               (s, []) 7) in
   in_result 2 [] = false /\ 1 < 2 < 3 /\
   TIMESERIES s' = TIMESERIES s /\
   ~ exists id, In (record id 7 2) (TIMESERIES s') /\ ~ In (record id 7 2) (TIMESERIES s))
  /\
  (let s := store [demand 1 1 1 3; demand 2 1 1 3]
                  [record 1 1 1; record 2 1 2; record 3 1 3; record 4 2 1; record 5 2 3]
                  [datum 1 10; datum 2 20; datum 3 30; datum 4 10; datum 5 30] 5 in
   exists s',
     databaseUpdate (env 3 (fun _ => true) (fun _ => None)) s = Some s' /\
     history s' = [AvailableDates 1 [2]; Retrieval [1; 2] [2]] /\
     TIMESERIES s' = TIMESERIES s ++ [record 6 2 2]).
Proof.
  split.
  - cbv zeta. split; [reflexivity|]. split; [lia|].
    assert (E : TIMESERIES
                  (fst (write_member ["img_time"%string] 4 (fun _ => 1) (fun _ => 3) 1 [2]
                          (store [demand 7 1 1 3] [record 1 7 1; record 2 7 2; record 3 7 3]
                                 [datum 1 10; datum 2 20; datum 3 30] 3, []) 7))
                = [record 1 7 1; record 2 7 2; record 3 7 3]) by reflexivity.
    split; [exact E|]. rewrite E. intros [id [H1 H2]]. exact (H2 H1).
  - cbv zeta. eexists. split; [vm_compute; reflexivity|]. split; reflexivity.
Qed.

Lemma update_mode_never_deletes_witness :
  let s := store [demand 7 1 1 3] [record 1 7 1; record 2 7 2]
                 [datum 1 10; datum 2 20] 2 in
  exists added,
    DATA (write_batch ["img_time"%string] 3 (fun _ => 1) (fun _ => 2) 1 [7] [2; 3]
                      [(2, values 21); (3, values 31)] s)
    = DATA s ++ added.
Proof.
  apply update_mode_never_deletes. lia.
Defined.

(** An update run over the days 1 to 5 with values on days 1, 3 and 5. *)
Lemma one_record_per_demand_and_date_witness :
  match databaseUpdate
          (env 3 (fun _ => true) (fun d => if isin d [1; 3; 5] then Some (values d) else None))
          (store [demand 7 1 1 5] [] [] 0)
  with
  | Some s' => unique_records (TIMESERIES s')
  | None => False
  end.
Proof.
  destruct (databaseUpdate
              (env 3 (fun _ => true) (fun d => if isin d [1; 3; 5] then Some (values d) else None))
              (store [demand 7 1 1 5] [] [] 0)) as [s'|] eqn:E.
  - eapply (proj1 one_record_per_demand_and_date); [|exact E]. constructor.
  - vm_compute in E. discriminate.
Defined.

(** C1, the claim as worded fails: demand 7 spans the days 1 to 5, all
    with imagery, and the provider has values for the days 1, 3 and 5 in
    both runs.  The first update run leaves three records; the second asks
    for the days 2 and 4, gets nothing, and stamps both as gaps, so that the
    TimeSeries table grows from three rows to five.  The Data table stays as
    it was. *)
Lemma second_update_adds_stubs :
  let e := env 3 (fun _ => true) (fun d => if isin d [1; 3; 5] then Some (values d) else None) in
  exists s1 s2,
    databaseUpdate e (store [demand 7 1 1 5] [] [] 0) = Some s1 /\
    databaseUpdate e s1 = Some s2 /\
    TIMESERIES s1 = [record 1 7 1; record 2 7 3; record 3 7 5] /\
    TIMESERIES s2 = TIMESERIES s1 ++ [record 4 7 2; record 5 7 4] /\
    length (TIMESERIES s2) <> length (TIMESERIES s1) /\
    DATA s2 = DATA s1.
Proof.
  cbv zeta. eexists. eexists.
  split; [vm_compute; reflexivity|].
  split; [vm_compute; reflexivity|].
  repeat split. discriminate.
Qed.

(** C8 at the failing input: the demands 1 and 2 share their retrieval
    key, demand 1 stands at status 1 and demand 2 carries the override 4;
    both have records of every day of the span.  The run in update mode
    takes demand 1 as the leader of the group, finds nothing to update and
    passes over demand 2: no status is reset, nothing is retrieved, and
    demand 2 still carries status 4 in the store. *)
Lemma override_of_group_member_stuck :
  let s := store [demand 1 1 1 2; demand 2 4 1 2]
                 [record 1 1 1; record 2 1 2; record 3 2 1; record 4 2 2]
                 [datum 1 10; datum 2 20; datum 3 10; datum 4 20] 4 in
  exists s',
    databaseUpdate (env 3 (fun _ => true) (fun d => Some (values d))) s = Some s' /\
    map DEMANDSTATUS (DEMANDS s') = [1; 4] /\
    history s' = [] /\
    DATA s' = DATA s.
Proof.
  cbv zeta. eexists. split; [vm_compute; reflexivity|]. repeat split.
Qed.

(** The same two demands in the other order: demand 2 leads the group, its
    status is reset first, and the group is retrieved again and
    overwritten. *)
Lemma override_of_group_leader_applied :
  let s := store [demand 2 4 1 2; demand 1 1 1 2]
                 [record 1 1 1; record 2 1 2; record 3 2 1; record 4 2 2]
                 [datum 1 10; datum 2 20; datum 3 10; datum 4 20] 4 in
  exists s',
    databaseUpdate (env 3 (fun _ => true) (fun d => Some (values d))) s = Some s' /\
    map DEMANDSTATUS (DEMANDS s') = [1; 1] /\
    history s' = [StatusReset 2; AvailableDates 2 [1; 2]; Retrieval [2; 1] [1; 2]].
Proof.
  cbv zeta. eexists. split; [vm_compute; reflexivity|]. repeat split.
Qed.

End WorkedCases.

(** ** Coverage of the batches *)

Section Coverage.

Lemma nSimImgs_of_pos (algo cap : Z) : Scheduler.nSimImgs_of algo = Some cap -> 0 < cap.
Proof.
  unfold Scheduler.nSimImgs_of.
  destruct algo as [|p|p]; try discriminate;
    [intros E; injection E as <-; lia|].
  repeat (destruct p as [p|p|]; try discriminate;
          try (intros E; injection E as <-; lia)).
Qed.

Lemma maxNImgs_pos (P : Q) : (0 < P)%Q -> 0 < Scheduler.maxNImgs P.
Proof.
  intros HP. unfold Scheduler.maxNImgs.
  assert (H : (0 < inject_Z Scheduler.max_n_proc_pixels / P)%Q).
  { apply Qlt_shift_div_l; auto. rewrite Qmult_0_l. reflexivity. }
  pose proof (Qle_ceiling (inject_Z Scheduler.max_n_proc_pixels / P)) as Hc.
  assert (Hz : (inject_Z 0 < inject_Z (Qceiling (inject_Z Scheduler.max_n_proc_pixels / P)))%Q).
  { eapply Qlt_le_trans; [exact H|exact Hc]. }
  rewrite <- Zlt_Qlt in Hz. exact Hz.
Qed.

Lemma n_available_zero (f l : list date) (d : date) :
  n_available f l = 0%nat -> In d l -> isin d f = false.
Proof.
  unfold n_available. induction l as [|x l IH]; simpl; [tauto|].
  destruct (isin x f) eqn:E; simpl; [discriminate|].
  intros H [<-|Hd]; auto.
Qed.

(** Every pending date with imagery falls into a batch. *)
Lemma groups_cover (P : Q) (algo : Z) (dateList availableDates : list date)
    (gs : list (list date)) (d : date) :
  (0 < P)%Q ->
  Scheduler.groups P algo dateList availableDates = Some gs ->
  In d dateList -> isin d availableDates = true ->
  exists g, In g gs /\ In d g.
Proof.
  intros HP E Hd Ha.
  set (f := Scheduler.filteredDateList dateList availableDates).
  assert (Hf : In d f) by (apply filter_In; auto).
  apply groups_Some in E. fold f in E.
  destruct E as [cap [[E _]|[Hcap [Hn ->]]]]; [rewrite E in Hf; destruct Hf|].
  set (n := Scheduler.nSimImgs P cap) in *.
  assert (Hpos : 0 < n).
  { unfold n, Scheduler.nSimImgs. pose proof (maxNImgs_pos P HP).
    pose proof (nSimImgs_of_pos _ _ Hcap). lia. }
  set (ng := Z.to_nat (Scheduler.ceil_div (Z.of_nat (length f)) n)).
  destruct (make_groups_spec n f ng dateList ltac:(lia)) as [rest [Hsplit [_ Hend]]].
  assert (Hin : In d (concat (Scheduler.make_groups ng n f dateList))).
  { rewrite Hsplit in Hd. apply in_app_iff in Hd. destruct Hd as [Hd|Hd]; auto.
    destruct Hend as [->|Hend]; [destruct Hd|]. exfalso.
    pose proof (ceil_div_bound (Z.of_nat (length f)) n Hpos) as Hb.
    assert (Hng : Z.of_nat ng = Scheduler.ceil_div (Z.of_nat (length f)) n).
    { unfold ng. apply Z2Nat.id. nia. }
    assert (Hlen : length f = n_available f dateList).
    { unfold f at 1. rewrite filtered_length. symmetry.
      apply n_available_filtered. apply incl_refl. }
    rewrite Hsplit, n_available_app in Hlen.
    assert (Hz : n_available f rest = 0%nat) by nia.
    assert (isin d f = false) by (eapply n_available_zero; eauto).
    assert (isin d f = true) by (apply isin_In; exact Hf). congruence. }
  apply in_concat in Hin. destruct Hin as [g [Hg Hdg]]. exists g. auto.
Qed.

End Coverage.

(** ** Two update runs in a row *)

Section Reach.

Import Writer Run.

Lemma fold_left_reach {A B : Type} (R Q : A -> Prop) (f : A -> B -> A) (l : list B) (b : B) :
  In b l ->
  (forall a x, R a -> R (f a x)) ->
  (forall a x, Q a -> Q (f a x)) ->
  (forall a, R a -> Q (f a b)) ->
  forall a, R a -> Q (fold_left f l a).
Proof.
  intros Hb HR HQ Hreach. induction l as [|x l IH]; intros a Ha; [destruct Hb|].
  simpl. destruct Hb as [->|Hb].
  - apply (fold_left_inv Q); auto.
  - apply IH; auto.
Qed.

Lemma per_date_nil (r : date -> option values_t) (batch : list date) :
  (forall d, In d batch -> r d = None) -> per_date r batch = [].
Proof.
  unfold per_date. induction batch as [|x batch IH]; intros H; simpl; auto.
  rewrite (H x) by (left; auto). simpl. apply IH. intros d Hd. apply H. right. exact Hd.
Qed.

Lemma per_date_in (r : date -> option values_t) (batch : list date) (d : date) :
  In d batch -> r d <> None -> in_result d (per_date r batch) = true.
Proof.
  intros Hd Hr. apply isin_In. unfold per_date. apply in_map_iff.
  destruct (r d) as [vs|] eqn:E; [|contradiction].
  exists (d, vs). split; auto. apply in_flat_map. exists d. split; auto.
  rewrite E. left. reflexivity.
Qed.

Lemma dates_of_records (df : list TimeSeriesRow) (id : Z) (d : date) :
  In d (dates_of df id) <-> records_of df id d <> [].
Proof.
  unfold dates_of. rewrite in_map_iff. split.
  - intros [r [Hd Hr]]. apply filter_In in Hr. destruct Hr as [Hr Hid].
    assert (In r (records_of df id d)).
    { apply records_of_In. apply Z.eqb_eq in Hid. auto. }
    intros E. rewrite E in H. destruct H.
  - intros H. destruct (records_of df id d) as [|r recs] eqn:E; [contradiction|].
    assert (Hr : In r (records_of df id d)) by (rewrite E; left; auto).
    apply records_of_In in Hr. destruct Hr as (Hin & Hid & Hd).
    exists r. split; auto. apply filter_In. split; auto. apply Z.eqb_eq. exact Hid.
Qed.

(** Having a record of a date is kept by every step of the writer. *)
Lemma write_date_keeps_record ev mode earliest latest m st d' (id : Z) (d : date) :
  records_of (timeSeriesDF (fst st)) id d <> [] ->
  records_of (timeSeriesDF (fst (write_date ev mode earliest latest m st d'))) id d <> [].
Proof.
  destruct st as [s result]. cbn [fst]. intros H.
  destruct (write_date_effect ev mode earliest latest m s result d')
    as (_ & _ & _ & _ & [(_ & _ & _ & F & _)|[(r & _ & _ & F & _)|(_ & _ & _ & E)]]).
  - rewrite F, records_of_app. destruct (records_of (timeSeriesDF s) id d); [contradiction|].
    discriminate.
  - rewrite F. exact H.
  - rewrite E. exact H.
Qed.

(** With an empty result and outside overwrite mode a batch writes no
    data. *)
Lemma write_date_empty_result ev mode earliest latest m st d :
  mode <> 4 -> snd st = [] ->
  snd (write_date ev mode earliest latest m st d) = [] /\
  DATA (fst (write_date ev mode earliest latest m st d)) = DATA (fst st).
Proof.
  intros Hm Hr. destruct st as [s result]. cbn [fst snd] in *. subst result.
  assert (Hnil : forall rows : list DataRow,
             map DATAVALUE rows = map snd (saved_values [] d) -> rows = []).
  { intros rows H. destruct rows; [reflexivity|discriminate]. }
  destruct (write_date_effect ev mode earliest latest m s [] d)
    as (K & _ & _ & _ & [(_ & _ & _ & _ & _ & _ & rows & D & _ & V)
                        |[(r & _ & _ & _ & _ & _ & rows & D & _ & V)|(_ & _ & _ & E)]]).
  - split; [apply (map_eq_nil fst); exact K|].
    rewrite D, (Hnil rows V). apply app_nil_r.
  - split; [apply (map_eq_nil fst); exact K|].
    rewrite D, (Hnil rows V). destruct (Z.eqb_spec mode 4); [contradiction|]. apply app_nil_r.
  - rewrite E. auto.
Qed.

Lemma write_batch_empty_result ev mode earliest latest start ids batch s :
  mode <> 4 ->
  DATA (write_batch ev mode earliest latest start ids batch [] s) = DATA s.
Proof.
  intros Hm. unfold write_batch.
  match goal with |- context [fold_left ?f ids ?st0] =>
    assert (G : snd (fold_left f ids st0) = [] /\ DATA (fst (fold_left f ids st0)) = DATA s)
  end.
  { apply (fold_left_inv (fun st => snd st = [] /\ DATA (fst st) = DATA s)); [|split; auto].
    intros st m _ [H1 H2]. unfold write_member.
    destruct (negb (skip_member (snd st) (hd 0 batch) (last batch 0) (earliest m) (latest m) start));
      [|split; auto].
    apply (fold_left_inv (fun st => snd st = [] /\ DATA (fst st) = DATA s)); [|split; auto].
    intros st' d _ [H3 H4].
    destruct (write_date_empty_result ev mode (earliest m) (latest m) m st' d Hm H3) as [H5 H6].
    split; auto. congruence. }
  apply G.
Qed.

(** A date with values gets a record for every member of the batch's
    group. *)
Lemma write_date_makes_record ev mode earliest latest m st d :
  in_result d (snd st) = true ->
  records_of (timeSeriesDF (fst (write_date ev mode earliest latest m st d))) m d <> [].
Proof.
  destruct st as [s result]. cbn [fst snd]. intros Hin.
  destruct (write_date_effect ev mode earliest latest m s result d)
    as (_ & _ & _ & _ & [(_ & _ & _ & F & _)|[(r & Hr & _ & F & _)|(_ & Hout & _)]]).
  - rewrite F, records_of_app, records_of_self.
    destruct (records_of (timeSeriesDF s) m d); discriminate.
  - rewrite F. intros E. rewrite E in Hr. destruct Hr.
  - congruence.
Qed.

Lemma write_date_keeps_keys ev mode earliest latest m st d' (d : date) :
  in_result d (snd st) = true ->
  in_result d (snd (write_date ev mode earliest latest m st d')) = true.
Proof.
  destruct st as [s result]. cbn [snd]. intros H.
  destruct (write_date_effect ev mode earliest latest m s result d') as (K & _).
  rewrite (in_result_keys d _ _ K). exact H.
Qed.

Lemma write_member_keeps_keys ev mode earliest latest start batch st m (d : date) :
  in_result d (snd st) = true ->
  in_result d (snd (write_member ev mode earliest latest start batch st m)) = true.
Proof.
  intros H. unfold write_member.
  destruct (negb (skip_member (snd st) (hd 0 batch) (last batch 0) (earliest m) (latest m) start));
    auto.
  apply (fold_left_inv (fun st' => in_result d (snd st') = true)); auto.
  intros. apply write_date_keeps_keys. assumption.
Qed.

Lemma write_member_keeps_record ev mode earliest latest start batch st m (id : Z) (d : date) :
  records_of (timeSeriesDF (fst st)) id d <> [] ->
  records_of (timeSeriesDF (fst (write_member ev mode earliest latest start batch st m))) id d
  <> [].
Proof.
  intros H. unfold write_member.
  destruct (negb (skip_member (snd st) (hd 0 batch) (last batch 0) (earliest m) (latest m) start));
    auto.
  apply (fold_left_inv (fun st' => records_of (timeSeriesDF (fst st')) id d <> [])); auto.
  intros. apply write_date_keeps_record. assumption.
Qed.

Lemma write_member_makes_record ev mode earliest latest start batch st m (d : date) :
  In d batch -> in_result d (snd st) = true ->
  records_of (timeSeriesDF (fst (write_member ev mode earliest latest start batch st m))) m d
  <> [].
Proof.
  intros Hd Hin. unfold write_member.
  assert (G : skip_member (snd st) (hd 0 batch) (last batch 0) (earliest m) (latest m) start
              = false).
  { unfold skip_member. destruct (snd st); [discriminate|reflexivity]. }
  rewrite G. cbn [negb].
  apply (fold_left_reach (fun st' => in_result d (snd st') = true)
           (fun st' => records_of (timeSeriesDF (fst st')) m d <> [])
           (write_date ev mode (earliest m) (latest m) m) batch d); auto.
  - intros. apply write_date_keeps_keys. assumption.
  - intros. apply write_date_keeps_record. assumption.
  - intros. apply write_date_makes_record. assumption.
Qed.

Lemma write_batch_makes_record ev mode earliest latest start ids batch result s
    (id : Z) (d : date) :
  In id ids -> In d batch -> in_result d result = true ->
  records_of (timeSeriesDF (write_batch ev mode earliest latest start ids batch result s)) id d
  <> [].
Proof.
  intros Hid Hd Hin. unfold write_batch.
  apply (fold_left_reach (fun st' => in_result d (snd st') = true)
           (fun st' => records_of (timeSeriesDF (fst st')) id d <> [])
           (write_member ev mode earliest latest start batch) ids id); auto.
  - intros. apply write_member_keeps_keys. assumption.
  - intros. apply write_member_keeps_record. assumption.
  - intros. apply write_member_makes_record; assumption.
Qed.

End Reach.

Section Monotone.

Import Writer Run.

(** A property of the view that survives an added record survives the
    writer. *)
Lemma write_date_view (Q : list TimeSeriesRow -> Prop) :
  (forall df row, Q df -> Q (df ++ [row])) ->
  forall ev mode earliest latest m st d,
    Q (timeSeriesDF (fst st)) ->
    Q (timeSeriesDF (fst (write_date ev mode earliest latest m st d))).
Proof.
  intros HQ ev mode earliest latest m [s result] d H. cbn [fst] in H.
  destruct (write_date_effect ev mode earliest latest m s result d)
    as (_ & _ & _ & _ & [(_ & _ & _ & F & _)|[(r & _ & _ & F & _)|(_ & _ & _ & E)]]).
  - rewrite F. apply HQ. exact H.
  - rewrite F. exact H.
  - rewrite E. exact H.
Qed.

Lemma process_batch_view (Q : list TimeSeriesRow -> Prop) :
  (forall df row, Q df -> Q (df ++ [row])) ->
  forall e mode leader members earliest latest start s batch,
    Q (timeSeriesDF s) ->
    Q (timeSeriesDF (process_batch e mode leader members earliest latest start s batch)).
Proof.
  intros HQ e mode leader members earliest latest start s batch H.
  apply (process_batch_inv members (fun s => Q (timeSeriesDF s))); auto.
  - intros. apply write_date_view; auto.
  - apply incl_refl.
Qed.

Lemma process_group_view (Q : list TimeSeriesRow -> Prop) :
  (forall df row, Q df -> Q (df ++ [row])) ->
  forall e mode leader group pixels s s',
    Q (timeSeriesDF s) ->
    process_group e mode leader group pixels s = Some s' ->
    Q (timeSeriesDF s').
Proof.
  intros HQ e mode leader group pixels s s' H E.
  apply (process_group_inv (map DEMANDID group) (fun s => Q (timeSeriesDF s))) in E; auto.
  - intros. apply write_date_view; auto.
  - apply incl_refl.
Qed.

Lemma rows_loop_view (Q : list TimeSeriesRow -> Prop) :
  (forall df row, Q df -> Q (df ++ [row])) ->
  forall e df rows already s s',
    Q (timeSeriesDF s) ->
    rows_loop e df rows already s = Some s' ->
    Q (timeSeriesDF s').
Proof.
  intros HQ e df rows already s s' H E.
  apply (rows_loop_inv (map DEMANDID df) (fun s => Q (timeSeriesDF s))) in E; auto.
  - intros. apply write_date_view; auto.
  - apply incl_refl.
Qed.

Lemma keeps_record_step (id : Z) (d : date) (df : list TimeSeriesRow) (row : TimeSeriesRow) :
  records_of df id d <> [] -> records_of (df ++ [row]) id d <> [].
Proof.
  intros H. rewrite records_of_app. destruct (records_of df id d); [contradiction|discriminate].
Qed.

Lemma complete_for_step (r : date -> option values_t) (ids : list Z) (start stop : date)
    (df : list TimeSeriesRow) (row : TimeSeriesRow) :
  complete_for r ids start stop df -> complete_for r ids start stop (df ++ [row]).
Proof.
  intros H d id Hd Hr Hid. apply keeps_record_step. apply H; auto.
Qed.

Lemma all_complete_step e r df ls (view : list TimeSeriesRow) (row : TimeSeriesRow) :
  all_complete e r df ls view -> all_complete e r df ls (view ++ [row]).
Proof.
  intros H leader start stop Hl Hs He. apply complete_for_step. eapply H; eauto.
Qed.

(** The writer adds to the view what it adds to the table. *)
Lemma write_date_view_sound ev mode earliest latest m st d :
  view_sound (fst st) -> view_sound (fst (write_date ev mode earliest latest m st d)).
Proof.
  destruct st as [s result]. cbn [fst]. unfold view_sound. intros H.
  destruct (write_date_effect ev mode earliest latest m s result d)
    as (_ & _ & _ & _ & [(_ & _ & T & F & _)|[(r & _ & T & F & _)|(_ & _ & _ & E)]]).
  - rewrite T, F. apply incl_app; [apply incl_appl; exact H|apply incl_appr, incl_refl].
  - rewrite T, F. exact H.
  - rewrite E. exact H.
Qed.

(** The writer only adds to the table of records. *)
Lemma write_date_table_grows (T0 : list TimeSeriesRow) ev mode earliest latest m st d :
  (exists added, TIMESERIES (fst st) = T0 ++ added) ->
  exists added, TIMESERIES (fst (write_date ev mode earliest latest m st d)) = T0 ++ added.
Proof.
  destruct st as [s result]. cbn [fst]. intros [added H].
  destruct (write_date_effect ev mode earliest latest m s result d)
    as (_ & _ & _ & _ & [(_ & _ & T & _)|[(r & _ & T & _)|(_ & _ & _ & E)]]).
  - rewrite T, H, <- app_assoc. eexists. reflexivity.
  - rewrite T, H. eexists. reflexivity.
  - rewrite E. simpl. eauto.
Qed.

Lemma write_date_keeps_demands (D : list Demand) ev mode earliest latest m st d :
  DEMANDS (fst st) = D -> DEMANDS (fst (write_date ev mode earliest latest m st d)) = D.
Proof.
  destruct st as [s result]. cbn [fst]. intros H.
  destruct (write_date_effect ev mode earliest latest m s result d) as (_ & E & _).
  rewrite E. exact H.
Qed.

End Monotone.

Section GroupTwice.

Import Writer Run.

Variable e : Env.
Variable avail : Demand -> date -> bool.
Variable r : Demand -> list Z -> date -> option values_t.
Hypothesis provider : answers_by_date e avail r.

(** What [process_group] does, spelled out. *)
Lemma process_group_Some mode leader group pixels s s' :
  process_group e mode leader group pixels s = Some s' ->
  exists start stop gs,
    Planner.startDate (collectionStartDate e (DEMANDPRODUCTID leader))
                      (map DEMANDSTARTDATE group) = Some start /\
    Planner.endDate (map DEMANDENDDATE group) = Some stop /\
    let ids := map DEMANDID group in
    let dl := Planner.dateList mode (date_range start stop) (timeSeriesDF s) ids in
    let nonempty := (0 <? length dl)%nat in
    Scheduler.groups pixels (DEMANDPROCALGOID leader) dl
                     (if nonempty then getAvailableDates e leader dl else []) = Some gs /\
    s' = fold_left (process_batch e mode leader ids
                      (Planner.earliestDateRecord (timeSeriesDF s) start)
                      (Planner.latestDateRecord (timeSeriesDF s) start) start)
                   gs
                   (if nonempty then log_event (AvailableDates (DEMANDID leader) dl) s else s).
Proof.
  unfold process_group.
  destruct (Planner.startDate _ _) as [start|]; [|discriminate].
  destruct (Planner.endDate _) as [stop|]; [|discriminate].
  intros E. exists start, stop. cbv zeta.
  destruct (0 <? length (Planner.dateList mode (date_range start stop) (timeSeriesDF s)
                                          (map DEMANDID group)))%nat;
    cbv beta iota zeta in E;
    (destruct (Scheduler.groups _ _ _ _) as [gs|]; [|discriminate]);
    injection E as <-; exists gs; auto.
Qed.

(** When every member already has a record of every day with values, an
    update of the group adds no data. *)
Lemma group_no_data leader group pixels s s' start stop :
  process_group e 3 leader group pixels s = Some s' ->
  Planner.startDate (collectionStartDate e (DEMANDPRODUCTID leader))
                    (map DEMANDSTARTDATE group) = Some start ->
  Planner.endDate (map DEMANDENDDATE group) = Some stop ->
  complete_for (r leader (map DEMANDID group)) (map DEMANDID group) start stop
               (timeSeriesDF s) ->
  DATA s' = DATA s.
Proof.
  intros E Hs He Hc. destruct provider as (Hret & Hav & Hcons).
  apply process_group_Some in E. destruct E as (start' & stop' & gs & Hs' & He' & Hg & ->).
  assert (start' = start) by congruence. assert (stop' = stop) by congruence. subst.
  cbv zeta in Hg.
  set (dl := Planner.dateList 3 (date_range start stop) (timeSeriesDF s) (map DEMANDID group)) in *.
  apply (fold_left_inv (fun s0 => DATA s0 = DATA s)).
  - intros a g Hin Ha. unfold process_batch. rewrite Hret.
    rewrite per_date_nil.
    + rewrite write_batch_empty_result by lia. exact Ha.
    + intros d Hd.
      assert (Hdl : In d dl) by (eapply groups_incl; eauto).
      apply dateList_update_In in Hdl.
      destruct Hdl as [Hrange [id [Hid Hno]]].
      destruct (r leader (map DEMANDID group) d) as [vs|] eqn:Er; auto.
      exfalso. apply Hno. apply dates_of_records. apply Hc; auto. congruence.
  - destruct (0 <? length dl)%nat; reflexivity.
Qed.

(** After an update of the group, every member has a record of every day
    of the span the provider has values for. *)
Lemma group_completes leader group pixels s s' start stop :
  (0 < pixels)%Q ->
  process_group e 3 leader group pixels s = Some s' ->
  Planner.startDate (collectionStartDate e (DEMANDPRODUCTID leader))
                    (map DEMANDSTARTDATE group) = Some start ->
  Planner.endDate (map DEMANDENDDATE group) = Some stop ->
  complete_for (r leader (map DEMANDID group)) (map DEMANDID group) start stop
               (timeSeriesDF s').
Proof.
  intros HP E Hs He d id Hd Hr Hid. destruct provider as (Hret & Hav & Hcons).
  pose proof E as E0.
  apply process_group_Some in E. destruct E as (start' & stop' & gs & Hs' & He' & Hg & Es').
  assert (start' = start) by congruence. assert (stop' = stop) by congruence. subst start' stop'.
  cbv zeta in Hg, Es'.
  set (ids := map DEMANDID group) in *.
  set (dl := Planner.dateList 3 (date_range start stop) (timeSeriesDF s) ids) in *.
  destruct (in_dec Z.eq_dec d dl) as [Hdl|Hdl].
  - assert (Hne : (0 <? length dl)%nat = true).
    { apply Nat.ltb_lt. destruct dl; [destruct Hdl|simpl; lia]. }
    rewrite Hne in Hg, Es'. rewrite Hav in Hg.
    assert (Ha : isin d (filter (avail leader) dl) = true).
    { apply isin_In. apply filter_In. split; auto. eapply Hcons; eauto. }
    destruct (groups_cover _ _ _ _ _ d HP Hg Hdl Ha) as [g [Hg1 Hg2]].
    rewrite Es'.
    apply (fold_left_reach (fun _ => True)
             (fun s0 => records_of (timeSeriesDF s0) id d <> [])
             (process_batch e 3 leader ids
                (Planner.earliestDateRecord (timeSeriesDF s) start)
                (Planner.latestDateRecord (timeSeriesDF s) start) start) gs g); auto.
    + intros a x Hq.
      apply (process_batch_view (fun df => records_of df id d <> [])); auto.
      intros. apply keeps_record_step. assumption.
    + intros a _. unfold process_batch. rewrite Hret.
      apply write_batch_makes_record; auto. apply per_date_in; auto.
  - assert (H0 : records_of (timeSeriesDF s) id d <> []).
    { apply dates_of_records.
      destruct (in_dec Z.eq_dec d (dates_of (timeSeriesDF s) id)) as [H|H]; auto.
      exfalso. apply Hdl. apply dateList_update_In.
      split; auto. exists id. auto. }
    apply (process_group_view (fun df => records_of df id d <> [])) in E0; auto.
    intros. apply keeps_record_step. assumption.
Qed.

End GroupTwice.

Section RunTwice.

Import Writer Run.

Variable e : Env.
Variable avail : Demand -> date -> bool.
Variable r : Demand -> list Z -> date -> option values_t.
Hypothesis update_mode : running_mode e = 3.
Hypothesis provider : answers_by_date e avail r.
Hypothesis pixels_pos : forall leader pixels, nPixelsInAoI e leader = Some pixels -> (0 < pixels)%Q.

Variable df : list Demand.
Hypothesis standing : forall dm, In dm df -> DEMANDSTATUS dm <= 1.

Lemma standing_mode (leader : Demand) :
  In leader df ->
  (DEMANDSTATUS leader >? 1) = false /\ demandRunningMode e (DEMANDSTATUS leader) = 3.
Proof.
  intros H. specialize (standing leader H).
  assert (E : (DEMANDSTATUS leader >? 1) = false) by (rewrite Z.gtb_ltb; apply Z.ltb_ge; lia).
  split; auto. unfold demandRunningMode. rewrite E. simpl. exact update_mode.
Qed.

(** The first run leaves the group of every leader complete, and the
    demand table as it was. *)
Lemma first_run_completes (rows : list nat) : forall already s s1,
  rows_loop e df rows already s = Some s1 ->
  all_complete e r df (leaders e df rows already) (timeSeriesDF s1) /\
  DEMANDS s1 = DEMANDS s.
Proof.
  induction rows as [|i rows IH]; intros already s s1; simpl.
  - intros E. injection E as <-. split; auto. intros leader start stop [].
  - destruct (existsb (Nat.eqb i) already); [apply IH|].
    destruct (nth_error df i) as [leader|] eqn:En; [|discriminate].
    destruct (standing_mode leader (nth_error_In _ _ En)) as [E1 E2].
    rewrite E1, E2. simpl Z.ltb. cbv iota.
    destruct (nPixelsInAoI e leader) as [pixels|] eqn:Ep.
    + destruct (process_group e 3 leader _ pixels s) as [s2|] eqn:Eg; [|discriminate].
      intros E. destruct (IH _ _ _ E) as [H1 H2]. split.
      * intros l start stop [<-|Hl] Hs He.
        -- apply (rows_loop_view
                    (complete_for (r leader (map DEMANDID (group_of df leader)))
                                  (map DEMANDID (group_of df leader)) start stop)) in E; auto.
           ++ intros. apply complete_for_step. assumption.
           ++ eapply group_completes; eauto.
        -- eapply H1; eauto.
      * rewrite H2.
        apply (process_group_inv (map DEMANDID (take_rows df (which (map (same_key leader) df))))
                 (fun s0 => DEMANDS s0 = DEMANDS s)) in Eg; auto.
        -- intros. apply write_date_keeps_demands. assumption.
        -- apply incl_refl.
    + intros E. destruct (IH _ _ _ E) as [H1 H2]. split; auto.
Qed.

(** A run that starts with every group complete adds no data. *)
Lemma complete_run_no_data (rows : list nat) : forall already s s2,
  all_complete e r df (leaders e df rows already) (timeSeriesDF s) ->
  rows_loop e df rows already s = Some s2 ->
  DATA s2 = DATA s.
Proof.
  induction rows as [|i rows IH]; intros already s s2; simpl.
  - intros _ E. injection E as <-. reflexivity.
  - destruct (existsb (Nat.eqb i) already); [apply IH|].
    destruct (nth_error df i) as [leader|] eqn:En; [|discriminate].
    destruct (standing_mode leader (nth_error_In _ _ En)) as [E1 E2].
    rewrite E1, E2. simpl Z.ltb. cbv iota.
    destruct (nPixelsInAoI e leader) as [pixels|] eqn:Ep.
    + intros Hc. destruct (process_group e 3 leader _ pixels s) as [s1|] eqn:Eg; [|discriminate].
      intros E.
      assert (D1 : DATA s1 = DATA s).
      { pose proof Eg as Eg'. apply process_group_Some in Eg'.
        destruct Eg' as (start & stop & gs & Hs & He & _).
        eapply group_no_data; eauto. apply Hc; auto. left. reflexivity. }
      rewrite <- D1. change (3 <? 5) with true in E. cbv iota in E.
      eapply IH; [|exact E].
      apply (process_group_view
               (all_complete e r df
                  (leaders e df rows (already ++ which (map (same_key leader) df))))) in Eg.
      * exact Eg.
      * intros. apply all_complete_step. assumption.
      * intros l start stop Hl. apply Hc. right. exact Hl.
    + intros Hc E. change (3 <? 5) with true in E. cbv iota in E.
      apply (IH _ (set_anyError true s) _ Hc) in E. exact E.
Qed.

End RunTwice.

Section Idempotence.

Import Writer Run.

Lemma demandsDF_incl (e : Env) (s : State) (dm : Demand) :
  In dm (demandsDF e s) ->
  In dm (DEMANDS s) /\
  In (DEMANDID dm) (map DEMANDID (filter (fun d => DEMANDSTATUS d >? 0) (DEMANDS s))).
Proof.
  unfold demandsDF. intros H. apply filter_In in H. destruct H as [H _].
  split; [apply filter_In in H; tauto|]. apply in_map. exact H.
Qed.

Lemma load_view_sound (s : State) : view_sound (load s).
Proof. unfold view_sound. simpl. apply incl_filter. Qed.

Lemma rows_loop_view_sound e df rows already s s' :
  view_sound s -> rows_loop e df rows already s = Some s' -> view_sound s'.
Proof.
  intros H E.
  apply (rows_loop_inv (map DEMANDID df) view_sound) in E; auto.
  - intros. apply write_date_view_sound. assumption.
  - apply incl_refl.
Qed.

Lemma rows_loop_table_grows e df rows already s s' :
  rows_loop e df rows already s = Some s' ->
  exists added, TIMESERIES s' = TIMESERIES s ++ added.
Proof.
  intros E.
  apply (rows_loop_inv (map DEMANDID df)
           (fun s0 => exists added, TIMESERIES s0 = TIMESERIES s ++ added)) in E; auto.
  - intros. apply write_date_table_grows. assumption.
  - apply incl_refl.
  - exists []. rewrite app_nil_r. reflexivity.
Qed.

(** Completeness passes from the view at the end of a run to the view the
    next run loads. *)
Lemma all_complete_reload e r (s : State) ls :
  view_sound s ->
  all_complete e r (demandsDF e s) ls (timeSeriesDF s) ->
  all_complete e r (demandsDF e s) ls (timeSeriesDF (load s)).
Proof.
  intros Hv H leader start stop Hl Hs He d id Hd Hr Hid.
  specialize (H leader start stop Hl Hs He d id Hd Hr Hid).
  destruct (records_of (timeSeriesDF s) id d) as [|row recs] eqn:E; [contradiction|].
  assert (Hrow : In row (records_of (timeSeriesDF s) id d)) by (rewrite E; left; auto).
  apply records_of_In in Hrow. destruct Hrow as (Hin & Hm & Hdate).
  assert (In row (records_of (timeSeriesDF (load s)) id d)).
  { apply records_of_In. repeat split; auto. simpl. apply filter_In. split.
    - apply Hv. exact Hin.
    - apply isin_In. rewrite Hm.
      apply in_map_iff in Hid. destruct Hid as [dm [<- Hdm]].
      apply take_rows_incl in Hdm. apply demandsDF_incl in Hdm. tauto. }
  intros E'. rewrite E' in H0. destruct H0.
Qed.

(** Two update runs in a row, both returning. *)
Lemma two_updates (e : Env) (avail : Demand -> date -> bool)
    (r : Demand -> list Z -> date -> option values_t) (s s1 s2 : State) :
  running_mode e = 3 ->
  (forall dm, In dm (DEMANDS s) -> DEMANDSTATUS dm <= 1) ->
  answers_by_date e avail r ->
  (forall leader pixels, nPixelsInAoI e leader = Some pixels -> (0 < pixels)%Q) ->
  databaseUpdate e s = Some s1 ->
  databaseUpdate e s1 = Some s2 ->
  DATA s2 = DATA s1 /\
  (exists stubs, TIMESERIES s2 = TIMESERIES s1 ++ stubs) /\
  (unique_records (TIMESERIES s1) -> unique_records (TIMESERIES s2)).
Proof.
  intros Hmode Hst Hprov Hpix E1 E2. unfold databaseUpdate in E1, E2.
  assert (Hstand : forall dm, In dm (demandsDF e s) -> DEMANDSTATUS dm <= 1).
  { intros dm Hdm. apply Hst. apply demandsDF_incl in Hdm. tauto. }
  destruct (first_run_completes e avail r Hmode Hprov Hpix (demandsDF e s) Hstand
              _ _ _ _ E1) as [Hc Hd].
  assert (Hdf : demandsDF e s1 = demandsDF e s).
  { unfold demandsDF. rewrite Hd. reflexivity. }
  pose proof (rows_loop_view_sound _ _ _ _ _ _ (load_view_sound s) E1) as Hv.
  rewrite <- Hdf in Hc. apply (all_complete_reload e r s1 _ Hv) in Hc.
  split; [|split].
  - rewrite Hdf in *.
    apply (complete_run_no_data e avail r Hmode Hprov (demandsDF e s) Hstand _ _ _ _ Hc) in E2.
    exact E2.
  - apply rows_loop_table_grows in E2. exact E2.
  - intros Hu.
    set (ids := map DEMANDID (filter (fun d => DEMANDSTATUS d >? 0) (DEMANDS s1))).
    apply (rows_loop_inv ids (records_inv ids)) in E2.
    + apply E2.
    + intros ev s0 [H1 H2]. split; auto.
    + intros b s0 [H1 H2]. split; auto.
    + intros x s0 [H1 H2]. split; auto.
    + intros x s0 [H1 H2]. split; auto.
    + intros. apply write_date_records_inv; auto.
    + intros x Hx. apply in_map_iff in Hx. destruct Hx as [dm [<- Hdm]].
      apply demandsDF_incl in Hdm. tauto.
    + apply load_records_inv. exact Hu.
Qed.

End Idempotence.

(** ** A run completes *)

Section Totality.

Import Writer Run.

Lemma same_key_refl (dm : Demand) : same_key dm dm = true.
Proof. unfold same_key. rewrite !Z.eqb_refl, String.eqb_refl. reflexivity. Qed.

Lemma group_of_filter (df : list Demand) (leader : Demand) :
  group_of df leader = filter (same_key leader) df.
Proof. apply take_rows_which. Qed.

Lemma groups_total (P : Q) (algo cap : Z) (dateList availableDates : list date) :
  (0 < P)%Q -> Scheduler.nSimImgs_of algo = Some cap ->
  exists gs, Scheduler.groups P algo dateList availableDates = Some gs.
Proof.
  intros HP Hcap. unfold Scheduler.groups.
  destruct (length (Scheduler.filteredDateList dateList availableDates) =? 0)%nat; [eauto|].
  destruct (Qeq_bool P 0) eqn:E.
  - apply Qeq_bool_eq in E. rewrite E in HP. discriminate.
  - rewrite Hcap.
    assert (0 < Scheduler.nSimImgs P cap).
    { unfold Scheduler.nSimImgs. pose proof (maxNImgs_pos P HP).
      pose proof (nSimImgs_of_pos _ _ Hcap). lia. }
    destruct (Z.eqb_spec (Scheduler.nSimImgs P cap) 0); [lia|eauto].
Qed.

Lemma process_group_total e mode leader group pixels s :
  group <> [] -> (0 < pixels)%Q ->
  Scheduler.nSimImgs_of (DEMANDPROCALGOID leader) <> None ->
  exists s', process_group e mode leader group pixels s = Some s'.
Proof.
  intros Hg HP Hcap. unfold process_group.
  destruct group as [|dm group]; [contradiction|].
  destruct (Scheduler.nSimImgs_of (DEMANDPROCALGOID leader)) as [cap|] eqn:Ec; [|contradiction].
  assert (Hs : exists start, Planner.startDate (collectionStartDate e (DEMANDPRODUCTID leader))
                               (map DEMANDSTARTDATE (dm :: group)) = Some start).
  { unfold Planner.startDate. simpl.
    destruct (collectionStartDate e (DEMANDPRODUCTID leader)); simpl; eauto. }
  destruct Hs as [start ->].
  assert (He : exists stop, Planner.endDate (map DEMANDENDDATE (dm :: group)) = Some stop)
    by (unfold Planner.endDate; simpl; eauto).
  destruct He as [stop ->].
  match goal with |- context [if ?c then _ else _] => destruct c end; cbv beta iota zeta;
    match goal with |- context [Scheduler.groups ?a ?b ?c ?d] =>
      destruct (groups_total a b cap c d HP Ec) as [gs ->] end; eauto.
Qed.

Lemma rows_loop_total e df (rows : list nat) : forall already s,
  (forall i, In i rows -> (i < length df)%nat) ->
  (forall leader pixels, nPixelsInAoI e leader = Some pixels -> (0 < pixels)%Q) ->
  (forall dm, In dm df -> Scheduler.nSimImgs_of (DEMANDPROCALGOID dm) <> None) ->
  exists s', rows_loop e df rows already s = Some s'.
Proof.
  intros already s Hrows Hpix Halgo. revert already s.
  induction rows as [|i rows IH]; intros already s; simpl; [eauto|].
  assert (IH' : forall already s, exists s', rows_loop e df rows already s = Some s').
  { apply IH. intros j Hj. apply Hrows. right. exact Hj. }
  destruct (existsb (Nat.eqb i) already); [apply IH'|].
  destruct (nth_error df i) as [leader|] eqn:En.
  - destruct (demandRunningMode e (DEMANDSTATUS leader) <? 5).
    + destruct (nPixelsInAoI e leader) as [pixels|] eqn:Ep; [|apply IH'].
      match goal with |- context [process_group e ?m leader ?g pixels ?s0] =>
        destruct (process_group_total e m leader g pixels s0) as [s2 ->] end; auto.
      * fold (group_of df leader). rewrite group_of_filter. intros E.
        assert (In leader (filter (same_key leader) df)).
        { apply filter_In. split; [eapply nth_error_In; eauto|apply same_key_refl]. }
        rewrite E in H. destruct H.
      * eapply Hpix; eauto.
      * apply Halgo. eapply nth_error_In; eauto.
    + destruct (demandRunningMode e (DEMANDSTATUS leader) =? 5); apply IH'.
  - exfalso. apply nth_error_None in En. specialize (Hrows i (or_introl eq_refl)). lia.
Qed.

(** A run in database mode completes when every area has pixels and every
    valid demand names a known processing algorithm. *)
Lemma databaseUpdate_total e s :
  (forall leader pixels, nPixelsInAoI e leader = Some pixels -> (0 < pixels)%Q) ->
  (forall dm, In dm (DEMANDS s) -> isValidRow e dm = true ->
              Scheduler.nSimImgs_of (DEMANDPROCALGOID dm) <> None) ->
  exists s', databaseUpdate e s = Some s'.
Proof.
  intros Hpix Halgo. unfold databaseUpdate. apply rows_loop_total; auto.
  - intros i Hi. apply in_seq in Hi. lia.
  - intros dm Hdm. unfold demandsDF in Hdm. apply filter_In in Hdm. destruct Hdm as [Hdm Hv].
    apply filter_In in Hdm. apply Halgo; tauto.
Qed.

End Totality.

Section IdempotenceOfUpdate.

Import Writer Run.

(** C1 (as amended): two update runs in a row over a catalog of standing
    demands, against a provider that answers date by date in both runs,
    both complete; the second adds no row to DATA, so that the Data row
    count is the same after it; it only adds rows at the end of TIMESERIES
    (the gap stubs), and never a second record for a demand and date. *)
Theorem second_update_adds_no_data (e : Env) (avail : Demand -> date -> bool)
    (r : Demand -> list Z -> date -> option values_t) (s : State) :
  running_mode e = 3 ->
  (forall dm, In dm (DEMANDS s) -> DEMANDSTATUS dm <= 1) ->
  answers_by_date e avail r ->
  (forall leader pixels, nPixelsInAoI e leader = Some pixels -> (0 < pixels)%Q) ->
  (forall dm, In dm (DEMANDS s) -> isValidRow e dm = true ->
              Scheduler.nSimImgs_of (DEMANDPROCALGOID dm) <> None) ->
  exists s1 s2,
    databaseUpdate e s = Some s1 /\
    databaseUpdate e s1 = Some s2 /\
    DATA s2 = DATA s1 /\
    length (DATA s2) = length (DATA s1) /\
    (exists stubs, TIMESERIES s2 = TIMESERIES s1 ++ stubs) /\
    (unique_records (TIMESERIES s1) -> unique_records (TIMESERIES s2)).
Proof.
  intros Hmode Hst Hprov Hpix Halgo.
  destruct (databaseUpdate_total e s Hpix Halgo) as [s1 E1].
  assert (Hd : DEMANDS s1 = DEMANDS s).
  { assert (Hstand : forall dm, In dm (demandsDF e s) -> DEMANDSTATUS dm <= 1).
    { intros dm Hdm. apply Hst. apply demandsDF_incl in Hdm. tauto. }
    pose proof E1 as E. unfold databaseUpdate in E.
    destruct (first_run_completes e avail r Hmode Hprov Hpix (demandsDF e s) Hstand
                _ _ _ _ E) as [_ H]. exact H. }
  destruct (databaseUpdate_total e s1 Hpix) as [s2 E2].
  { rewrite Hd. exact Halgo. }
  destruct (two_updates e avail r s s1 s2 Hmode Hst Hprov Hpix E1 E2) as (D & T & U).
  exists s1, s2. repeat split; auto. rewrite D. reflexivity.
Qed.

(** Demand 7 over the days 1 to 5, with values on the days 1, 3 and 5. *)
Lemma second_update_adds_no_data_witness :
  exists s1 s2,
    databaseUpdate
      (Sample.env 3 (fun _ => true)
                  (fun d => if isin d [1; 3; 5] then Some (Sample.values d) else None))
      (Sample.store [Sample.demand 7 1 1 5] [] [] 0) = Some s1 /\
    databaseUpdate
      (Sample.env 3 (fun _ => true)
                  (fun d => if isin d [1; 3; 5] then Some (Sample.values d) else None))
      s1 = Some s2 /\
    DATA s2 = DATA s1 /\
    length (DATA s2) = length (DATA s1) /\
    (exists stubs, TIMESERIES s2 = TIMESERIES s1 ++ stubs) /\
    (unique_records (TIMESERIES s1) -> unique_records (TIMESERIES s2)).
Proof.
  apply (second_update_adds_no_data
           (Sample.env 3 (fun _ => true)
                       (fun d => if isin d [1; 3; 5] then Some (Sample.values d) else None))
           (fun _ _ => true)
           (fun _ _ d => if isin d [1; 3; 5] then Some (Sample.values d) else None)
           (Sample.store [Sample.demand 7 1 1 5] [] [] 0)).
  - reflexivity.
  - intros dm [<-|[]]. simpl. lia.
  - repeat split.
  - intros leader pixels E. injection E as <-. reflexivity.
  - intros dm [<-|[]] _. simpl. discriminate.
Defined.

End IdempotenceOfUpdate.

(** ** The conditions of gap stamping hold in a run *)

Section GapConditions.

Import Writer Run.

Lemma sorted_app_inv (R : Z -> Z -> Prop) (a b : list Z) :
  StronglySorted R (a ++ b) -> StronglySorted R a /\ StronglySorted R b.
Proof.
  induction a as [|x a IH]; simpl; intros H.
  - split; [constructor|exact H].
  - inversion H as [|? ? Hs Hx]; subst. destruct (IH Hs) as [Ha Hb]. split; auto.
    constructor; auto. rewrite Forall_app in Hx. tauto.
Qed.

(** The batches of a group are ascending runs of days of its span. *)
Lemma scheduled_batches_sorted (P : Q) (algo mode start stop : Z) (df : list TimeSeriesRow)
    (ids : list Z) (availableDates : list date) (gs : list (list date)) (g : list date) :
  Scheduler.groups P algo (Planner.dateList mode (date_range start stop) df ids)
                   availableDates = Some gs ->
  In g gs ->
  StronglySorted Z.lt g /\ forall d, In d g -> start <= d <= stop.
Proof.
  intros E Hg.
  assert (Hdl : StronglySorted Z.lt (Planner.dateList mode (date_range start stop) df ids) /\
                incl (Planner.dateList mode (date_range start stop) df ids)
                     (date_range start stop)).
  { destruct (Z.eq_dec mode 3) as [->|H3]; [|destruct (Z.eq_dec mode 4) as [->|H4]].
    - rewrite dateList_update. split; [apply sorted_filter, date_range_sorted|apply incl_filter].
    - rewrite dateList_overwrite. split; [apply date_range_sorted|apply incl_refl].
    - unfold Planner.dateList.
      destruct (Z.eqb_spec mode 3); [contradiction|].
      destruct (Z.eqb_spec mode 4); [contradiction|].
      split; [constructor|intros x []]. }
  destruct Hdl as [Hs Hi]. split.
  - destruct (groups_slices _ _ _ _ _ E) as [rest Hsplit].
    apply in_split in Hg. destruct Hg as [g1 [g2 ->]].
    rewrite Hsplit, concat_app in Hs. simpl in Hs.
    apply sorted_app_inv in Hs. destruct Hs as [Hs _].
    apply sorted_app_inv in Hs. destruct Hs as [_ Hs].
    apply sorted_app_inv in Hs. tauto.
  - intros d Hd. apply date_range_In. apply Hi. eapply groups_incl; eauto.
Qed.

Lemma fold_max_ge (l : list Z) : forall x y, In y (x :: l) -> y <= fold_left Z.max l x.
Proof. intros x y H. apply (fold_max_spec l x). exact H. Qed.

(** At the start of a batch no id lies above the last id read from the
    table. *)
Lemma ids_bounded_batch_start (s : State) :
  view_sound s -> data_has_parents s ->
  ids_bounded (set_lastTimeSeriesId
                 (match sql_max (map TIMESERIESID (TIMESERIES s)) with
                  | None => 0
                  | Some m => m
                  end) s).
Proof.
  intros Hv Hp.
  assert (G : forall id, In id (map TIMESERIESID (TIMESERIES s)) ->
                         id <= match sql_max (map TIMESERIESID (TIMESERIES s)) with
                               | None => 0
                               | Some m => m
                               end).
  { intros id Hid. unfold sql_max.
    destruct (map TIMESERIESID (TIMESERIES s)) as [|x l]; [destruct Hid|].
    simpl. apply fold_max_ge. exact Hid. }
  split; simpl.
  - intros row Hrow. apply G. apply in_map. apply Hv. exact Hrow.
  - intros x Hx. apply G. apply Hp. exact Hx.
Qed.

Lemma write_date_ids_bounded ev mode earliest latest m st d :
  ids_bounded (fst st) -> ids_bounded (fst (write_date ev mode earliest latest m st d)).
Proof.
  destruct st as [s result]. cbn [fst]. intros [H2 H3].
  destruct (write_date_effect ev mode earliest latest m s result d)
    as (_ & _ & _ & _ & [(_ & _ & _ & F & L & _ & rows & D & Drows & _)
                        |[(row & Hr & _ & F & L & _ & rows & D & Drows & _)
                        |(_ & _ & _ & E)]]).
  - unfold ids_bounded. rewrite F, L, D. split.
    + intros x Hin. apply in_app_iff in Hin. destruct Hin as [Hin|[<-|[]]]; simpl; [|lia].
      specialize (H2 x Hin). lia.
    + intros x Hin. apply in_app_iff in Hin. destruct Hin as [Hin|Hin].
      * specialize (H3 x Hin). lia.
      * rewrite Forall_forall in Drows. rewrite (Drows x Hin). lia.
  - unfold ids_bounded. rewrite F, L, D. split; auto.
    intros x Hin. apply in_app_iff in Hin. destruct Hin as [Hin|Hin].
    + apply H3. destruct (mode =? 4); [apply filter_In in Hin; tauto|exact Hin].
    + rewrite Forall_forall in Drows. rewrite (Drows x Hin). apply H2.
      apply records_of_In in Hr. tauto.
  - rewrite E. split; auto.
Qed.

(** And none does at the start of any member's turn. *)
Lemma write_member_ids_bounded ev mode earliest latest start batch st m :
  ids_bounded (fst st) ->
  ids_bounded (fst (write_member ev mode earliest latest start batch st m)).
Proof.
  intros H. unfold write_member.
  destruct (negb (skip_member (snd st) (hd 0 batch) (last batch 0) (earliest m) (latest m) start));
    auto.
  apply (fold_left_inv (fun st' => ids_bounded (fst st'))); auto.
  intros. apply write_date_ids_bounded. assumption.
Qed.

End GapConditions.

(** ** Overwriting a batch *)

Section OverwriteBatch.

Import Writer Run.

Lemma fold_left_reach_once {A B : Type} (R Q : A -> Prop) (f : A -> B -> A) (l : list B) (b : B) :
  In b l -> NoDup l ->
  (forall a x, R a -> R (f a x)) ->
  (forall a x, x <> b -> R a -> Q a -> Q (f a x)) ->
  (forall a, R a -> Q (f a b)) ->
  forall a, R a -> R (fold_left f l a) /\ Q (fold_left f l a).
Proof.
  intros Hb Hn HR HQ Hreach a Ha.
  split; [apply (fold_left_inv R); auto|].
  destruct (in_split b l Hb) as [pre [post ->]].
  pose proof (NoDup_remove_2 _ _ _ Hn) as Hnot.
  rewrite fold_left_app. cbn [fold_left].
  assert (R1 : R (fold_left f pre a)) by (apply (fold_left_inv R); auto).
  assert (G : R (fold_left f post (f (fold_left f pre a) b)) /\
              Q (fold_left f post (f (fold_left f pre a) b))); [|apply G].
  apply (fold_left_inv (fun a0 => R a0 /\ Q a0)); auto.
  intros a0 x Hx [H1 H2]. split; auto. apply HQ; auto.
  intros ->. apply Hnot. apply in_or_app. right. exact Hx.
Qed.

Lemma records_of_other_key (id m m' : Z) (d d' : date) :
  m' <> m \/ d' <> d ->
  records_of [{| TIMESERIESID := id; TIMESERIESDEMANDID := m'; TIMESERIESDATE := d' |}] m d = [].
Proof.
  intros H. unfold records_of, is_record. simpl.
  destruct (Z.eqb_spec d' d); destruct (Z.eqb_spec m' m); simpl; auto.
  subst. destruct H; contradiction.
Qed.

Lemma data_of_filter_other (table : list DataRow) (i j : Z) :
  j <> i ->
  data_of (filter (fun x => negb (DATATIMESERIESID x =? j)) table) i = data_of table i.
Proof.
  intros H. unfold data_of. induction table as [|x table IH]; simpl; auto.
  destruct (Z.eqb_spec (DATATIMESERIESID x) j) as [E|E]; simpl.
  - destruct (Z.eqb_spec (DATATIMESERIESID x) i); [congruence|exact IH].
  - destruct (DATATIMESERIESID x =? i); [f_equal|]; exact IH.
Qed.

Lemma values_pop_idem (vs : values_t) (name : string) :
  values_pop (values_pop vs name) name = values_pop vs name.
Proof.
  unfold values_pop. induction vs as [|kv vs IH]; simpl; auto.
  destruct (negb (String.eqb (fst kv) name)) eqn:E; simpl; rewrite ?E; [f_equal|]; exact IH.
Qed.

Lemma values_pop_absent (vs : values_t) (name : string) :
  values_get vs name = None -> values_pop vs name = vs.
Proof.
  unfold values_pop. induction vs as [|[k v] vs IH]; simpl; auto.
  destruct (String.eqb k name); simpl; [discriminate|]. intros H. f_equal. auto.
Qed.

Lemma result_get_set (result : result_t) (d d' : date) (vs vs' : values_t) :
  result_get result d' = Some vs ->
  result_get (result_set result d' vs') d
  = if d' =? d then Some vs' else result_get result d.
Proof.
  induction result as [|[k v] result IH]; simpl; [discriminate|].
  destruct (Z.eqb_spec k d') as [->|Hk]; simpl.
  - intros _. destruct (Z.eqb_spec d' d); reflexivity.
  - intros H. destruct (Z.eqb_spec k d) as [->|Hd].
    + destruct (Z.eqb_spec d' d); [congruence|reflexivity].
    + apply IH. exact H.
Qed.

(** Saving the values of any date leaves the values of every date as they
    will be saved. *)
Lemma save_values_saved ev (result : result_t) (s : State) (d d' : date) :
  saved_values (snd (save_values ev result s d')) d = saved_values result d.
Proof.
  unfold save_values. destruct (in_result d' result); [|reflexivity].
  destruct (result_get result d') as [vs|] eqn:Eg; [|reflexivity].
  unfold saved_values.
  destruct (values_get vs "img_time") as [t|] eqn:Et; cbn [snd];
    rewrite (result_get_set result d d' vs _ Eg);
    destruct (Z.eqb_spec d' d) as [->|Hd]; auto; rewrite Eg.
  - apply values_pop_idem.
  - reflexivity.
Qed.

Lemma write_date_saved ev mode earliest latest m' (st : State * result_t) (d d' : date) :
  saved_values (snd (write_date ev mode earliest latest m' st d')) d = saved_values (snd st) d.
Proof. destruct st as [s result]. rewrite write_date_unfold. apply save_values_saved. Qed.

(** Every step of the batch keeps what holds around the record. *)
Lemma write_date_around_record ev mode earliest latest i m d view table vs m' st d' :
  view <> [] -> i = last (map TIMESERIESID view) 0 ->
  around_record i m d view table vs st ->
  around_record i m d view table vs (write_date ev mode earliest latest m' st d').
Proof.
  intros Hview Hi (H1 & H2 & H3 & H4 & H5 & H6).
  assert (Hle : i <= lastTimeSeriesId (fst st)).
  { destruct view as [|r0 recs]; [contradiction|].
    assert (Hin : In (last (r0 :: recs) r0) (records_of (timeSeriesDF (fst st)) m d)).
    { rewrite H3. apply last_In_nonempty. discriminate. }
    rewrite (last_map_nonempty TIMESERIESID (r0 :: recs) r0 0) in Hi by discriminate.
    subst i. apply H2. apply records_of_In in Hin. tauto. }
  pose proof (write_date_saved ev mode earliest latest m' st d d') as Hsaved.
  pose proof (write_date_keeps_keys ev mode earliest latest m' st d' d H6) as Hkeys.
  destruct st as [s result]. cbn [fst snd] in *.
  destruct (write_date_effect ev mode earliest latest m' s result d')
    as (_ & _ & _ & _ & [(Hr & _ & T & F & L & _)|[(r & _ & T & F & L & _)|(_ & _ & _ & E)]]).
  - assert (Hkey : m' <> m \/ d' <> d).
    { destruct (Z.eq_dec m' m) as [->|]; auto. destruct (Z.eq_dec d' d) as [->|]; auto.
      rewrite H3 in Hr. contradiction. }
    unfold around_record. cbn [fst snd].
    rewrite F, T, L, !records_of_app, records_of_other_key, !app_nil_r by exact Hkey.
    split; [|split; [|repeat split; auto; congruence]].
    + intros r0 Hin Hid. apply in_app_iff in Hin.
      destruct Hin as [Hin|[<-|[]]]; [apply (H1 r0 Hin Hid)|simpl in Hid; lia].
    + intros r0 Hin. apply in_app_iff in Hin. destruct Hin as [Hin|[<-|[]]]; simpl; [|lia].
      specialize (H2 r0 Hin). lia.
  - unfold around_record. cbn [fst snd]. rewrite F, T, L.
    split; [exact H1|]. split; [exact H2|]. repeat split; auto; congruence.
  - rewrite E. split; [exact H1|]. split; [exact H2|]. repeat split; auto.
Qed.

(** The data of the record are the new values once its own step is taken. *)
Lemma write_date_overwrites_record ev earliest latest i m d view table vs st :
  view <> [] -> i = last (map TIMESERIESID view) 0 ->
  around_record i m d view table vs st ->
  map DATAVALUE (data_of (DATA (fst (write_date ev 4 earliest latest m st d))) i) = map snd vs.
Proof.
  intros Hview Hi (_ & _ & H3 & _ & H5 & _). destruct st as [s result]. cbn [fst snd] in *.
  assert (Hr : records_of (timeSeriesDF s) m d <> []) by (rewrite H3; exact Hview).
  destruct (write_date_overwrite ev earliest latest m s result d Hr)
    as (_ & _ & _ & _ & new & _ & _ & V & D).
  rewrite H3 in D. rewrite <- Hi in D. rewrite D, V, H5. reflexivity.
Qed.

(** And they stay so through the steps of other members and dates. *)
Lemma write_date_keeps_overwritten ev mode earliest latest i m d view table vs m' st d'
    (new : list value) :
  view <> [] -> i = last (map TIMESERIESID view) 0 ->
  m' <> m \/ d' <> d ->
  around_record i m d view table vs st ->
  map DATAVALUE (data_of (DATA (fst st)) i) = new ->
  map DATAVALUE (data_of (DATA (fst (write_date ev mode earliest latest m' st d'))) i) = new.
Proof.
  intros Hview Hi Hkey (H1 & H2 & H3 & H4 & H5 & H6) Hnew.
  assert (Hle : i <= lastTimeSeriesId (fst st)).
  { destruct view as [|r0 recs]; [contradiction|].
    assert (Hin : In (last (r0 :: recs) r0) (records_of (timeSeriesDF (fst st)) m d)).
    { rewrite H3. apply last_In_nonempty. discriminate. }
    rewrite (last_map_nonempty TIMESERIESID (r0 :: recs) r0 0) in Hi by discriminate.
    subst i. apply H2. apply records_of_In in Hin. tauto. }
  destruct st as [s result]. cbn [fst snd] in *.
  destruct (write_date_effect ev mode earliest latest m' s result d')
    as (_ & _ & _ & _ & [(_ & _ & _ & _ & _ & _ & rows & D & Drows & _)
                        |[(r & Hr & _ & _ & _ & _ & rows & D & Drows & _)|(_ & _ & _ & E)]]).
  - rewrite D, data_of_app, (data_of_none rows i (lastTimeSeriesId s + 1)), app_nil_r; auto.
    lia.
  - apply records_of_In in Hr. destruct Hr as (Hin & Hm & Hd).
    assert (Hne : TIMESERIESID r <> i).
    { intros Eid. destruct (H1 r Hin Eid) as [A B]. destruct Hkey; congruence. }
    rewrite D, data_of_app, (data_of_none rows i (TIMESERIESID r)), app_nil_r by auto.
    destruct (mode =? 4); auto. rewrite data_of_filter_other; auto.
  - rewrite E. exact Hnew.
Qed.

Lemma write_member_around_record ev mode earliest latest start batch i m d view table vs st m' :
  view <> [] -> i = last (map TIMESERIESID view) 0 ->
  around_record i m d view table vs st ->
  around_record i m d view table vs (write_member ev mode earliest latest start batch st m').
Proof.
  intros Hview Hi H. unfold write_member.
  destruct (negb (skip_member (snd st) (hd 0 batch) (last batch 0) (earliest m') (latest m')
                              start)); auto.
  apply (fold_left_inv (around_record i m d view table vs)); auto.
  intros. apply write_date_around_record; auto.
Qed.

Lemma write_member_keeps_overwritten ev mode earliest latest start batch i m d view table vs
    st m' (new : list value) :
  view <> [] -> i = last (map TIMESERIESID view) 0 -> m' <> m ->
  around_record i m d view table vs st ->
  map DATAVALUE (data_of (DATA (fst st)) i) = new ->
  map DATAVALUE
    (data_of (DATA (fst (write_member ev mode earliest latest start batch st m'))) i) = new.
Proof.
  intros Hview Hi Hm HR HQ. unfold write_member.
  destruct (negb (skip_member (snd st) (hd 0 batch) (last batch 0) (earliest m') (latest m')
                              start)); auto.
  apply (fold_left_inv
           (fun st' => around_record i m d view table vs st' /\
                       map DATAVALUE (data_of (DATA (fst st')) i) = new)); auto.
  intros a x _ [H1 H2]. split.
  - apply write_date_around_record; auto.
  - eapply write_date_keeps_overwritten; eauto.
Qed.

Lemma write_member_overwrites_record ev earliest latest start batch i m d view table vs st :
  view <> [] -> i = last (map TIMESERIESID view) 0 ->
  NoDup batch -> In d batch ->
  around_record i m d view table vs st ->
  map DATAVALUE (data_of (DATA (fst (write_member ev 4 earliest latest start batch st m))) i)
  = map snd vs.
Proof.
  intros Hview Hi Hn Hd HR. unfold write_member.
  assert (G : skip_member (snd st) (hd 0 batch) (last batch 0) (earliest m) (latest m) start
              = false).
  { destruct HR as (_ & _ & _ & _ & _ & H6). unfold skip_member.
    destruct (snd st); [discriminate|reflexivity]. }
  rewrite G. cbn [negb].
  apply (fold_left_reach_once (around_record i m d view table vs)
           (fun st' => map DATAVALUE (data_of (DATA (fst st')) i) = map snd vs)
           (write_date ev 4 (earliest m) (latest m) m) batch d); auto.
  - intros. apply write_date_around_record; auto.
  - intros a x Hx H1 H2. eapply write_date_keeps_overwritten; eauto.
  - intros a H1. eapply write_date_overwrites_record; eauto.
Qed.

Lemma NoDup_map_eq {A B : Type} (f : A -> B) (l : list A) (x y : A) :
  NoDup (map f l) -> In x l -> In y l -> f x = f y -> x = y.
Proof.
  induction l as [|a l IH]; simpl; intros Hn Hx Hy E; [destruct Hx|].
  inversion Hn as [|? ? Hnot Hn']; subst.
  destruct Hx as [->|Hx]; destruct Hy as [->|Hy]; auto.
  - exfalso. apply Hnot. rewrite E. apply in_map. exact Hy.
  - exfalso. apply Hnot. rewrite <- E. apply in_map. exact Hx.
Qed.

(** C6: in overwrite mode (mode 4), take a member of the group and a date
    of the batch that has values in the result and a record of the member
    in the view.  After the batch is written the member has the same
    records of the date as before, no new one, and the Data rows under the
    id of the record carry the values just retrieved and nothing else:
    every earlier row of the record was deleted before they were
    inserted. *)
Theorem overwrite_replaces_data (ev : list string) (earliest latest : Z -> date) (start : date)
    (ids : list Z) (batch : list date) (result : result_t) (s : State) (m : Z) (d : date) :
  NoDup ids -> NoDup batch -> In m ids -> In d batch ->
  in_result d result = true ->
  view_sound s ->
  NoDup (map TIMESERIESID (TIMESERIES s)) ->
  records_of (timeSeriesDF s) m d <> [] ->
  let i := last (map TIMESERIESID (records_of (timeSeriesDF s) m d)) 0 in
  let s' := write_batch ev 4 earliest latest start ids batch result s in
  records_of (TIMESERIES s') m d = records_of (TIMESERIES s) m d /\
  map DATAVALUE (data_of (DATA s') i) = map snd (saved_values result d).
Proof.
  intros Hids Hbatch Hm Hd Hin Hv Hpk Hr i s'. subst s'. unfold write_batch.
  set (view := records_of (timeSeriesDF s) m d) in *.
  set (s0 := set_lastTimeSeriesId _ s).
  assert (HR : around_record i m d view (records_of (TIMESERIES s) m d)
                             (saved_values result d) (s0, result)).
  { unfold around_record. cbn [fst snd]. split; [|split; [|repeat split; auto]].
    - intros r Hrin Hid.
      destruct view as [|r0 recs] eqn:Eview; [contradiction|].
      assert (Hlast : In (last (r0 :: recs) r0) (records_of (timeSeriesDF s) m d)).
      { fold view. rewrite Eview. apply last_In_nonempty. discriminate. }
      apply records_of_In in Hlast. destruct Hlast as (Hl1 & Hl2 & Hl3).
      assert (r = last (r0 :: recs) r0); [|subst r; auto].
      apply (NoDup_map_eq TIMESERIESID (TIMESERIES s)); auto.
      rewrite Hid. unfold i. apply last_map_nonempty. discriminate.
    - intros r Hrin. simpl. unfold sql_max.
      assert (Hid : In (TIMESERIESID r) (map TIMESERIESID (TIMESERIES s)))
        by (apply in_map; apply Hv; exact Hrin).
      destruct (map TIMESERIESID (TIMESERIES s)) as [|x l]; [destruct Hid|].
      simpl. apply fold_max_ge. exact Hid. }
  destruct (fold_left_reach_once
              (around_record i m d view (records_of (TIMESERIES s) m d) (saved_values result d))
              (fun st' => map DATAVALUE (data_of (DATA (fst st')) i)
                          = map snd (saved_values result d))
              (write_member ev 4 earliest latest start batch) ids m Hm Hids) with (a := (s0, result))
    as [(_ & _ & _ & T & _) Q]; auto.
  - intros. apply write_member_around_record; auto.
  - intros a x Hx H1 H2. eapply write_member_keeps_overwritten; eauto.
  - intros a H1. eapply write_member_overwrites_record; eauto.
Qed.

Lemma overwrite_replaces_data_witness :
  let s := Sample.store [Sample.demand 7 1 1 3]
                        [Sample.record 1 7 1; Sample.record 2 7 2; Sample.record 3 7 3]
                        [Sample.datum 1 10; Sample.datum 2 20; Sample.datum 3 30] 3 in
  let s' := write_batch ["img_time"%string] 4 (fun _ => 1) (fun _ => 3) 1 [7] [2]
                        [(2, Sample.values 21)] s in
  records_of (TIMESERIES s') 7 2 = records_of (TIMESERIES s) 7 2 /\
  map DATAVALUE (data_of (DATA s') 2) = [Num (inject_Z 21)].
Proof.
  apply (overwrite_replaces_data ["img_time"%string] (fun _ => 1) (fun _ => 3) 1 [7] [2]
           [(2, Sample.values 21)]
           (Sample.store [Sample.demand 7 1 1 3]
                         [Sample.record 1 7 1; Sample.record 2 7 2; Sample.record 3 7 3]
                         [Sample.datum 1 10; Sample.datum 2 20; Sample.datum 3 30] 3)
           7 2).
  - repeat constructor; simpl; tauto.
  - repeat constructor; simpl; tauto.
  - left. reflexivity.
  - left. reflexivity.
  - reflexivity.
  - apply incl_refl.
  - simpl. repeat constructor; simpl; intuition discriminate.
  - simpl. discriminate.
Defined.

End OverwriteBatch.

(** ** Status overrides *)

Section StatusOverride.

Import Writer Run.

Lemma reset_status_spec (demandId : Z) (s : State) :
  history (reset_status demandId s) = history s ++ [StatusReset demandId] /\
  forall dm, In dm (DEMANDS (reset_status demandId s)) ->
             DEMANDID dm = demandId -> DEMANDSTATUS dm = 1.
Proof.
  split; [reflexivity|]. simpl. intros dm Hdm Hid.
  apply in_map_iff in Hdm. destruct Hdm as [dm0 [E Hin]].
  destruct (Z.eqb_spec (DEMANDID dm0) demandId) as [E0|E0]; subst dm; [reflexivity|].
  contradiction.
Qed.

Lemma write_date_keeps_history (H : list run_event) ev mode earliest latest m st d :
  (exists later, history (fst st) = H ++ later) ->
  exists later, history (fst (write_date ev mode earliest latest m st d)) = H ++ later.
Proof.
  destruct st as [s result]. cbn [fst]. intros Hs.
  destruct (write_date_effect ev mode earliest latest m s result d) as (_ & _ & E & _).
  rewrite E. exact Hs.
Qed.

(** The events of a run only grow. *)
Lemma rows_loop_history e df rows already s s' :
  rows_loop e df rows already s = Some s' ->
  exists later, history s' = history s ++ later.
Proof.
  intros E.
  apply (rows_loop_inv (map DEMANDID df)
           (fun s0 => exists later, history s0 = history s ++ later)) in E; auto.
  - intros ev s0 [later H]. simpl. rewrite H, <- app_assoc. eauto.
  - intros. apply write_date_keeps_history. assumption.
  - apply incl_refl.
  - exists []. rewrite app_nil_r. reflexivity.
Qed.

(** The demand that leads its group: when its status is above 1 the reset
    of the status is the first thing the loop does for it, before the
    query for available dates and before any retrieval of the group. *)
Lemma leader_reset_before_retrieval e df i rows already s s' leader :
  existsb (Nat.eqb i) already = false ->
  nth_error df i = Some leader ->
  1 < DEMANDSTATUS leader ->
  rows_loop e df (i :: rows) already s = Some s' ->
  exists later, history s' = history s ++ StatusReset (DEMANDID leader) :: later.
Proof.
  intros Hi Hn Hst. simpl. rewrite Hi, Hn.
  assert (E1 : (DEMANDSTATUS leader >? 1) = true) by (rewrite Z.gtb_ltb; apply Z.ltb_lt; lia).
  rewrite E1.
  assert (G : forall s2 rest already',
             (exists later, history s2 = history (reset_status (DEMANDID leader) s) ++ later) ->
             rows_loop e df rest already' s2 = Some s' ->
             exists later, history s' = history s ++ StatusReset (DEMANDID leader) :: later).
  { intros s2 rest already' [l1 H1] E. apply rows_loop_history in E. destruct E as [l2 H2].
    exists (l1 ++ l2). rewrite H2, H1. simpl. rewrite <- !app_assoc. reflexivity. }
  destruct (demandRunningMode e (DEMANDSTATUS leader) <? 5).
  - destruct (nPixelsInAoI e leader) as [pixels|].
    + destruct (process_group e _ leader _ pixels _) as [s2|] eqn:Eg; [|discriminate].
      apply G.
      apply (process_group_inv
               (map DEMANDID (take_rows df (which (map (same_key leader) df))))
               (fun s0 => exists later,
                            history s0 = history (reset_status (DEMANDID leader) s) ++ later))
        in Eg; auto.
      * intros ev s0 [later H]. simpl in *. rewrite H, <- app_assoc. eauto.
      * intros. apply write_date_keeps_history. assumption.
      * apply incl_refl.
      * exists []. rewrite app_nil_r. reflexivity.
    + apply G. exists []. rewrite app_nil_r. reflexivity.
  - destruct (demandRunningMode e (DEMANDSTATUS leader) =? 5); apply G.
    + exists [EstimationOnly (DEMANDID leader)]. reflexivity.
    + exists []. rewrite app_nil_r. reflexivity.
Qed.

End StatusOverride.

(** * Further properties of the code *)

(** ** The [which] helper (lines 341-348) *)

Section WhichFacts.

Lemma which_from_sorted (l : list bool) : forall k,
  StronglySorted lt (which_from k l) /\ Forall (fun i => (k <= i)%nat) (which_from k l).
Proof.
  induction l as [|b l IH]; intros k; simpl.
  - split; constructor.
  - destruct (IH (S k)) as [Hs Hb]. destruct b.
    + split.
      * constructor; [exact Hs|]. eapply Forall_impl; [|exact Hb]. simpl. intros; lia.
      * constructor; [lia|]. eapply Forall_impl; [|exact Hb]. simpl. intros; lia.
    + split; [exact Hs|]. eapply Forall_impl; [|exact Hb]. simpl. intros; lia.
Qed.

(** X1: [which] returns exactly the positions that hold a true entry, each
    once and in ascending order, so that there are as many of them as there
    are true entries. *)
Theorem which_positions (l : list bool) :
  (forall i, In i (which l) <-> nth_error l i = Some true) /\
  StronglySorted lt (which l) /\
  NoDup (which l) /\
  length (which l) = length (filter (fun b => b) l).
Proof.
  split; [|split; [|split]].
  - intros i. apply which_In.
  - apply which_from_sorted.
  - apply which_from_NoDup.
  - apply which_from_length.
Qed.

End WhichFacts.

(** ** The pending dates and their batches (lines 2207-2263) *)

Section PendingAndBatches.

(** X2: whatever the running mode, the pending dates of a group are days
    of its span in strictly ascending order, so that the first and the last
    date of the list are its earliest and its latest; in overwrite mode the
    list is the whole span, whatever is on record. *)
Theorem pending_dates_ascending (mode s e : Z) (df : list TimeSeriesRow) (ids : list Z) :
  StronglySorted Z.lt (Planner.dateList mode (date_range s e) df ids) /\
  (forall d, In d (Planner.dateList mode (date_range s e) df ids) -> s <= d <= e) /\
  Planner.dateList 4 (date_range s e) df ids = date_range s e.
Proof.
  assert (Hdl : StronglySorted Z.lt (Planner.dateList mode (date_range s e) df ids) /\
                incl (Planner.dateList mode (date_range s e) df ids) (date_range s e)).
  { destruct (Z.eq_dec mode 3) as [->|H3]; [|destruct (Z.eq_dec mode 4) as [->|H4]].
    - rewrite dateList_update. split; [apply sorted_filter, date_range_sorted|apply incl_filter].
    - rewrite dateList_overwrite. split; [apply date_range_sorted|apply incl_refl].
    - unfold Planner.dateList.
      destruct (Z.eqb_spec mode 3); [contradiction|].
      destruct (Z.eqb_spec mode 4); [contradiction|].
      split; [constructor|intros x []]. }
  destruct Hdl as [Hs Hi]. split; [exact Hs|]. split.
  - intros d Hd. apply date_range_In. apply Hi. exact Hd.
  - apply dateList_overwrite.
Qed.

Lemma groups_nonempty (P : Q) (algo : Z) (dateList availableDates : list date)
    (gs : list (list date)) (g : list date) :
  (0 < P)%Q ->
  Scheduler.groups P algo dateList availableDates = Some gs ->
  In g gs -> g <> [].
Proof.
  intros HP E Hg.
  set (f := Scheduler.filteredDateList dateList availableDates).
  apply groups_Some in E. fold f in E.
  destruct E as [cap [[_ ->]|[Hcap [Hn ->]]]]; [destruct Hg|].
  set (n := Scheduler.nSimImgs P cap) in *.
  assert (Hpos : 0 < n).
  { unfold n, Scheduler.nSimImgs. pose proof (maxNImgs_pos P HP).
    pose proof (nSimImgs_of_pos _ _ Hcap). lia. }
  pose proof (ceil_div_bound (Z.of_nat (length f)) n Hpos) as Hb.
  eapply make_groups_nonempty; [exact Hpos| |exact Hg].
  rewrite Z2Nat.id by nia.
  assert (Hlen : length f = n_available f dateList).
  { unfold f at 1. rewrite filtered_length. symmetry.
    apply n_available_filtered. apply incl_refl. }
  rewrite <- Hlen. lia.
Qed.

Lemma groups_rest_unavailable (P : Q) (algo : Z) (dateList availableDates : list date)
    (gs : list (list date)) :
  (0 < P)%Q ->
  Scheduler.groups P algo dateList availableDates = Some gs ->
  exists rest, dateList = concat gs ++ rest /\
               forall d, In d rest -> isin d availableDates = false.
Proof.
  intros HP E.
  set (f := Scheduler.filteredDateList dateList availableDates).
  apply groups_Some in E. fold f in E.
  destruct E as [cap [[E ->]|[Hcap [Hn ->]]]].
  - exists dateList. split; [reflexivity|]. intros d Hd.
    destruct (isin d availableDates) eqn:Ha; [|reflexivity].
    assert (Hf : In d f) by (apply filter_In; auto). rewrite E in Hf. destruct Hf.
  - set (n := Scheduler.nSimImgs P cap) in *.
    assert (Hpos : 0 < n).
    { unfold n, Scheduler.nSimImgs. pose proof (maxNImgs_pos P HP).
      pose proof (nSimImgs_of_pos _ _ Hcap). lia. }
    set (ng := Z.to_nat (Scheduler.ceil_div (Z.of_nat (length f)) n)).
    destruct (make_groups_spec n f ng dateList ltac:(lia)) as [rest [Hsplit [_ Hend]]].
    exists rest. split; [exact Hsplit|]. intros d Hd.
    destruct Hend as [->|Hend]; [destruct Hd|].
    pose proof (ceil_div_bound (Z.of_nat (length f)) n Hpos) as Hb.
    assert (Hng : Z.of_nat ng = Scheduler.ceil_div (Z.of_nat (length f)) n).
    { unfold ng. apply Z2Nat.id. nia. }
    assert (Hlen : length f = n_available f dateList).
    { unfold f at 1. rewrite filtered_length. symmetry.
      apply n_available_filtered. apply incl_refl. }
    rewrite Hsplit, n_available_app in Hlen.
    assert (Hz : n_available f rest = 0%nat) by nia.
    assert (Hdf : isin d f = false) by (eapply n_available_zero; eauto).
    destruct (isin d availableDates) eqn:Ha; [|reflexivity].
    assert (Hin : In d f).
    { apply filter_In. split; [|exact Ha]. rewrite Hsplit. apply in_app_iff. auto. }
    apply isin_In in Hin. congruence.
Qed.

(** X3: over an area of positive size the batches of a group are
    consecutive slices of the pending dates, in order and none of them
    empty; the dates after the last batch are left out of every request, and
    none of them has imagery. *)
Theorem batches_partition_pending_dates (P : Q) (algo : Z)
    (dateList availableDates : list date) (gs : list (list date)) :
  (0 < P)%Q ->
  Scheduler.groups P algo dateList availableDates = Some gs ->
  Forall (fun g => g <> []) gs /\
  exists rest, dateList = concat gs ++ rest /\
               forall d, In d rest -> isin d availableDates = false.
Proof.
  intros HP E. split.
  - apply Forall_forall. intros g Hg. eapply groups_nonempty; eauto.
  - eapply groups_rest_unavailable; eauto.
Qed.

Lemma batches_partition_pending_dates_witness :
  Forall (fun g => g <> []) [[1; 2; 3]; [4; 5]] /\
  exists rest, [1; 2; 3; 4; 5; 6] = concat [[1; 2; 3]; [4; 5]] ++ rest /\
               forall d, In d rest -> isin d [3; 5] = false.
Proof.
  apply (batches_partition_pending_dates (50000 # 1) 2 [1; 2; 3; 4; 5; 6] [3; 5]).
  - reflexivity.
  - reflexivity.
Defined.

End PendingAndBatches.

(** ** The retry loop of [reduction] beyond time-outs (lines 1391-1449) *)

Section RetryEscalation.

Import Executor.

Lemma one_date_events_ok (ts : Z) (dates : list date) :
  ts = 1 \/ ts = 2 \/ ts = 4 ->
  Forall (fun e => match e with
                   | WholeBatch ts | OneDate _ ts => ts = 1 \/ ts = 2 \/ ts = 4
                   | Sleep n => n = 30
                   | ImgDates => True
                   end) (map (fun d => OneDate d ts) dates) /\
  filter is_sleep (map (fun d => OneDate d ts) dates) = [].
Proof.
  intros H. induction dates as [|d dates [IH1 IH2]]; simpl; split; auto.
Qed.

Ltac retry_step p :=
  cbn [attempts events tileScale timeoutcounts successful result];
  match goal with
  | |- context [getInfo_batch p ?ev ?ts] => destruct (getInfo_batch p ev ts) as [[| |]|?]
  | |- context [(1 <? length ?l)%nat] => destruct (1 <? length l)%nat
  | |- context [one_by_one p ?d ?l0] =>
      rewrite (proj1 (one_by_one_events p d l0))
  end;
  simpl.

(** X4: whatever the provider answers, every request of the retry loop
    carries a tile scale of 1, 2 or 4, every wait lasts 30 seconds, and
    there are at most two waits: the loop never escalates the tile scale
    beyond 4 and never waits longer than a minute in all. *)
Theorem retry_escalation_bounded (p : provider) :
  (forall e, In e (events (retry_loop p)) ->
     match e with
     | WholeBatch ts | OneDate _ ts => ts = 1 \/ ts = 2 \/ ts = 4
     | Sleep n => n = 30
     | ImgDates => True
     end) /\
  (length (filter is_sleep (events (retry_loop p))) <= 2)%nat.
Proof.
  rewrite <- Forall_forall.
  unfold retry_loop, start.
  repeat retry_step p;
    rewrite ?Forall_app, ?filter_app, ?length_app;
    repeat match goal with
           | |- context [map (fun d => OneDate d ?ts) ?dates] =>
               let H1 := fresh in let H2 := fresh in
               destruct (one_date_events_ok ts dates ltac:(lia)) as [H1 H2];
               rewrite H2; revert H1;
               generalize (map (fun d => OneDate d ts) dates); intros
           end;
    simpl; (split; [repeat (split || constructor || assumption); auto; lia|lia]).
Qed.

End RetryEscalation.

Section Fallback.

Import Executor.

Lemma one_by_one_outcome (p : provider) (answer : date -> option result_t)
    (dates : list date) : forall l,
  (forall ev d ts, getInfo_date p ev d ts = answer d) ->
  successful (one_by_one p dates l) = successful l || existsb (answered answer) dates /\
  result (one_by_one p dates l)
  = fold_left (fun acc d => match answer d with
                            | Some localResult => combine acc localResult
                            | None => acc
                            end) dates (result l).
Proof.
  unfold one_by_one. induction dates as [|d dates IH]; intros l H; cbn [fold_left existsb].
  - rewrite orb_false_r. auto.
  - rewrite H. unfold answered at 1.
    destruct (answer d) as [r|];
      match goal with |- context [fold_left ?f dates ?l0] => destruct (IH l0 H) as [E1 E2] end;
      rewrite E1, E2; cbn [successful result]; split; auto.
    + rewrite orb_true_r. reflexivity.
Qed.

Lemma existsb_answered (answer : date -> option result_t) (dates : list date) :
  existsb (answered answer) dates = false <-> forall d, In d dates -> answer d = None.
Proof.
  unfold answered. induction dates as [|x dates IH]; simpl.
  - split; [intros _ d []|reflexivity].
  - rewrite orb_false_iff, IH. split.
    + intros [H1 H2] d [<-|Hd]; auto. destruct (answer x); [discriminate|reflexivity].
    + intros H. split; [rewrite (H x); auto|intros d Hd; apply H; auto].
Qed.

(** X5: when the whole batch keeps timing out and the collection holds
    more than one date, the outcome is decided by the fallback alone: the
    batch counts as retrieved as soon as one single-date request comes back,
    the result holds the answers that came back and nothing for the dates
    that failed, and [reduction] returns nothing only when every date
    failed. *)
Theorem fallback_keeps_what_answers (p : provider) (dates : list date)
    (answer : date -> option result_t) :
  (forall ev ts, getInfo_batch p ev ts = inl ComputationTimedOut) ->
  (forall ev, getInfo_dates p ev = dates) ->
  (forall ev d ts, getInfo_date p ev d ts = answer d) ->
  (1 < length dates)%nat ->
  successful (retry_loop p) = existsb (answered answer) dates /\
  result (retry_loop p) = combined_answers answer dates /\
  forall reducer sufix reducedBands,
    reducer <> 0 ->
    (fst (reduction reducer sufix reducedBands p) = NoResult
     <-> forall d, In d dates -> answer d = None).
Proof.
  intros Hb Hdates Hd Hlen. apply Nat.ltb_lt in Hlen.
  assert (E : successful (retry_loop p) = existsb (answered answer) dates /\
              result (retry_loop p) = combined_answers answer dates).
  { unfold retry_loop, start.
    cbn [attempts events tileScale timeoutcounts successful result].
    rewrite Hb. change (0 + 1 >=? 2) with false. cbv iota.
    cbn [attempts events tileScale timeoutcounts successful result].
    rewrite Hb. change (0 + 1 + 1 >=? 2) with true. cbv iota. rewrite Hdates, Hlen.
    match goal with |- context [one_by_one p dates ?l0] =>
      destruct (one_by_one_outcome p answer dates l0 Hd) as [E1 E2] end.
    rewrite E1, E2. split; reflexivity. }
  destruct E as [E1 E2]. split; [exact E1|]. split; [exact E2|].
  intros reducer sufix reducedBands Hr. unfold reduction.
  destruct (Z.eqb_spec reducer 0); [contradiction|].
  rewrite <- existsb_answered, <- E1.
  destruct (successful (retry_loop p)); cbn [negb].
  - split; [|discriminate]. destruct sufix as [|s [|? ?]]; discriminate.
  - split; reflexivity.
Qed.

Lemma fallback_keeps_what_answers_witness :
  let answer := fun d => if d =? 2 then Some [(2, [("red"%string, Num 1)])] else None in
  let p := {| getInfo_batch := fun _ _ => inl ComputationTimedOut;
              getInfo_dates := fun _ => [1; 2; 3];
              getInfo_date := fun _ d _ => answer d |} in
  successful (retry_loop p) = true /\
  result (retry_loop p) = [(2, [("red"%string, Num 1)])].
Proof.
  intros answer p.
  destruct (fallback_keeps_what_answers p [1; 2; 3] answer) as (E1 & E2 & _).
  - reflexivity.
  - reflexivity.
  - reflexivity.
  - simpl. lia.
  - rewrite E1, E2. split; reflexivity.
Defined.

End Fallback.

(** ** From the names [reduction] gives to the names the writer files (lines
    1451-1457 and 2323-2335) *)

Section BandNames.

Import Writer.

Lemma after_last_underscore_app (a s : string) :
  after_last_underscore s = None ->
  after_last_underscore (a ++ String "_" s) = Some s.
Proof.
  intros H. induction a as [|c a IH]; simpl.
  - rewrite H. reflexivity.
  - rewrite IH. reflexivity.
Qed.

Lemma prefix_before_underscore (s : string) : forall a b,
  after_last_underscore s = None ->
  String.prefix s (a ++ String "_" b) = true -> String.prefix s a = true.
Proof.
  induction s as [|x s IH]; intros a b H; [destruct a; reflexivity|].
  simpl in H. destruct (after_last_underscore s) eqn:Es; [discriminate|].
  destruct (Ascii.eqb_spec x "_"%char) as [->|Hx]; [discriminate|].
  destruct a as [|y a]; simpl.
  - destruct (ascii_dec x "_"); [contradiction|discriminate].
  - destruct (ascii_dec x y); [|discriminate]. apply IH. reflexivity.
Qed.

Lemma prefix_refl (s : string) : String.prefix s s = true.
Proof.
  induction s as [|c s IH]; simpl; [reflexivity|].
  destruct (ascii_dec c c); [exact IH|contradiction].
Qed.

Lemma index_of_suffix (s : string) : forall k,
  after_last_underscore s = None ->
  String.index 0 (String "_" s) k = None ->
  String.index 0 (String "_" s) (k ++ String "_" s) = Some (String.length k).
Proof.
  intros k Hs. induction k as [|c k IH]; intros Hk.
  - cbn [append String.length]. cbn [String.index].
    rewrite prefix_refl. reflexivity.
  - cbn [append String.length]. cbn [String.index] in *.
    destruct (String.prefix (String "_" s) (String c k)) eqn:Ep; [discriminate|].
    destruct (String.index 0 (String "_" s) k) eqn:Ei; [discriminate|].
    rewrite (IH eq_refl).
    replace (String.prefix (String "_" s) (String c (k ++ String "_" s))) with false;
      [reflexivity|].
    symmetry. cbn [String.prefix] in *.
    destruct (ascii_dec "_" c); [|reflexivity].
    destruct (String.prefix s (k ++ String "_" s)) eqn:E; [|reflexivity].
    apply prefix_before_underscore in E; [congruence|exact Hs].
Qed.

Lemma substring_app_prefix (k rest : string) :
  String.substring 0 (String.length k) (k ++ rest) = k.
Proof.
  induction k as [|c k IH]; simpl.
  - destruct rest; reflexivity.
  - rewrite IH. reflexivity.
Qed.

Lemma length_app_string (a b : string) :
  String.length (a ++ b) = (String.length a + String.length b)%nat.
Proof. induction a as [|c a IH]; simpl; auto. Qed.

Lemma single_sufix_plain (reducer : Z) (sufix : string) :
  reducer <> 0 -> reduction_specs_sufix reducer = Some [sufix] ->
  after_last_underscore sufix = None.
Proof.
  intros Hr. unfold reduction_specs_sufix.
  destruct reducer as [|q|q]; [contradiction| |discriminate].
  repeat (destruct q as [q|q|]; try discriminate);
    intros E; injection E as <-; reflexivity.
Qed.

(** X6: a band that [reduction] renamed for a reducer of one suffix is
    filed by the writer under that suffix as the statistic and under its own
    name as the variable, provided the suffix does not already occur in the
    band's name behind an underscore and the new name is not one of the
    exported variables. *)
Theorem renamed_band_is_split_back (reducer : Z) (sufix k2 : string)
    (export_vars : list string) :
  reducer <> 0 ->
  reduction_specs_sufix reducer = Some [sufix] ->
  String.index 0 ("_" ++ sufix) k2 = None ->
  existsb (String.eqb (k2 ++ "_" ++ sufix)) export_vars = false ->
  split_var export_vars (k2 ++ "_" ++ sufix) = (sufix, k2).
Proof.
  intros Hr Hs Hk He.
  pose proof (single_sufix_plain reducer sufix Hr Hs) as Hp.
  change ("_" ++ sufix)%string with (String "_" sufix) in *.
  unfold split_var. rewrite He, (after_last_underscore_app k2 sufix Hp).
  destruct (String.eqb_spec sufix (k2 ++ String "_" sufix)) as [E|_].
  - exfalso. apply (f_equal String.length) in E. rewrite length_app_string in E.
    simpl in E. lia.
  - rewrite (index_of_suffix sufix k2 Hp Hk), substring_app_prefix. reflexivity.
Qed.

Lemma renamed_band_is_split_back_witness :
  split_var ["img_time"%string] ("sur_refl_b01" ++ "_" ++ "median")
  = ("median"%string, "sur_refl_b01"%string).
Proof.
  apply (renamed_band_is_split_back 1 "median" "sur_refl_b01" ["img_time"%string]).
  - discriminate.
  - reflexivity.
  - reflexivity.
  - reflexivity.
Defined.

End BandNames.

Section RenameBands.

Import Executor.

Lemma values_get_app (a b : values_t) (name : string) :
  ~ In name (map fst a) -> values_get (a ++ b) name = values_get b name.
Proof.
  induction a as [|[k v] a IH]; simpl; intros H; [reflexivity|].
  destruct (String.eqb_spec k name) as [->|_]; [tauto|]. apply IH. tauto.
Qed.

Lemma values_pop_other (vs : values_t) (name : string) :
  ~ In name (map fst vs) -> values_pop vs name = vs.
Proof.
  unfold values_pop. induction vs as [|[k v] vs IH]; simpl; intros H; [reflexivity|].
  destruct (String.eqb_spec k name) as [->|_]; [tauto|]. simpl. rewrite IH; tauto.
Qed.

Lemma values_set_new (vs : values_t) (name : string) (v : value) :
  ~ In name (map fst vs) -> values_set vs name v = vs ++ [(name, v)].
Proof.
  induction vs as [|[k v0] vs IH]; simpl; intros H; [reflexivity|].
  destruct (String.eqb_spec k name) as [->|_]; [tauto|]. rewrite IH; tauto.
Qed.

Lemma append_inj_l (a b c : string) : (a ++ c)%string = (b ++ c)%string -> a = b.
Proof.
  revert b. induction a as [|x a IH]; intros b E.
  - destruct b as [|y b]; [reflexivity|]. exfalso.
    apply (f_equal String.length) in E. simpl in E. rewrite length_app_string in E. lia.
  - destruct b as [|y b].
    + exfalso. apply (f_equal String.length) in E. simpl in E.
      rewrite length_app_string in E. lia.
    + simpl in E. injection E as -> E. f_equal. apply IH. exact E.
Qed.

Lemma rename_bands_fold (reducedBands : list string) (sufix : string) (todo : values_t) :
  forall done,
  NoDup (map fst (done ++ todo)) ->
  (forall k k', In k (map fst (done ++ todo)) -> In k' (map fst (done ++ todo)) ->
                is_reduced reducedBands k = true -> k' <> (k ++ "_" ++ sufix)%string) ->
  fold_left
    (fun acc k2 =>
       if existsb (String.eqb k2) reducedBands then
         match values_get acc k2 with
         | Some v => values_set (values_pop acc k2) (k2 ++ "_" ++ sufix)%string v
         | None => acc
         end
       else acc)
    (map fst todo)
    (filter (fun kv => negb (is_reduced reducedBands (fst kv))) done ++ todo
     ++ map (fun kv => ((fst kv ++ "_" ++ sufix)%string, snd kv))
            (filter (fun kv => is_reduced reducedBands (fst kv)) done))
  = with_sufix reducedBands sufix (done ++ todo).
Proof.
  induction todo as [|[k v] todo IH]; intros done Hnd Hc.
  - simpl. rewrite !app_nil_r. reflexivity.
  - cbn [map fst fold_left].
    set (A := filter (fun kv => negb (is_reduced reducedBands (fst kv))) done) in *.
    set (R := map (fun kv => ((fst kv ++ "_" ++ sufix)%string, snd kv))
                  (filter (fun kv => is_reduced reducedBands (fst kv)) done)) in *.
    assert (Hsplit : done ++ (k, v) :: todo = (done ++ [(k, v)]) ++ todo)
      by (rewrite <- app_assoc; reflexivity).
    assert (Hkeys : forall x, In x (map fst A) -> is_reduced reducedBands x = false).
    { intros x Hx. apply in_map_iff in Hx. destruct Hx as [[x' v'] [<- Hx]].
      apply filter_In in Hx. destruct Hx as [_ Hx]. simpl in *.
      destruct (is_reduced reducedBands x'); [discriminate|reflexivity]. }
    assert (HA : incl (map fst A) (map fst done)).
    { intros x Hx. apply in_map_iff in Hx. destruct Hx as [kv [<- Hx]].
      apply filter_In in Hx. apply in_map. tauto. }
    assert (HR : forall x, In x (map fst R) ->
                 exists k0, In k0 (map fst done) /\ is_reduced reducedBands k0 = true /\
                            x = (k0 ++ "_" ++ sufix)%string).
    { intros x Hx. unfold R in Hx. rewrite map_map in Hx. apply in_map_iff in Hx.
      destruct Hx as [kv [<- Hx]]. apply filter_In in Hx. destruct Hx as [Hx Hr].
      exists (fst kv). split; [apply in_map; exact Hx|]. auto. }
    fold (is_reduced reducedBands k).
    destruct (is_reduced reducedBands k) eqn:Ek.
    + rewrite values_get_app.
      2:{ intros Hin. apply Hkeys in Hin. congruence. }
      cbn [app values_get]. rewrite String.eqb_refl.
      assert (Hk_done : ~ In k (map fst done)).
      { rewrite map_app in Hnd. apply NoDup_remove_2 in Hnd. cbn [map fst] in Hnd.
        intros Hin. apply Hnd. apply in_app_iff. auto. }
      assert (Hk_todo : ~ In k (map fst todo)).
      { rewrite map_app in Hnd. apply NoDup_remove_2 in Hnd. cbn [map fst] in Hnd.
        intros Hin. apply Hnd. apply in_app_iff. auto. }
      assert (Hin_k : In k (map fst (done ++ (k, v) :: todo))).
      { rewrite map_app. apply in_app_iff. right. left. reflexivity. }
      assert (Hk_R : ~ In k (map fst R)).
      { intros Hin. apply HR in Hin. destruct Hin as (k0 & H0 & Hr0 & E).
        refine (Hc k0 k _ Hin_k Hr0 E). rewrite map_app. apply in_app_iff. auto. }
      assert (Hpop : values_pop (A ++ (k, v) :: todo ++ R) k = A ++ todo ++ R).
      { unfold values_pop. rewrite filter_app. cbn [filter fst]. rewrite String.eqb_refl.
        cbn [negb]. rewrite filter_app.
        fold (values_pop A k). fold (values_pop todo k). fold (values_pop R k).
        rewrite !values_pop_other; auto. }
      rewrite Hpop. rewrite values_set_new.
      2:{ rewrite !map_app, !in_app_iff. intros [Hin|[Hin|Hin]].
          - refine (Hc k _ Hin_k _ Ek eq_refl). rewrite map_app. apply in_app_iff.
            left. apply HA. exact Hin.
          - refine (Hc k _ Hin_k _ Ek eq_refl). rewrite map_app. apply in_app_iff.
            right. right. exact Hin.
          - apply HR in Hin. destruct Hin as (k0 & H0 & _ & E).
            apply append_inj_l in E. subst k0. contradiction. }
      rewrite Hsplit. rewrite <- IH.
      * f_equal. rewrite !filter_app. cbn [filter fst]. rewrite Ek. cbn [negb].
        rewrite map_app, app_nil_r. cbn [map fst snd]. fold A. fold R.
        rewrite <- !app_assoc. reflexivity.
      * rewrite <- Hsplit. exact Hnd.
      * rewrite <- Hsplit. exact Hc.
    + rewrite Hsplit. rewrite <- IH.
      * f_equal. rewrite !filter_app. cbn [filter fst]. rewrite Ek. cbn [negb].
        rewrite app_nil_r. fold A. fold R. rewrite <- !app_assoc. reflexivity.
      * rewrite <- Hsplit. exact Hnd.
      * rewrite <- Hsplit. exact Hc.
Qed.

(** X7: on values whose names do not clash with a new name, the renaming
    at the end of [reduction] loses nothing: every reduced band moves to the
    end under its name followed by the suffix, with its value, and every
    other entry stays as it is. *)
Theorem renamed_bands_keep_values (reducedBands : list string) (sufix : string)
    (vs : values_t) :
  NoDup (map fst vs) ->
  (forall k k', In k (map fst vs) -> In k' (map fst vs) ->
                is_reduced reducedBands k = true -> k' <> (k ++ "_" ++ sufix)%string) ->
  rename_bands reducedBands sufix vs = with_sufix reducedBands sufix vs /\
  length (rename_bands reducedBands sufix vs) = length vs.
Proof.
  intros Hnd Hc.
  assert (E : rename_bands reducedBands sufix vs = with_sufix reducedBands sufix vs).
  { unfold rename_bands.
    pose proof (rename_bands_fold reducedBands sufix vs [] Hnd Hc) as H.
    simpl in H. rewrite app_nil_r in H. exact H. }
  split; [exact E|].
  rewrite E. unfold with_sufix. rewrite length_app, length_map.
  clear. induction vs as [|[k v] vs IH]; [reflexivity|]. cbn [filter fst].
  destruct (is_reduced reducedBands k); simpl; lia.
Qed.

Lemma renamed_bands_keep_values_witness :
  rename_bands ["red"%string; "nir"%string] "median"
    [("img_time"%string, Str "10:30"); ("red"%string, Num 1); ("nir"%string, Num 2)]
  = [("img_time"%string, Str "10:30"); ("red_median"%string, Num 1);
     ("nir_median"%string, Num 2)].
Proof.
  apply (proj1 (renamed_bands_keep_values ["red"%string; "nir"%string] "median"
           [("img_time"%string, Str "10:30"); ("red"%string, Num 1); ("nir"%string, Num 2)]
           ltac:(repeat constructor; simpl; intuition discriminate)
           ltac:(simpl; intros k k' Hk Hk' Hr;
                 destruct Hk as [<-|[<-|[<-|[]]]]; destruct Hk' as [<-|[<-|[<-|[]]]];
                 discriminate))).
Defined.

End RenameBands.

(** ** Invariants of a run, batch by batch *)

(** A property of the state kept by every batch, by the reset of a
    leader's status and by the events other than the request for a batch is
    kept by the demand loop. *)
Section LoopInvariant.

Import Writer Run.

Variable e : Env.
Variable df : list Demand.
Variable P : State -> Prop.

Hypothesis P_log : forall ev s, is_retrieval ev = false -> P s -> P (log_event ev s).
Hypothesis P_error : forall s, P s -> P (set_anyError true s).
Hypothesis P_reset : forall leader s,
  In leader df -> 1 < DEMANDSTATUS leader -> P s ->
  P (set_DEMANDS (map (fun d => if DEMANDID d =? DEMANDID leader then with_status 1 d else d)
                      (DEMANDS s)) s).
Hypothesis P_batch : forall mode leader earliest latest start s batch,
  In leader df ->
  P s ->
  P (process_batch e mode leader (map DEMANDID (group_of df leader)) earliest latest start
                   s batch).

Lemma group_loop_inv mode leader pixels s s' :
  In leader df -> P s ->
  process_group e mode leader (group_of df leader) pixels s = Some s' -> P s'.
Proof.
  intros Hl H. unfold process_group.
  destruct (Planner.startDate _ _) as [start|]; [|discriminate].
  destruct (Planner.endDate _) as [stop|]; [|discriminate].
  match goal with |- context [if ?c then _ else _] => destruct c end;
    cbv beta iota zeta;
    (destruct (Scheduler.groups _ _ _ _) as [gs|]; [|discriminate]);
    intros E; injection E as <-;
    (apply (fold_left_inv P); [intros; apply P_batch; auto|auto]).
Qed.

Lemma demand_loop_inv rows : forall already s s',
  P s -> rows_loop e df rows already s = Some s' -> P s'.
Proof.
  induction rows as [|i rows IH]; intros already s s' H; simpl.
  - intros E. injection E as <-. exact H.
  - destruct (existsb (Nat.eqb i) already); [apply IH; auto|].
    destruct (nth_error df i) as [leader|] eqn:En; [|discriminate].
    assert (Hl : In leader df) by (eapply nth_error_In; eauto).
    assert (H1 : P (if DEMANDSTATUS leader >? 1 then reset_status (DEMANDID leader) s else s)).
    { destruct (Z.gtb_spec (DEMANDSTATUS leader) 1); auto. unfold reset_status.
      apply P_log; [reflexivity|]. apply (P_reset leader s Hl); auto. }
    destruct (demandRunningMode e (DEMANDSTATUS leader) <? 5).
    + destruct (nPixelsInAoI e leader) as [pixels|]; [|apply IH; auto].
      destruct (process_group e _ leader _ pixels _) as [s2|] eqn:E; [|discriminate].
      apply IH. eapply group_loop_inv; [exact Hl|exact H1|exact E].
    + destruct (demandRunningMode e (DEMANDSTATUS leader) =? 5); apply IH; auto.
Qed.

End LoopInvariant.

(** ** The catalogs of statistics and variables (lines 2336-2361) *)

Section CatalogFacts.

Import Writer Run.

Lemma last_id_spec (df : list (Z * string)) (name : string) :
  match last_id df name with
  | None => ~ In name (map snd df)
  | Some id => In (id, name) df
  end.
Proof.
  unfold last_id. rewrite take_rows_which.
  destruct (rev (filter (fun r => String.eqb (snd r) name) df)) as [|r l] eqn:E.
  - intros Hin. apply in_map_iff in Hin. destruct Hin as [[id n] [<- Hin]].
    assert (H : In (id, n) (filter (fun r => String.eqb (snd r) n) df)).
    { apply filter_In. split; [exact Hin|]. apply String.eqb_refl. }
    apply in_rev in H. simpl in E. rewrite E in H. destruct H.
  - assert (H : In r (filter (fun r => String.eqb (snd r) name) df)).
    { apply in_rev. rewrite E. left. reflexivity. }
    apply filter_In in H. destruct H as [H1 H2]. apply String.eqb_eq in H2.
    destruct r as [id n]. simpl in *. subst n. exact H1.
Qed.

Lemma last_id_app_self (df : list (Z * string)) (id : Z) (name : string) :
  last_id (df ++ [(id, name)]) name = Some id.
Proof.
  unfold last_id. rewrite take_rows_which, filter_app. cbn [filter snd].
  rewrite String.eqb_refl, rev_app_distr. reflexivity.
Qed.

Lemma next_id_fresh (col : list Z) (x : Z) : In x col -> x < next_id col.
Proof.
  intros H. unfold next_id, sql_max.
  destruct (series_max col) as [m|] eqn:E.
  - apply series_max_spec in E. destruct E as [_ E]. specialize (E x H). lia.
  - apply series_max_None in E. subst col. destruct H.
Qed.

Lemma resolve_stats_effect (s : State) (name : string) :
  let s1 := fst (resolve_stats s name) in
  let id := snd (resolve_stats s name) in
  same_records s s1 /\ DATA s1 = DATA s /\ VARIABLES s1 = VARIABLES s /\
  varDF s1 = varDF s /\
  (In (id, name) (statsDF s) /\ s1 = s \/
   ~ In name (map snd (statsDF s)) /\ id = next_id (map fst (STATISTICS s)) /\
   STATISTICS s1 = STATISTICS s ++ [(id, name)] /\ statsDF s1 = statsDF s ++ [(id, name)]).
Proof.
  unfold resolve_stats. pose proof (last_id_spec (statsDF s) name) as H.
  destruct (last_id (statsDF s) name) as [id|]; cbn [fst snd].
  - repeat split; auto.
  - repeat split; auto.
Qed.

Lemma resolve_var_effect (s : State) (name : string) :
  let s1 := fst (resolve_var s name) in
  let id := snd (resolve_var s name) in
  same_records s s1 /\ DATA s1 = DATA s /\ STATISTICS s1 = STATISTICS s /\
  statsDF s1 = statsDF s /\
  (In (id, name) (varDF s) /\ s1 = s \/
   ~ In name (map snd (varDF s)) /\ id = next_id (map fst (VARIABLES s)) /\
   VARIABLES s1 = VARIABLES s ++ [(id, name)] /\ varDF s1 = varDF s ++ [(id, name)]).
Proof.
  unfold resolve_var. pose proof (last_id_spec (varDF s) name) as H.
  destruct (last_id (varDF s) name) as [id|]; cbn [fst snd].
  - repeat split; auto.
  - repeat split; auto.
Qed.

(** X8: looking a name up in a catalog a second time finds the id given
    the first time and inserts nothing, whether the first lookup found the
    name or had to insert it; an inserted name gets an id above every id of
    the table. *)
Theorem catalog_lookup_after_insert (s : State) (name : string) :
  resolve_stats (fst (resolve_stats s name)) name = resolve_stats s name /\
  resolve_var (fst (resolve_var s name)) name = resolve_var s name /\
  (last_id (statsDF s) name = None ->
   forall id, In id (map fst (STATISTICS s)) -> id < snd (resolve_stats s name)) /\
  (last_id (varDF s) name = None ->
   forall id, In id (map fst (VARIABLES s)) -> id < snd (resolve_var s name)).
Proof.
  split; [|split; [|split]].
  - unfold resolve_stats. destruct (last_id (statsDF s) name) as [id|] eqn:E; cbn [fst].
    + rewrite E. reflexivity.
    + cbn [statsDF add_statistic]. rewrite last_id_app_self. reflexivity.
  - unfold resolve_var. destruct (last_id (varDF s) name) as [id|] eqn:E; cbn [fst].
    + rewrite E. reflexivity.
    + cbn [varDF add_variable]. rewrite last_id_app_self. reflexivity.
  - intros E id Hid. unfold resolve_stats. rewrite E. cbn [snd].
    apply next_id_fresh. exact Hid.
  - intros E id Hid. unfold resolve_var. rewrite E. cbn [snd].
    apply next_id_fresh. exact Hid.
Qed.

End CatalogFacts.

Section CatalogKeys.

Import Writer Run.

Lemma NoDup_snoc {A : Type} (l : list A) (x : A) : NoDup l -> ~ In x l -> NoDup (l ++ [x]).
Proof.
  intros Hl Hx. apply NoDup_rev in Hl. rewrite <- (rev_involutive (l ++ [x])).
  apply NoDup_rev. rewrite rev_app_distr. simpl. constructor; [|exact Hl].
  rewrite <- in_rev. exact Hx.
Qed.

Lemma open_record_catalogs mode earliest latest m result s d :
  let s' := open_record mode earliest latest m result s d in
  STATISTICS s' = STATISTICS s /\ VARIABLES s' = VARIABLES s /\
  statsDF s' = statsDF s /\ varDF s' = varDF s.
Proof.
  unfold open_record.
  repeat match goal with |- context [if ?c then _ else _] => destruct c end; auto.
Qed.

Lemma resolve_stats_catalogs S0 V0 s name :
  catalogs_inv S0 V0 s -> catalogs_inv S0 V0 (fst (resolve_stats s name)).
Proof.
  intros (E1 & E2 & (K1 & K2 & K3) & [a Ha] & [b Hb]).
  destruct (resolve_stats_effect s name) as (_ & _ & V & VD & [[_ ->]|(Hn & Hid & T & D)]).
  - unfold catalogs_inv, catalog_keys. eauto 10.
  - unfold catalogs_inv, catalog_keys. rewrite T, D, V, VD, E1.
    split; [reflexivity|]. split; [exact E2|]. split; [split; [|auto]|].
    + rewrite map_app. apply NoDup_snoc; [exact K1|]. cbn [map fst].
      intros Hin. apply next_id_fresh in Hin. lia.
    + split; [exists (a ++ [(snd (resolve_stats s name), name)])|exists b; exact Hb].
      rewrite Ha, <- app_assoc. reflexivity.
Qed.

Lemma resolve_var_catalogs S0 V0 s name :
  catalogs_inv S0 V0 s -> catalogs_inv S0 V0 (fst (resolve_var s name)).
Proof.
  intros (E1 & E2 & (K1 & K2 & K3) & [a Ha] & [b Hb]).
  destruct (resolve_var_effect s name) as (_ & _ & V & VD & [[_ ->]|(Hn & Hid & T & D)]).
  - unfold catalogs_inv, catalog_keys. eauto 10.
  - unfold catalogs_inv, catalog_keys. rewrite T, D, V, VD, E2.
    split; [exact E1|]. split; [reflexivity|]. split; [split; [exact K1|split]|].
    + rewrite map_app. apply NoDup_snoc; [exact K2|]. cbn [map fst].
      intros Hin. apply next_id_fresh in Hin. lia.
    + rewrite map_app. apply NoDup_snoc; [exact K3|]. cbn [map snd].
      rewrite <- E2. exact Hn.
    + split; [exists a; exact Ha|exists (b ++ [(snd (resolve_var s name), name)])].
      rewrite Hb, <- app_assoc. reflexivity.
Qed.

Lemma save_value_catalogs S0 V0 ev t s kv :
  catalogs_inv S0 V0 s -> catalogs_inv S0 V0 (save_value ev t s kv).
Proof.
  intros H. unfold save_value. destruct (split_var ev (fst kv)) as [stats varName].
  pose proof (resolve_stats_catalogs S0 V0 s stats H) as H1.
  destruct (resolve_stats s stats) as [s1 statsId]. cbn [fst] in H1.
  pose proof (resolve_var_catalogs S0 V0 s1 varName H1) as H2.
  destruct (resolve_var s1 varName) as [s2 varId]. cbn [fst] in H2.
  destruct (currTimeSeriesId s2); exact H2.
Qed.

Lemma write_date_catalogs S0 V0 ev mode earliest latest m st d :
  catalogs_inv S0 V0 (fst st) ->
  catalogs_inv S0 V0 (fst (write_date ev mode earliest latest m st d)).
Proof.
  destruct st as [s result]. cbn [fst]. intros H. rewrite write_date_unfold.
  assert (H1 : catalogs_inv S0 V0 (open_record mode earliest latest m result s d)).
  { destruct (open_record_catalogs mode earliest latest m result s d) as (A & B & C & D).
    unfold catalogs_inv, catalog_keys in *. rewrite A, B, C, D. exact H. }
  unfold save_values. destruct (in_result d result); [|exact H1].
  destruct (result_get result d) as [vs|]; [|exact H1].
  destruct (values_get vs "img_time") as [t|]; cbn [fst];
    (apply (fold_left_inv (catalogs_inv S0 V0));
     [intros; apply save_value_catalogs; assumption|exact H1]).
Qed.

(** X9: a run keeps the keys of the two catalogs unique: no id is given
    twice in STATISTICS or in VARIABLES, and no variable name is inserted a
    second time.  Both tables keep every row they had, in place. *)
Theorem catalogs_stay_keyed (e : Env) (s s' : State) :
  catalog_keys s ->
  databaseUpdate e s = Some s' ->
  catalog_keys s' /\
  (exists added, STATISTICS s' = STATISTICS s ++ added) /\
  (exists added, VARIABLES s' = VARIABLES s ++ added).
Proof.
  intros K E. unfold databaseUpdate in E.
  apply (rows_loop_inv (map DEMANDID (demandsDF e s))
           (catalogs_inv (STATISTICS s) (VARIABLES s))) in E; auto.
  - destruct E as (_ & _ & K' & G1 & G2). auto.
  - intros. apply write_date_catalogs. assumption.
  - apply incl_refl.
  - unfold catalogs_inv. cbn [load statsDF varDF STATISTICS VARIABLES].
    split; [reflexivity|]. split; [reflexivity|]. split; [exact K|].
    split; exists []; rewrite app_nil_r; reflexivity.
Qed.

Lemma catalogs_stay_keyed_witness :
  match databaseUpdate
          (Sample.env 3 (fun _ => true)
             (fun d => if isin d [1; 3] then Some (Sample.values d) else None))
          (Sample.store [Sample.demand 7 1 1 3] [] [] 0)
  with
  | Some s' => catalog_keys s'
  | None => False
  end.
Proof.
  destruct (databaseUpdate _ _) as [s'|] eqn:E.
  - refine (proj1 (catalogs_stay_keyed _ _ s' _ E)).
    repeat split; repeat constructor; simpl; tauto.
  - vm_compute in E. discriminate.
Defined.

End CatalogKeys.

(** ** The foreign keys of DATA (lines 2300-2364) *)

Section ForeignKeys.

Import Writer Run.

Lemma in_map_fst_app {A B : Type} (l a : list (A * B)) (x : A) :
  In x (map fst l) -> In x (map fst (l ++ a)).
Proof. intros H. rewrite map_app. apply in_app_iff. auto. Qed.

Lemma resolve_stats_refs s name :
  refs_inv s ->
  refs_inv (fst (resolve_stats s name)) /\
  In (snd (resolve_stats s name)) (map fst (STATISTICS (fst (resolve_stats s name)))).
Proof.
  intros (Hv & Hs & Hvar & Hc & Hd).
  destruct (resolve_stats_effect s name)
    as ((_ & T & TD & _ & C & _) & D & V & VD & [[Hin E]|(Hn & Hid & S1 & SD)]).
  - rewrite E. split; [repeat split; auto; apply Hd; auto|].
    apply in_map_iff. exists (snd (resolve_stats s name), name). split; [reflexivity|].
    apply Hs. exact Hin.
  - split.
    + unfold refs_inv, view_sound, data_refs. rewrite T, TD, C, D, V, VD, S1, SD.
      split; [exact Hv|]. split; [apply incl_app_app; [exact Hs|apply incl_refl]|].
      split; [exact Hvar|]. split; [exact Hc|].
      intros x Hx. destruct (Hd x Hx) as (A1 & A2 & A3).
      split; [exact A1|]. split; [exact A2|]. apply in_map_fst_app. exact A3.
    + rewrite S1, map_app. apply in_app_iff. right. left. reflexivity.
Qed.

Lemma resolve_var_refs s name :
  refs_inv s ->
  refs_inv (fst (resolve_var s name)) /\
  In (snd (resolve_var s name)) (map fst (VARIABLES (fst (resolve_var s name)))).
Proof.
  intros (Hv & Hs & Hvar & Hc & Hd).
  destruct (resolve_var_effect s name)
    as ((_ & T & TD & _ & C & _) & D & S1 & SD & [[Hin E]|(Hn & Hid & V & VD)]).
  - rewrite E. split; [repeat split; auto; apply Hd; auto|].
    apply in_map_iff. exists (snd (resolve_var s name), name). split; [reflexivity|].
    apply Hvar. exact Hin.
  - split.
    + unfold refs_inv, view_sound, data_refs. rewrite T, TD, C, D, V, VD, S1, SD.
      split; [exact Hv|]. split; [exact Hs|].
      split; [apply incl_app_app; [exact Hvar|apply incl_refl]|]. split; [exact Hc|].
      intros x Hx. destruct (Hd x Hx) as (A1 & A2 & A3).
      split; [exact A1|]. split; [|exact A3]. apply in_map_fst_app. exact A2.
    + rewrite V, map_app. apply in_app_iff. right. left. reflexivity.
Qed.

Lemma save_value_refs ev t s kv : refs_inv s -> refs_inv (save_value ev t s kv).
Proof.
  intros H. unfold save_value. destruct (split_var ev (fst kv)) as [stats varName].
  destruct (resolve_stats_refs s stats H) as [H1 I1].
  destruct (resolve_var_effect (fst (resolve_stats s stats)) varName)
    as (_ & _ & S2 & _).
  destruct (resolve_stats s stats) as [s1 statsId]. cbn [fst snd] in *.
  destruct (resolve_var_refs s1 varName H1) as [H2 I2].
  destruct (resolve_var s1 varName) as [s2 varId]. cbn [fst snd] in *.
  destruct (currTimeSeriesId s2) as [ts|] eqn:C; [|exact H2].
  destruct H2 as (Hv & Hs & Hvar & Hc & Hd).
  unfold refs_inv, view_sound, data_refs. cbn.
  split; [exact Hv|]. split; [exact Hs|]. split; [exact Hvar|]. split; [exact Hc|].
  intros x Hx. apply in_app_iff in Hx. destruct Hx as [Hx|[<-|[]]]; [apply Hd; exact Hx|].
  cbn. split; [apply Hc; exact C|]. split; [exact I2|]. rewrite S2. exact I1.
Qed.

Lemma open_record_refs mode earliest latest m result s d :
  refs_inv s -> refs_inv (open_record mode earliest latest m result s d).
Proof.
  intros (Hv & Hs & Hvar & Hc & Hd).
  destruct (open_record_cases mode earliest latest m result s d)
    as [(_ & _ & E)|[(Hr & E)|(_ & _ & _ & E)]]; rewrite E; clear E.
  - unfold refs_inv, view_sound, data_refs. cbn.
    split; [apply incl_app_app; [exact Hv|apply incl_refl]|].
    split; [exact Hs|]. split; [exact Hvar|]. split.
    + intros ts E. injection E as <-. rewrite map_app. apply in_app_iff. right. left.
      reflexivity.
    + intros x Hx. destruct (Hd x Hx) as (A1 & A2 & A3). split; [|auto].
      rewrite map_app. apply in_app_iff. auto.
  - assert (Hid : In (last (map TIMESERIESID (records_of (timeSeriesDF s) m d)) 0)
                     (map TIMESERIESID (TIMESERIES s))).
    { assert (Hl : In (last (map TIMESERIESID (records_of (timeSeriesDF s) m d)) 0)
                      (map TIMESERIESID (records_of (timeSeriesDF s) m d))).
      { apply last_In_nonempty. destruct (records_of (timeSeriesDF s) m d);
          [contradiction|discriminate]. }
      apply in_map_iff in Hl. destruct Hl as [r [<- Hin]]. apply in_map. apply Hv.
      apply filter_In in Hin. tauto. }
    destruct (mode =? 4); unfold refs_inv, view_sound, data_refs; cbn;
      (split; [exact Hv|]; split; [exact Hs|]; split; [exact Hvar|]; split;
       [intros ts E; injection E as <-; exact Hid|]).
    + intros x Hx. apply filter_In in Hx. apply Hd. tauto.
    + exact Hd.
  - repeat split; auto; apply Hd; auto.
Qed.

Lemma write_date_refs ev mode earliest latest m st d :
  refs_inv (fst st) -> refs_inv (fst (write_date ev mode earliest latest m st d)).
Proof.
  destruct st as [s result]. cbn [fst]. intros H. rewrite write_date_unfold.
  pose proof (open_record_refs mode earliest latest m result s d H) as H1.
  unfold save_values. destruct (in_result d result); [|exact H1].
  destruct (result_get result d) as [vs|]; [|exact H1].
  destruct (values_get vs "img_time") as [t|]; cbn [fst];
    (apply (fold_left_inv refs_inv);
     [intros; apply save_value_refs; assumption|exact H1]).
Qed.

(** X10: a run keeps the foreign keys of DATA: when every data row refers
    to a TIMESERIES record, a variable and a statistic that exist, so does
    every data row after the run, in update and in overwrite mode alike. *)
Theorem data_keeps_its_references (e : Env) (s s' : State) :
  data_refs s ->
  databaseUpdate e s = Some s' ->
  data_refs s'.
Proof.
  intros K E. unfold databaseUpdate in E.
  apply (rows_loop_inv (map DEMANDID (demandsDF e s)) refs_inv) in E; auto.
  - apply E.
  - intros. apply write_date_refs. assumption.
  - apply incl_refl.
  - unfold refs_inv. split; [apply load_view_sound|].
    cbn [load statsDF varDF STATISTICS VARIABLES currTimeSeriesId].
    split; [apply incl_refl|]. split; [apply incl_refl|]. split; [discriminate|].
    exact K.
Qed.

Lemma data_keeps_its_references_witness :
  match databaseUpdate
          (Sample.env 4 (fun _ => true) (fun d => Some (Sample.values d)))
          (Sample.store [Sample.demand 7 1 1 2] [Sample.record 1 7 1] [Sample.datum 1 10] 1)
  with
  | Some s' => data_refs s'
  | None => False
  end.
Proof.
  destruct (databaseUpdate _ _) as [s'|] eqn:E.
  - refine (data_keeps_its_references _ _ s' _ E).
    intros x [<-|[]]. simpl. tauto.
  - vm_compute in E. discriminate.
Defined.

End ForeignKeys.

(** ** The primary key of TIMESERIES (lines 2288-2305) *)

Section RecordIds.

Import Writer Run.

Lemma write_date_record_ids ev mode earliest latest m st d :
  record_ids_inv (fst st) ->
  record_ids_inv (fst (write_date ev mode earliest latest m st d)).
Proof.
  destruct st as [s result]. cbn [fst]. intros [H1 H2].
  destruct (write_date_effect ev mode earliest latest m s result d)
    as (_ & _ & _ & _ & [(_ & _ & T & _ & L & _)
                        |[(row & _ & T & _ & L & _)
                        |(_ & _ & _ & E)]]).
  - unfold record_ids_inv. rewrite T, L. split.
    + rewrite map_app. apply NoDup_snoc; [exact H1|]. cbn [map TIMESERIESID].
      intros Hin. apply in_map_iff in Hin. destruct Hin as [r [Er Hr]].
      specialize (H2 r Hr). lia.
    + intros r Hr. apply in_app_iff in Hr. destruct Hr as [Hr|[<-|[]]]; [|simpl; lia].
      specialize (H2 r Hr). lia.
  - unfold record_ids_inv. rewrite T, L. auto.
  - rewrite E. split; assumption.
Qed.

Lemma write_batch_record_ids ev mode earliest latest start members batch result s :
  NoDup (map TIMESERIESID (TIMESERIES s)) ->
  NoDup (map TIMESERIESID
           (TIMESERIES (write_batch ev mode earliest latest start members batch result s))).
Proof.
  intros H. unfold write_batch.
  apply (fold_left_inv (fun st' => record_ids_inv (fst st'))).
  - intros a b _ Ha. unfold write_member.
    destruct (negb (skip_member (snd a) (hd 0 batch) (last batch 0) (earliest b) (latest b)
                                start)); [|exact Ha].
    apply (fold_left_inv (fun st' => record_ids_inv (fst st'))); [|exact Ha].
    intros. apply write_date_record_ids. assumption.
  - cbn [fst]. split; [exact H|]. cbn [TIMESERIES lastTimeSeriesId set_lastTimeSeriesId].
    intros r Hr. unfold sql_max.
    destruct (map TIMESERIESID (TIMESERIES s)) as [|x l] eqn:E.
    + apply (in_map TIMESERIESID) in Hr. rewrite E in Hr. destruct Hr.
    + simpl. apply fold_max_ge. rewrite <- E. apply in_map. exact Hr.
Qed.

(** X11: a run never gives a TIMESERIES record an id that is already in
    the table, so that the primary key is never violated, and it never
    deletes or changes a record: the table after the run is the table before
    it with rows added at the end, in every running mode. *)
Theorem record_ids_stay_unique (e : Env) (s s' : State) :
  NoDup (map TIMESERIESID (TIMESERIES s)) ->
  databaseUpdate e s = Some s' ->
  NoDup (map TIMESERIESID (TIMESERIES s')) /\
  exists added, TIMESERIES s' = TIMESERIES s ++ added.
Proof.
  intros K E. unfold databaseUpdate in E. split.
  - apply (demand_loop_inv e (demandsDF e s)
             (fun s0 => NoDup (map TIMESERIESID (TIMESERIES s0)))) in E; auto.
    intros mode leader earliest latest start s0 batch _ H0. unfold process_batch.
    destruct (retrieve e leader _ batch); [|exact H0].
    apply write_batch_record_ids. exact H0.
  - apply rows_loop_table_grows in E. exact E.
Qed.

Lemma record_ids_stay_unique_witness :
  match databaseUpdate
          (Sample.env 3 (fun _ => true) (fun d => Some (Sample.values d)))
          (Sample.store [Sample.demand 7 1 1 3] [Sample.record 5 7 1] [Sample.datum 5 10] 5)
  with
  | Some s' => NoDup (map TIMESERIESID (TIMESERIES s'))
  | None => False
  end.
Proof.
  destruct (databaseUpdate _ _) as [s'|] eqn:E.
  - refine (proj1 (record_ids_stay_unique _ _ s' _ E)).
    repeat constructor. simpl. tauto.
  - vm_compute in E. discriminate.
Defined.

End RecordIds.

(** ** What a run does to the demands (lines 2154-2165) *)

Section DemandsTable.

Import Writer Run.

Lemma write_batch_keeps_demands ev mode earliest latest start members batch result s :
  DEMANDS (write_batch ev mode earliest latest start members batch result s) = DEMANDS s.
Proof.
  apply (write_batch_inv members (fun s0 => DEMANDS s0 = DEMANDS s)); auto.
  - intros. apply write_date_keeps_demands. assumption.
  - apply incl_refl.
Qed.

Lemma process_batch_keeps_demands e mode leader members earliest latest start s batch :
  DEMANDS (process_batch e mode leader members earliest latest start s batch) = DEMANDS s.
Proof.
  unfold process_batch. destruct (retrieve e leader members batch); [|reflexivity].
  rewrite write_batch_keeps_demands. reflexivity.
Qed.

Lemma with_status_twice (a b : Z) (d : Demand) :
  with_status a (with_status b d) = with_status a d.
Proof. reflexivity. Qed.

Lemma reset_keeps_relation (leaders : list Demand) (leader : Demand) (D0 : list Demand) :
  forall D,
  In leader leaders -> 1 < DEMANDSTATUS leader ->
  Forall2 (status_reset_only leaders) D0 D ->
  Forall2 (status_reset_only leaders) D0
          (map (fun d => if DEMANDID d =? DEMANDID leader then with_status 1 d else d) D).
Proof.
  intros D Hl Hs H. induction H as [|d0 d D0' D' Hr _ IH]; simpl; constructor; [|exact IH].
  destruct (Z.eqb_spec (DEMANDID d) (DEMANDID leader)) as [E|_]; [|exact Hr].
  destruct Hr as [->|[-> Hex]].
  - right. split; [reflexivity|]. exists leader. auto.
  - right. split; [apply with_status_twice|exact Hex].
Qed.

Lemma Forall2_refl_on {A : Type} (R : A -> A -> Prop) (l : list A) :
  (forall x, R x x) -> Forall2 R l l.
Proof. intros H. induction l; constructor; auto. Qed.

Lemma Forall2_In_l {A B : Type} (R : A -> B -> Prop) (l : list A) (l' : list B) (x : A) :
  Forall2 R l l' -> In x l -> exists y, In y l' /\ R x y.
Proof.
  intros H. induction H as [|a b l l' Hab _ IH]; intros Hx; [destruct Hx|].
  destruct Hx as [<-|Hx].
  - exists b. split; [left; reflexivity|exact Hab].
  - destruct (IH Hx) as [y [Hy Hr]]. exists y. split; [right; exact Hy|exact Hr].
Qed.

(** X12: the only thing a run does to the demand table is to set to 1 the
    status of a demand whose id is that of an active, valid demand with a
    status above 1; every other column of every demand stays as it is, and
    so does, ids being unique, every demand with a status of 1 or below. *)
Theorem demands_only_lose_overrides (e : Env) (s s' : State) :
  databaseUpdate e s = Some s' ->
  Forall2 (status_reset_only (demandsDF e s)) (DEMANDS s) (DEMANDS s') /\
  (NoDup (map DEMANDID (DEMANDS s)) ->
   forall d, In d (DEMANDS s) -> DEMANDSTATUS d <= 1 -> In d (DEMANDS s')).
Proof.
  intros E. unfold databaseUpdate in E.
  assert (H : Forall2 (status_reset_only (demandsDF e s)) (DEMANDS s) (DEMANDS s')).
  { apply (demand_loop_inv e (demandsDF e s)
             (fun s0 => Forall2 (status_reset_only (demandsDF e s)) (DEMANDS s) (DEMANDS s0)))
      in E; auto.
    - intros leader s0 Hl Hs H0. cbn [DEMANDS set_DEMANDS].
      apply reset_keeps_relation; assumption.
    - intros mode leader earliest latest start s0 batch _ H0.
      rewrite process_batch_keeps_demands. exact H0.
    - cbn [load DEMANDS]. apply Forall2_refl_on. intros x. left. reflexivity. }
  split; [exact H|]. intros Hnd d Hd Hst.
  destruct (Forall2_In_l _ _ _ d H Hd) as [d' [Hd' [->|[_ (l & Hl & Hid & Hls)]]]];
    [exact Hd'|]. exfalso.
  apply demandsDF_incl in Hl. destruct Hl as [Hl _].
  assert (l = d) by (eapply NoDup_map_eq; eauto). subst l. lia.
Qed.

Lemma demands_only_lose_overrides_witness :
  let e := Sample.env 3 (fun _ => true) (fun d => Some (Sample.values d)) in
  let s := Sample.store [Sample.demand 1 4 1 2; Sample.demand 2 0 1 2] [] [] 0 in
  match databaseUpdate e s with
  | Some s' => Forall2 (status_reset_only (demandsDF e s)) (DEMANDS s) (DEMANDS s')
  | None => False
  end.
Proof.
  intros e s. destruct (databaseUpdate e s) as [s'|] eqn:E.
  - exact (proj1 (demands_only_lose_overrides e s s' E)).
  - vm_compute in E. discriminate.
Defined.

(** X13: a run adds TIMESERIES records for no demand but the active and
    valid ones: a record of the table after the run was in the table
    before it or belongs to a demand with a status above 0 that passed the
    checks. *)
Theorem records_only_for_active_demands (e : Env) (s s' : State) :
  databaseUpdate e s = Some s' ->
  forall r, In r (TIMESERIES s') ->
    In r (TIMESERIES s) \/
    exists d, In d (DEMANDS s) /\ DEMANDID d = TIMESERIESDEMANDID r /\
              0 < DEMANDSTATUS d /\ isValidRow e d = true.
Proof.
  intros E. unfold databaseUpdate in E.
  assert (G : forall r, In r (TIMESERIES s') ->
              In r (TIMESERIES s) \/
              In (TIMESERIESDEMANDID r) (map DEMANDID (demandsDF e s))).
  2:{ intros r Hr. destruct (G r Hr) as [H|H]; [left; exact H|right].
      apply in_map_iff in H. destruct H as [d [Hid Hd]]. exists d.
      unfold demandsDF in Hd. apply filter_In in Hd. destruct Hd as [Hd Hv].
      apply filter_In in Hd. destruct Hd as [Hd Hs].
      rewrite Z.gtb_ltb in Hs. apply Z.ltb_lt in Hs. auto. }
  refine (rows_loop_inv (map DEMANDID (demandsDF e s))
            (fun s0 => forall r, In r (TIMESERIES s0) ->
               In r (TIMESERIES s) \/
               In (TIMESERIESDEMANDID r) (map DEMANDID (demandsDF e s)))
            _ _ _ _ _ e (demandsDF e s) _ _ (load s) s' _ _ E); auto.
  - intros ev mode earliest latest m [s0 result] d Hm H0 r. cbn [fst] in *.
    destruct (write_date_effect ev mode earliest latest m s0 result d)
      as (_ & _ & _ & _ & [(_ & _ & T & _)|[(row & _ & T & _)|(_ & _ & _ & E0)]]).
    + rewrite T. intros Hr. apply in_app_iff in Hr. destruct Hr as [Hr|[<-|[]]]; auto.
    + rewrite T. apply H0.
    + rewrite E0. apply H0.
  - apply incl_refl.
Qed.

Lemma records_only_for_active_demands_witness :
  match databaseUpdate
          (Sample.env 3 (fun _ => true) (fun d => Some (Sample.values d)))
          (Sample.store [Sample.demand 1 1 1 2; Sample.demand 2 0 1 2] [] [] 0)
  with
  | Some s' => forall r, In r (TIMESERIES s') -> TIMESERIESDEMANDID r = 1
  | None => False
  end.
Proof.
  destruct (databaseUpdate _ _) as [s'|] eqn:E.
  - intros r Hr.
    destruct (records_only_for_active_demands _ _ s' E r Hr) as [[]|(d & Hd & Hid & Hs & _)].
    rewrite <- Hid. destruct Hd as [<-|[<-|[]]]; [reflexivity|]. simpl in Hs. lia.
  - vm_compute in E. discriminate.
Defined.

(** X14: when every retrieval fails, a run leaves TIMESERIES, DATA,
    STATISTICS and VARIABLES as they were, and it raises the error flag as
    soon as it has asked for a batch. *)
Theorem failed_retrieval_writes_nothing (e : Env) (s s' : State) :
  (forall leader ids batch, retrieve e leader ids batch = None) ->
  databaseUpdate e s = Some s' ->
  TIMESERIES s' = TIMESERIES s /\ DATA s' = DATA s /\
  STATISTICS s' = STATISTICS s /\ VARIABLES s' = VARIABLES s /\
  (existsb is_retrieval (history s') = true -> anyError s' = true).
Proof.
  intros Hf E. unfold databaseUpdate in E.
  apply (demand_loop_inv e (demandsDF e s)
           (untouched (TIMESERIES s) (DATA s) (STATISTICS s) (VARIABLES s))) in E; auto.
  - intros ev s0 Hev (A & B & C & D & F). unfold untouched. cbn.
    rewrite existsb_app. cbn. rewrite Hev, !orb_false_r. auto.
  - intros s0 (A & B & C & D & F). unfold untouched. cbn. auto.
  - intros mode leader earliest latest start s0 batch _ (A & B & C & D & F).
    unfold process_batch. rewrite Hf. unfold untouched. cbn. auto.
  - unfold untouched. cbn. repeat split; auto.
Qed.

Lemma failed_retrieval_writes_nothing_witness :
  let e := {| running_mode := 4; isValidRow := fun _ => true;
              collectionStartDate := fun _ => Some 0;
              nPixelsInAoI := fun _ => Some (100 # 1)%Q;
              getAvailableDates := fun _ dateList => dateList;
              export_vars := fun _ => ["img_time"%string];
              retrieve := fun _ _ _ => None |} in
  let s := Sample.store [Sample.demand 7 1 1 2] [Sample.record 1 7 1] [Sample.datum 1 10] 1 in
  match databaseUpdate e s with
  | Some s' => DATA s' = DATA s /\ anyError s' = true
  | None => False
  end.
Proof.
  intros e s. destruct (databaseUpdate e s) as [s'|] eqn:E.
  - destruct (failed_retrieval_writes_nothing e s s' ltac:(reflexivity) E)
      as (_ & D & _ & _ & F).
    split; [exact D|]. apply F. vm_compute in E. injection E as <-. reflexivity.
  - vm_compute in E. discriminate.
Defined.

End DemandsTable.

(** ** The grouping of the demands (lines 2168-2171) *)

Section Grouping.

Import Run.

Lemma same_key_eq (a b : Demand) :
  same_key a b = true ->
  DEMANDSTID b = DEMANDSTID a /\ DEMANDPRODUCTID b = DEMANDPRODUCTID a /\
  DEMANDPROCALGOID b = DEMANDPROCALGOID a /\ DEMANDREDUCID b = DEMANDREDUCID a /\
  DEMANDAOIMODE b = DEMANDAOIMODE a /\ DEMANDAOIRADIUS b = DEMANDAOIRADIUS a /\
  DEMANDAOIKMLFILE b = DEMANDAOIKMLFILE a.
Proof.
  unfold same_key. rewrite !andb_true_iff, !Z.eqb_eq, String.eqb_eq. tauto.
Qed.

(** X15: the rows grouped with a demand are the rows that agree with it on
    station, product, processing algorithm, reducer and area, so that the
    demand is in its own group and every member would lead the very same
    group: which rows are retrieved together does not depend on the row the
    loop meets first. *)
Theorem group_does_not_depend_on_leader (df : list Demand) (a b : Demand) :
  In a df ->
  same_key a b = true ->
  In a (group_of df a) /\ group_of df b = group_of df a.
Proof.
  intros Ha Hab. rewrite !group_of_filter. split.
  - apply filter_In. split; [exact Ha|apply same_key_refl].
  - apply filter_ext. intros x.
    apply same_key_eq in Hab. destruct Hab as (E1 & E2 & E3 & E4 & E5 & E6 & E7).
    unfold same_key. rewrite E1, E2, E3, E4, E5, E6, E7. reflexivity.
Qed.

Lemma group_does_not_depend_on_leader_witness :
  let df := [Sample.demand 1 1 1 5; Sample.demand 2 4 3 9] in
  In (Sample.demand 1 1 1 5) (group_of df (Sample.demand 1 1 1 5)) /\
  group_of df (Sample.demand 2 4 3 9) = group_of df (Sample.demand 1 1 1 5).
Proof.
  apply (group_does_not_depend_on_leader _ (Sample.demand 1 1 1 5) (Sample.demand 2 4 3 9)).
  - left. reflexivity.
  - reflexivity.
Defined.

End Grouping.

(** ** The batches of the specific-dates mode (lines 1786-1795) *)

Section SpecificDatesFacts.

Import SpecificDates.

Lemma nth_error_skipn {A : Type} (l : list A) : forall lo x,
  nth_error l lo = Some x -> skipn lo l = x :: skipn (S lo) l.
Proof.
  induction l as [|a l IH]; intros [|lo] x H; simpl in *; try discriminate.
  - injection H as ->. reflexivity.
  - apply IH. exact H.
Qed.

Lemma getitem_slice {A : Type} (l : list A) (len : nat) : forall lo,
  (lo + len <= length l)%nat ->
  all_some (map (py_getitem l) (map Z.of_nat (seq lo len))) = Some (firstn len (skipn lo l)).
Proof.
  induction len as [|len IH]; intros lo H; [reflexivity|].
  cbn [seq map all_some]. unfold py_getitem at 1.
  destruct (Z.leb_spec 0 (Z.of_nat lo)); [|lia]. rewrite Nat2Z.id.
  destruct (nth_error l lo) as [x|] eqn:E.
  - rewrite IH by lia. rewrite (nth_error_skipn l lo x E). reflexivity.
  - apply nth_error_None in E. lia.
Qed.

Lemma py_range_nat (lo len : nat) :
  py_range (Z.of_nat lo) (Z.of_nat lo + Z.of_nat len) = map Z.of_nat (seq lo len).
Proof.
  unfold py_range.
  replace (Z.of_nat lo + Z.of_nat len - Z.of_nat lo) with (Z.of_nat len) by lia.
  rewrite Nat2Z.id.
  assert (G : forall s, map (fun k => Z.of_nat lo + Z.of_nat k) (seq s len)
                        = map Z.of_nat (seq (lo + s) len)).
  { induction len as [|len IH]; intros s; [reflexivity|].
    cbn [seq map]. rewrite IH. f_equal; [lia|]. f_equal. f_equal. lia. }
  rewrite G. f_equal. f_equal. lia.
Qed.

Lemma firstn_short {A : Type} (l : list A) (a b : nat) :
  (length l <= a)%nat -> (length l <= b)%nat -> firstn a l = firstn b l.
Proof. intros Ha Hb. rewrite !firstn_all2 by assumption. reflexivity. Qed.

Lemma dateSublist_chunk (l : list date) (L k : nat) :
  (0 < L)%nat -> (k * L <= length l)%nat ->
  dateSublist l (Z.of_nat L) (Z.of_nat k) = Some (firstn L (skipn (k * L) l)).
Proof.
  intros HL Hk. unfold dateSublist.
  set (len := Nat.min L (length l - k * L)).
  replace (Z.of_nat k * Z.of_nat L) with (Z.of_nat (k * L)) by lia.
  replace (Z.min (Z.of_nat (k * L) + Z.of_nat L) (Z.of_nat (length l)))
    with (Z.of_nat (k * L) + Z.of_nat len) by (unfold len; lia).
  rewrite py_range_nat, getitem_slice by (unfold len; lia).
  f_equal. unfold len.
  destruct (Nat.le_ge_cases L (length l - k * L)) as [H|H].
  - rewrite Nat.min_l by exact H. reflexivity.
  - rewrite Nat.min_r by exact H. apply firstn_short; rewrite length_skipn; lia.
Qed.

Lemma all_some_map {A B : Type} (f : A -> option B) (g : A -> B) (l : list A) :
  (forall x, In x l -> f x = Some (g x)) -> all_some (map f l) = Some (map g l).
Proof.
  induction l as [|a l IH]; intros H; [reflexivity|].
  cbn [map all_some]. rewrite (H a) by (left; reflexivity).
  rewrite IH; [reflexivity|]. intros x Hx. apply H. right. exact Hx.
Qed.

Lemma concat_chunks {A : Type} (L : nat) : forall (m : nat) (l : list A),
  (length l <= m * L)%nat ->
  concat (map (fun k => firstn L (skipn (k * L) l)) (seq 0 m)) = l.
Proof.
  induction m as [|m IH]; intros l H.
  - destruct l; [reflexivity|simpl in H; lia].
  - cbn [seq map concat]. rewrite <- seq_shift, map_map. cbn [Nat.mul skipn].
    rewrite (map_ext _ (fun k => firstn L (skipn (k * L) (skipn L l)))).
    + rewrite IH; [apply firstn_skipn|]. rewrite length_skipn. simpl in H. lia.
    + intros k. rewrite skipn_skipn. f_equal. f_equal. simpl. lia.
Qed.

(** X16: in the specific-dates modes, over an area of positive size the
    date sublists are computed without an exception, none of them is empty
    or longer than the group length, and together they are the available
    dates, each date once and in order: every available date is requested
    in exactly one group. *)
Theorem date_sublists_partition (P : Q) (imgProcAlgo cap : Z) (availableDates : list date) :
  (0 < P)%Q ->
  Scheduler.nSimImgs_of imgProcAlgo = Some cap ->
  exists gs,
    dateSublists P imgProcAlgo availableDates = Some gs /\
    concat gs = availableDates /\
    Forall (fun g => g <> [] /\
                     Z.of_nat (length g) <= Z.min (Scheduler.maxNImgs P) cap) gs.
Proof.
  intros HP Hcap. unfold dateSublists.
  assert (Hq : Qeq_bool P 0 = false).
  { destruct (Qeq_bool P 0) eqn:E; [|reflexivity]. apply Qeq_bool_eq in E.
    rewrite E in HP. discriminate. }
  rewrite Hq, Hcap.
  pose proof (maxNImgs_pos P HP) as Hm. pose proof (nSimImgs_of_pos _ _ Hcap) as Hc.
  set (Lz := Z.min (Scheduler.maxNImgs P) cap).
  assert (HL : 0 < Lz) by (unfold Lz; lia).
  destruct (Z.eqb_spec Lz 0) as [E|_]; [lia|].
  set (L := Z.to_nat Lz).
  assert (ELz : Lz = Z.of_nat L) by (unfold L; lia).
  assert (HLn : (0 < L)%nat) by lia.
  set (n := length availableDates).
  pose proof (ceil_div_bound (Z.of_nat n) Lz HL) as Hb.
  set (m := Z.to_nat (Scheduler.ceil_div (Z.of_nat n) Lz)).
  assert (Em : Scheduler.ceil_div (Z.of_nat n) Lz = Z.of_nat m) by (unfold m; nia).
  rewrite Em in *.
  rewrite (py_range_nat 0 m : py_range 0 (Z.of_nat m) = _), map_map.
  exists (map (fun k => firstn L (skipn (k * L) availableDates)) (seq 0 m)).
  split; [|split].
  - apply all_some_map. intros k Hk. apply in_seq in Hk. rewrite ELz.
    apply dateSublist_chunk; [exact HLn|]. fold n. nia.
  - apply concat_chunks. fold n. nia.
  - apply Forall_forall. intros g Hg. apply in_map_iff in Hg.
    destruct Hg as [k [<- Hk]]. apply in_seq in Hk. split.
    + assert (Hlen : (k * L < n)%nat) by nia.
      destruct (skipn (k * L) availableDates) as [|x r] eqn:E.
      * apply (f_equal (@length _)) in E. rewrite length_skipn in E. simpl in E.
        fold n in E. lia.
      * destruct L; [lia|discriminate].
    + rewrite ELz. pose proof (firstn_le_length L (skipn (k * L) availableDates)). lia.
Qed.

Lemma date_sublists_partition_witness :
  exists gs,
    dateSublists (10000 # 1) 2 [1; 2; 3; 4; 5; 6; 7] = Some gs /\
    concat gs = [1; 2; 3; 4; 5; 6; 7] /\
    Forall (fun g => g <> [] /\
                     Z.of_nat (length g) <= Z.min (Scheduler.maxNImgs (10000 # 1)) 40) gs.
Proof.
  apply (date_sublists_partition (10000 # 1) 2 40 [1; 2; 3; 4; 5; 6; 7]).
  - reflexivity.
  - reflexivity.
Defined.

End SpecificDatesFacts.

(** ** The expansion to a time window (lines 1673-1706) *)

Section TimeWindowFacts.

Import TimeWindow.

Context {A : Type}.
Variable date_of : A -> date.
Variable valid : A -> bool.
Variable time_window : Z.

Lemma set_at_end_of_prefix {X : Type} (P : list (option X)) (y : option X)
    (rest : list (option X)) (x : X) :
  (length P <? length (P ++ y :: rest))%nat = true /\
  firstn (length P) (P ++ y :: rest) ++ Some x :: skipn (S (length P)) (P ++ y :: rest)
  = (P ++ [Some x]) ++ rest.
Proof.
  split.
  - apply Nat.ltb_lt. rewrite length_app. simpl. lia.
  - rewrite firstn_app, Nat.sub_diag, firstn_all, app_nil_r.
    replace (S (length P)) with (length (P ++ [y])) by (rewrite length_app; simpl; lia).
    replace (P ++ y :: rest) with ((P ++ [y]) ++ rest) by (rewrite <- app_assoc; reflexivity).
    rewrite skipn_app, Nat.sub_diag, skipn_all. simpl. rewrite <- app_assoc. reflexivity.
Qed.

Lemma which_from_snoc (l : list bool) (b : bool) : forall k,
  which_from k (l ++ [b]) = which_from k l ++ (if b then [(k + length l)%nat] else []).
Proof.
  induction l as [|a l IH]; intros k; simpl.
  - rewrite Nat.add_0_r. destruct b; reflexivity.
  - rewrite IH. replace (S k + length l)%nat with (k + S (length l))%nat by lia.
    destruct a; reflexivity.
Qed.

Lemma which_snoc (l : list bool) (b : bool) :
  which (l ++ [b]) = which l ++ (if b then [length l] else []).
Proof. unfold which. rewrite which_from_snoc. reflexivity. Qed.

Lemma filled_next (X : list A) (Y : list (option date)) (R : nat) (st : frame A) (row : A) :
  filled X Y (S R) st ->
  exists t,
    iloc_set (tmpDF st) (row_j st) row = Some t /\
    (forall d,
       filled (X ++ [row]) (Y ++ [Some d]) R
         {| tmpDF := t; imgDate := series_set (imgDate st) (row_j st) d;
            row_j := S (row_j st); validRows_new := validRows_new st ++ [row_j st] |}) /\
    filled (X ++ [row]) (Y ++ [None]) R
      {| tmpDF := t; imgDate := imgDate st; row_j := S (row_j st);
         validRows_new := validRows_new st |}.
Proof.
  intros (T & I & J & L & V). cbn [repeat] in T, I.
  destruct (set_at_end_of_prefix (map Some X) None (repeat None R) row) as [T1 T2].
  rewrite length_map in T1, T2.
  exists (map Some (X ++ [row]) ++ repeat None R). split; [|split].
  - unfold iloc_set. rewrite T, J, T1, T2, map_app. reflexivity.
  - intros d. unfold filled. cbn [tmpDF imgDate row_j validRows_new].
    split; [reflexivity|]. split; [|split; [|split]].
    + destruct (set_at_end_of_prefix Y None (repeat None R) d) as [I1 I2].
      unfold series_set. rewrite I, J, <- L, I1, I2. reflexivity.
    + rewrite length_app, J. simpl. lia.
    + rewrite !length_app, L. reflexivity.
    + rewrite map_app. cbn [map has_date]. rewrite which_snoc, V, length_map, J, L.
      reflexivity.
  - unfold filled. cbn [tmpDF imgDate row_j validRows_new].
    split; [reflexivity|]. split; [|split; [|split]].
    + rewrite I, <- app_assoc. reflexivity.
    + rewrite length_app, J. simpl. lia.
    + rewrite !length_app, L. reflexivity.
    + rewrite map_app. cbn [map has_date]. rewrite which_snoc, V, app_nil_r. reflexivity.
Qed.

Lemma window_loop_filled (row : A) (turns : nat) : forall date_j X Y R st,
  filled X Y (turns + R) st ->
  exists st',
    window_loop row turns date_j st = Some st' /\
    filled (X ++ repeat row turns)
           (Y ++ map (fun k => Some (date_j + Z.of_nat k)) (seq 0 turns)) R st'.
Proof.
  induction turns as [|turns IH]; intros date_j X Y R st H.
  - exists st. split; [reflexivity|]. simpl. rewrite !app_nil_r. exact H.
  - cbn [Nat.add] in H. destruct (filled_next X Y (turns + R) st row H) as (t & Et & Hd & _).
    cbn [window_loop]. rewrite Et.
    destruct (IH (date_j + 1) _ _ R _ (Hd date_j)) as (st' & E' & H').
    exists st'. split; [exact E'|].
    cbn [repeat seq map]. rewrite <- seq_shift, map_map.
    rewrite <- !app_assoc in H'. cbn [app] in H'.
    replace (date_j + Z.of_nat 0) with date_j by lia.
    rewrite (map_ext (fun k => Some (date_j + Z.of_nat (S k)))
                     (fun k => Some (date_j + 1 + Z.of_nat k))) by (intros; f_equal; lia).
    exact H'.
Qed.

Lemma in_validRows (done rest : list A) (row : A) :
  existsb (Nat.eqb (length done)) (which (map valid (done ++ row :: rest))) = valid row.
Proof.
  assert (N : nth_error (map valid (done ++ row :: rest)) (length done) = Some (valid row)).
  { rewrite map_app, nth_error_app2 by (rewrite length_map; lia).
    rewrite length_map, Nat.sub_diag. reflexivity. }
  destruct (valid row) eqn:E.
  - apply existsb_exists. exists (length done). split; [|apply Nat.eqb_refl].
    apply which_In. exact N.
  - destruct (existsb _ _) eqn:Ex; [|reflexivity].
    apply existsb_exists in Ex. destruct Ex as [i [Hi Ei]]. apply Nat.eqb_eq in Ei. subst i.
    apply which_In in Hi. congruence.
Qed.

Lemma rows_loop_filled (todo : list A) : forall done st,
  filled (window_rows valid time_window done) (window_dates date_of valid time_window done)
         (length (window_rows valid time_window todo)) st ->
  exists st',
    rows_loop date_of (which (map valid (done ++ todo))) time_window (length done) todo st
    = Some st' /\
    filled (window_rows valid time_window (done ++ todo))
           (window_dates date_of valid time_window (done ++ todo)) 0 st'.
Proof.
  induction todo as [|row rest IH]; intros done st H.
  - exists st. split; [reflexivity|]. rewrite app_nil_r. exact H.
  - cbn [rows_loop]. rewrite in_validRows.
    assert (Hsplit : done ++ row :: rest = (done ++ [row]) ++ rest)
      by (rewrite <- app_assoc; reflexivity).
    assert (Hlen : length (done ++ [row]) = S (length done))
      by (rewrite length_app; simpl; lia).
    unfold window_rows, window_dates in *. cbn [flat_map] in H.
    destruct (valid row) eqn:Ev.
    + rewrite length_app, repeat_length in H.
      destruct (window_loop_filled row _ (date_of row - time_window) _ _ _ _ H)
        as (st1 & E1 & H1).
      rewrite E1. rewrite Hsplit, <- Hlen. apply IH.
      rewrite !flat_map_app. cbn [flat_map]. rewrite Ev, !app_nil_r. exact H1.
    + cbn [app length] in H.
      destruct (filled_next _ _ _ st row H) as (t & Et & _ & H1).
      rewrite Et. rewrite Hsplit, <- Hlen. apply IH.
      rewrite !flat_map_app. cbn [flat_map]. rewrite Ev, !app_nil_r. exact H1.
Qed.

Lemma window_rows_length (rows : list A) :
  0 <= time_window ->
  Z.of_nat (length (window_rows valid time_window rows))
  = Z.of_nat (length (filter valid rows)) * (1 + time_window * 2)
    + (Z.of_nat (length rows) - Z.of_nat (length (filter valid rows))).
Proof.
  intros Hw. unfold window_rows. induction rows as [|row rows IH]; [reflexivity|].
  cbn [flat_map filter length]. rewrite length_app.
  destruct (valid row); cbn [length]; rewrite ?repeat_length; lia.
Qed.

(** X17: with a time window that is not negative, the expansion fills the
    frame it has set up exactly: no assignment falls outside it and no row
    is left empty.  Every valid row is there once for each day from
    [time_window] days before its date to [time_window] days after it, in
    order, every other row once and without an image date, and the new
    list of valid rows holds the positions of the rows with an image
    date. *)
Theorem window_expansion_fills_frame (rows : list A) :
  0 <= time_window ->
  expand date_of valid time_window rows
  = Some {| tmpDF := map Some (window_rows valid time_window rows);
            imgDate := window_dates date_of valid time_window rows;
            row_j := length (window_rows valid time_window rows);
            validRows_new :=
              which (map has_date (window_dates date_of valid time_window rows)) |}.
Proof.
  intros Hw. unfold expand.
  rewrite which_map_length, <- window_rows_length by exact Hw. rewrite Nat2Z.id.
  destruct (rows_loop_filled rows []
              {| tmpDF := repeat None (length (window_rows valid time_window rows));
                 imgDate := repeat None (length (window_rows valid time_window rows));
                 row_j := 0; validRows_new := [] |}) as (st' & E & T & I & J & _ & V).
  { unfold filled. cbn. auto. }
  cbn [app length] in E. rewrite E. f_equal.
  destruct st' as [t i j v]. cbn in *. rewrite !app_nil_r in *. subst. reflexivity.
Qed.

End TimeWindowFacts.

Lemma window_expansion_fills_frame_witness :
  TimeWindow.expand (fun row => fst row) (fun row => snd row) 1 [(10, true); (20, false)]
  = Some {| TimeWindow.tmpDF := [Some (10, true); Some (10, true); Some (10, true);
                                 Some (20, false)];
            TimeWindow.imgDate := [Some 9; Some 10; Some 11; None];
            TimeWindow.row_j := 4;
            TimeWindow.validRows_new := [0; 1; 2]%nat |}.
Proof.
  apply (window_expansion_fills_frame (fun row : Z * bool => fst row)
           (fun row : Z * bool => snd row) 1 [(10, true); (20, false)]).
  lia.
Defined.

(** ** The catalog tables of products and algorithms (lines 1874-1929) *)

Section CatalogSync.

Import Catalog.

Context {V : Type}.

Lemma spec_get_app (a b : list (Z * V)) (id : Z) :
  spec_get (a ++ b) id = match spec_get a id with
                         | Some v => Some v
                         | None => spec_get b id
                         end.
Proof.
  induction a as [|[k v] a IH]; simpl; [reflexivity|].
  destruct (k =? id); [reflexivity|exact IH].
Qed.

Lemma spec_get_None (l : list (Z * V)) (id : Z) :
  spec_get l id = None <-> ~ In id (map fst l).
Proof.
  induction l as [|[k v] l IH]; simpl; [tauto|].
  destruct (Z.eqb_spec k id) as [->|Hk].
  - split; [discriminate|]. intros H. exfalso. apply H. left. reflexivity.
  - rewrite IH. tauto.
Qed.

Lemma spec_get_In (l : list (Z * V)) (id : Z) (v : V) :
  NoDup (map fst l) -> In (id, v) l -> spec_get l id = Some v.
Proof.
  induction l as [|[k w] l IH]; simpl; intros Hnd Hin; [destruct Hin|].
  inversion Hnd as [|? ? Hk Hl]; subst.
  destruct Hin as [E|Hin].
  - injection E as -> ->. rewrite Z.eqb_refl. reflexivity.
  - destruct (Z.eqb_spec k id) as [->|_]; [|apply IH; assumption].
    exfalso. apply Hk. apply in_map_iff. exists (id, v). auto.
Qed.

Lemma synced_ids (specs table : list (Z * V)) :
  map fst (synced specs table)
  = map fst table ++ map fst (filter (fun spec => negb (isin (fst spec) (map fst table))) specs).
Proof.
  unfold synced. rewrite map_app, map_map. f_equal.
  apply map_ext. intros r. destruct (spec_get specs (fst r)); reflexivity.
Qed.

Lemma sync_fold (table : list (Z * V)) (todo : list (Z * V)) : forall done,
  NoDup (map fst (done ++ todo)) ->
  fold_left (upsert (map fst table)) todo (Some (synced done table))
  = Some (synced (done ++ todo) table).
Proof.
  induction todo as [|[id v] todo IH]; intros done Hnd.
  - rewrite app_nil_r. reflexivity.
  - assert (Hsplit : done ++ (id, v) :: todo = (done ++ [(id, v)]) ++ todo)
      by (rewrite <- app_assoc; reflexivity).
    assert (Hdone : ~ In id (map fst done)).
    { rewrite map_app in Hnd. apply NoDup_remove_2 in Hnd. intros H. apply Hnd.
      apply in_app_iff. auto. }
    rewrite Hsplit in *. cbn [fold_left]. rewrite <- IH by exact Hnd. f_equal.
    unfold upsert. cbn [fst snd].
    destruct (isin id (map fst table)) eqn:Hid; cbn [negb].
    + f_equal. unfold synced. rewrite map_app, map_map, filter_app. cbn [filter fst].
      rewrite Hid. cbn [negb]. rewrite app_nil_r. f_equal.
      * apply map_ext. intros r. rewrite spec_get_app. cbn [spec_get].
        destruct (spec_get done (fst r)) as [w|] eqn:Eg; cbn [fst].
        -- destruct (Z.eqb_spec (fst r) id) as [E|_]; [|reflexivity].
           exfalso. rewrite E in Eg.
           apply (proj2 (spec_get_None done id)) in Hdone. congruence.
        -- rewrite (Z.eqb_sym id). destruct (fst r =? id); [reflexivity|].
           destruct r; reflexivity.
      * rewrite <- (map_id (filter _ done)) at 2. apply map_ext_in.
        intros [k w] Hk. apply filter_In in Hk. destruct Hk as [_ Hk]. cbn [fst] in *.
        destruct (Z.eqb_spec k id) as [->|_]; [|reflexivity].
        rewrite Hid in Hk. discriminate.
    + rewrite synced_ids.
      assert (Hnew : isin id (map fst table
                              ++ map fst (filter (fun spec => negb (isin (fst spec)
                                                                    (map fst table))) done))
                     = false).
      { apply isin_false. intros H. apply in_app_iff in H. destruct H as [H|H].
        - apply isin_In in H. congruence.
        - apply Hdone. apply in_map_iff in H. destruct H as [x [<- Hx]].
          apply filter_In in Hx. apply in_map. tauto. }
      rewrite Hnew. f_equal. unfold synced. rewrite filter_app. cbn [filter fst].
      rewrite Hid. cbn [negb]. rewrite app_assoc. f_equal. f_equal.
      apply map_ext_in. intros r Hr. rewrite spec_get_app. cbn [spec_get].
      destruct (spec_get done (fst r)); [reflexivity|].
      destruct (Z.eqb_spec id (fst r)) as [E|_]; [|reflexivity].
      exfalso. apply isin_false in Hid. apply Hid. rewrite E. apply in_map. exact Hr.
Qed.

Lemma sync_table_synced (specs table : list (Z * V)) :
  NoDup (map fst specs) -> sync_table specs table = Some (synced specs table).
Proof.
  intros H. unfold sync_table.
  assert (E : synced [] table = table).
  { unfold synced. cbn [filter spec_get]. rewrite app_nil_r. apply map_id. }
  rewrite <- E at 2. apply (sync_fold table specs []). exact H.
Qed.

Lemma synced_In (specs table : list (Z * V)) (id : Z) (v : V) :
  NoDup (map fst specs) -> In (id, v) specs -> In (id, v) (synced specs table).
Proof.
  intros Hnd Hin. unfold synced. apply in_app_iff.
  destruct (isin id (map fst table)) eqn:Hid.
  - left. apply isin_In in Hid. apply in_map_iff in Hid. destruct Hid as [r [E Hr]].
    apply in_map_iff. exists r. split; [|exact Hr].
    rewrite E, (spec_get_In specs id v Hnd Hin). reflexivity.
  - right. apply filter_In. split; [exact Hin|]. cbn [fst]. rewrite Hid. reflexivity.
Qed.

Lemma synced_twice (specs table : list (Z * V)) :
  NoDup (map fst specs) -> synced specs (synced specs table) = synced specs table.
Proof.
  intros Hnd. unfold synced at 1.
  assert (Hf : forall l, incl l specs ->
               filter (fun spec => negb (isin (fst spec) (map fst (synced specs table)))) l
               = []).
  { induction l as [|[k w] l IH]; intros Hl; [reflexivity|]. cbn [filter fst].
    assert (Hin : In k (map fst (synced specs table))).
    { apply in_map_iff. exists (k, w). split; [reflexivity|].
      apply synced_In; [exact Hnd|]. apply Hl. left. reflexivity. }
    apply isin_In in Hin. rewrite Hin. cbn [negb]. apply IH.
    intros x Hx. apply Hl. right. exact Hx. }
  rewrite (Hf specs (incl_refl _)), app_nil_r.
  rewrite <- (map_id (synced specs table)) at 2. apply map_ext_in.
  intros r Hr. unfold synced in Hr. apply in_app_iff in Hr. destruct Hr as [Hr|Hr].
  - apply in_map_iff in Hr. destruct Hr as [r0 [<- _]].
    destruct (spec_get specs (fst r0)) as [v|] eqn:E; cbn [fst]; rewrite E; reflexivity.
  - apply filter_In in Hr. destruct Hr as [Hr _]. destruct r as [k w].
    cbn [fst]. rewrite (spec_get_In specs k w Hnd Hr). reflexivity.
Qed.

End CatalogSync.

Section CatalogTables.

Import Catalog.

(** X18: the dictionaries having distinct keys, [updateGEEDaRtables] ends
    without an exception and returns 0; in each of the four tables every
    row whose id the dictionary has carries the dictionary's columns, the
    other rows are left as they are (no row is deleted), and the entries the
    table lacked are appended, so that every entry of a dictionary is a row
    of its table.  Synchronising again changes nothing. *)
Theorem catalog_tables_synchronised (sp : specs) (db : tables) :
  dict_keys sp ->
  let db' := {| PRODUCTS := synced (product_specs sp) (PRODUCTS db);
                PROCALGOS := synced (img_proc_algo_specs sp) (PROCALGOS db);
                ESTIMALGOS := synced (estimation_algo_specs sp) (ESTIMALGOS db);
                REDUCERS := synced (reduction_specs sp) (REDUCERS db) |} in
  updateGEEDaRtables sp db = (0, db') /\
  updateGEEDaRtables sp db' = (0, db') /\
  incl (product_specs sp) (PRODUCTS db') /\
  incl (img_proc_algo_specs sp) (PROCALGOS db') /\
  incl (estimation_algo_specs sp) (ESTIMALGOS db') /\
  incl (reduction_specs sp) (REDUCERS db').
Proof.
  intros (K1 & K2 & K3 & K4) db'. split; [|split].
  - unfold updateGEEDaRtables. rewrite !sync_table_synced by assumption. reflexivity.
  - unfold updateGEEDaRtables, db'. cbn [PRODUCTS PROCALGOS ESTIMALGOS REDUCERS].
    rewrite !sync_table_synced by assumption. rewrite !synced_twice by assumption.
    reflexivity.
  - unfold db'. cbn [PRODUCTS PROCALGOS ESTIMALGOS REDUCERS].
    repeat split; intros [id v] H; apply synced_In; assumption.
Qed.

Lemma catalog_tables_synchronised_witness :
  let sp := {| product_specs := [(101, ("MOD09GA"%string, "Modis"%string, ""%string))];
               img_proc_algo_specs := [(0, ("None"%string, ""%string, ""%string))];
               estimation_algo_specs :=
                 [(0, ("None"%string, ""%string, ""%string, ""%string, ""%string))];
               reduction_specs := [(0, "none"%string); (1, "median"%string)] |} in
  let db := {| PRODUCTS := []; PROCALGOS := []; ESTIMALGOS := [];
               REDUCERS := [(1, "mean"%string); (9, "old"%string)] |} in
  fst (updateGEEDaRtables sp db) = 0 /\
  REDUCERS (snd (updateGEEDaRtables sp db))
  = [(1, "median"%string); (9, "old"%string); (0, "none"%string)].
Proof.
  intros sp db.
  destruct (catalog_tables_synchronised sp db) as (E & _).
  - repeat split; repeat constructor; simpl; intuition discriminate.
  - rewrite E. split; reflexivity.
Defined.

End CatalogTables.

(** ** The time of the image in a group of several members (lines
    2313-2319) *)

Section ImageTime.

Import Writer.

Lemma values_get_popped (vs : values_t) (name : string) :
  values_get (values_pop vs name) name = None.
Proof.
  unfold values_pop. induction vs as [|[k v] vs IH]; simpl; [reflexivity|].
  destruct (String.eqb_spec k name) as [->|Hk]; simpl; [exact IH|].
  destruct (String.eqb_spec k name); [contradiction|exact IH].
Qed.

Lemma save_values_pops ev (result : result_t) (s : State) (d d' : date) :
  (d' = d \/ popped result d) -> popped (snd (save_values ev result s d')) d.
Proof.
  intros H. unfold save_values.
  destruct (in_result d' result) eqn:Hin.
  - apply in_result_get in Hin. destruct Hin as [vs Hvs]. rewrite Hvs.
    assert (G : forall vs', values_get vs' "img_time" = None ->
                (d' = d \/ popped result d) -> popped (result_set result d' vs') d).
    { intros vs' Hn Hd vs0. rewrite (result_get_set result d d' vs vs' Hvs).
      destruct (Z.eqb_spec d' d) as [E|E].
      - intros E0. injection E0 as <-. exact Hn.
      - destruct Hd as [Hd|Hd]; [contradiction|]. apply Hd. }
    destruct (values_get vs "img_time") as [t|] eqn:Et; cbn [snd].
    + apply G; [apply values_get_popped|exact H].
    + apply G; [exact Et|exact H].
  - cbn [snd]. destruct H as [->|H]; [|exact H].
    intros vs Hvs. assert (in_result d result = true) by (apply in_result_get; eauto).
    congruence.
Qed.

Lemma save_values_times ev (result : result_t) (s : State) (d : date) :
  popped result d ->
  forall x, In x (DATA (fst (save_values ev result s d))) ->
            In x (DATA s) \/ DATATIME x = Str "00:00".
Proof.
  intros Hp x. unfold save_values.
  destruct (in_result d result); [|auto].
  destruct (result_get result d) as [vs|] eqn:Hvs; [|auto].
  rewrite (Hp vs Hvs). cbn [fst].
  pose proof (save_value_fold ev (Str "00:00") vs s) as [_ H].
  destruct (currTimeSeriesId s).
  - destruct H as (rows & E & _ & _ & T). rewrite E. intros Hx.
    apply in_app_iff in Hx. destruct Hx as [Hx|Hx]; [auto|].
    right. rewrite Forall_forall in T. apply T. exact Hx.
  - rewrite H. auto.
Qed.

Lemma open_record_data_subset mode earliest latest m (result : result_t) s d :
  incl (DATA (open_record mode earliest latest m result s d)) (DATA s).
Proof.
  destruct (open_record_cases mode earliest latest m result s d)
    as [(_ & _ & E)|[(_ & E)|(_ & _ & _ & E)]]; rewrite E; clear E.
  - apply incl_refl.
  - destruct (mode =? 4); [apply incl_filter|apply incl_refl].
  - apply incl_refl.
Qed.

Lemma write_date_after_first (batch : list date) (D1 : list DataRow) ev mode earliest latest
    m st d :
  In d batch ->
  after_first_member batch D1 st ->
  after_first_member batch D1 (write_date ev mode earliest latest m st d).
Proof.
  destruct st as [s result]. intros Hd [Hp Hx]. cbn [fst snd] in *.
  rewrite write_date_unfold. split.
  - intros d0 Hd0. apply save_values_pops. right. apply Hp. exact Hd0.
  - intros x Hin. apply save_values_times in Hin; [|apply Hp; exact Hd].
    destruct Hin as [Hin|Hin]; [|auto].
    apply Hx. eapply open_record_data_subset. exact Hin.
Qed.

Lemma write_member_pops ev mode earliest latest start batch st m d :
  In d batch ->
  popped (snd (write_member ev mode earliest latest start batch st m)) d.
Proof.
  intros Hd. unfold write_member.
  destruct (skip_member (snd st) (hd 0 batch) (last batch 0) (earliest m) (latest m) start)
    eqn:Es; cbn [negb].
  - unfold skip_member in Es. destruct (snd st); [|discriminate].
    intros vs H. discriminate.
  - apply (fold_left_reach (fun _ => True) (fun st' => popped (snd st') d) _ batch d);
      auto.
    + intros [s0 r0] d' Hp. rewrite write_date_unfold. apply save_values_pops. auto.
    + intros [s0 r0] _. rewrite write_date_unfold. apply save_values_pops. auto.
Qed.

(** X19: the time of the image is taken out of the result the first time
    a date is written, and the result is shared by the members of a group:
    every data row that a batch writes for a member after the first carries
    the time 00:00, whatever the time of the image.  In a group of two
    members over one day, the first member's row has the image's 10:30 and
    the second member's row 00:00. *)
Theorem later_members_lose_image_time :
  (forall ev mode earliest latest start m1 rest batch result s x,
      In x (DATA (write_batch ev mode earliest latest start (m1 :: rest) batch result s)) ->
      In x (DATA (write_batch ev mode earliest latest start [m1] batch result s)) \/
      DATATIME x = Str "00:00") /\
  map DATATIME
    (DATA (write_batch ["img_time"%string] 3 (fun _ => 1) (fun _ => 1) 1 [1; 2] [1]
             [(1, Sample.values 10)]
             (Sample.store [Sample.demand 1 1 1 1; Sample.demand 2 1 1 1] [] [] 0)))
  = [Str "10:30"; Str "00:00"].
Proof.
  split; [|reflexivity].
  intros ev mode earliest latest start m1 rest batch result s x.
  unfold write_batch. cbn [fold_left].
  match goal with |- context [fold_left ?f rest ?st1] => set (st := st1); set (step := f) end.
  intros Hx.
  assert (H : after_first_member batch (DATA (fst st)) (fold_left step rest st)).
  { apply (fold_left_inv (after_first_member batch (DATA (fst st)))).
    - intros a m _ Ha. unfold step, write_member.
      destruct (negb (skip_member (snd a) (hd 0 batch) (last batch 0) (earliest m) (latest m)
                                  start)); [|exact Ha].
      apply (fold_left_inv (after_first_member batch (DATA (fst st)))); [|exact Ha].
      intros a0 d Hd Ha0. apply write_date_after_first; assumption.
    - split; [|auto]. intros d Hd. unfold st. apply write_member_pops. exact Hd. }
  destruct H as [_ H]. apply H. exact Hx.
Qed.

End ImageTime.

(** ** The command line (lines 2690-2733) *)

Section CommandLine.

Import Args.

Lemma par_set_keys (rp : list (ascii * string)) (key : ascii) (value : string) :
  map fst (par_set rp key value) = map fst rp.
Proof.
  unfold par_set. rewrite map_map. apply map_ext. intros [k v]. cbn [fst].
  destruct (Ascii.eqb k key); reflexivity.
Qed.

Lemma par_set_twice (rp : list (ascii * string)) (key : ascii) (v w : string) :
  par_set (par_set rp key v) key w = par_set rp key w.
Proof.
  unfold par_set. rewrite map_map. apply map_ext. intros [k x]. cbn [fst].
  destruct (Ascii.eqb k key) eqn:E; cbn [fst]; rewrite E; reflexivity.
Qed.

Lemma parse_arg_keys (st st' : bool * list (ascii * string)) (arg : string) :
  parse_arg st arg = Some st' -> map fst (snd st') = map fst (snd st).
Proof.
  destruct st as [ip rp]. unfold parse_arg.
  destruct (char_is arg 0 "-") as [h|]; [|discriminate].
  destruct (if negb h then if negb ip then Some (("-i:" ++ arg)%string, true) else None
            else Some (arg, ip)) as [[arg1 ip1]|]; [|discriminate].
  destruct (char_is arg1 0 "-") as [h1|]; [|discriminate].
  match goal with |- context [char_is ?a 0 "-"] => destruct (char_is a 0 "-") as [h2|] end;
    [|discriminate].
  match goal with |- context [if h2 then ?x else _] =>
    destruct (if h2 then x else Some false) as [[|]|] end; try discriminate.
  match goal with |- context [(?n <? 4)%nat] => destruct (n <? 4)%nat end; [discriminate|].
  match goal with |- context [String.get 1 ?a] => destruct (String.get 1 a) as [key|] end;
    [|discriminate].
  destruct (negb (par_has rp key)); [discriminate|].
  intros E. injection E as <-. cbn [snd]. apply par_set_keys.
Qed.

Lemma substring_all (s : string) : String.substring 0 (String.length s) s = s.
Proof. induction s as [|c s IH]; simpl; [reflexivity|]. rewrite IH. reflexivity. Qed.

Lemma parse_named_input (ip : bool) (rp : list (ascii * string)) (q : string) :
  q <> ""%string -> par_has rp "i" = true ->
  parse_arg (ip, rp) ("-i:" ++ q) = Some (true, par_set rp "i" q).
Proof.
  intros Hq Hi. destruct q as [|c q]; [contradiction|].
  unfold parse_arg. cbn -[par_has par_set]. rewrite Hi. cbn -[par_set].
  rewrite substring_all, orb_true_r. reflexivity.
Qed.

Lemma parse_positional (rp : list (ascii * string)) (p : string) :
  positional p -> par_has rp "i" = true ->
  parse_arg (false, rp) p = Some (true, par_set rp "i" p) /\
  parse_arg (true, rp) p = None.
Proof.
  intros (c & rest & -> & Hc) Hi.
  assert (E : Ascii.eqb c "-" = false) by (apply Ascii.eqb_neq; exact Hc).
  unfold parse_arg, char_is. cbn [String.get]. rewrite E. cbn [negb]. split; [|reflexivity].
  cbn -[par_has par_set]. rewrite Hi. cbn -[par_set].
  rewrite substring_all. reflexivity.
Qed.

(** X20: the command line never adds a key to [run_par]; a path given
    without a name is taken as the input file, and a named input file
    after it replaces it without a word, while the same two arguments in the
    other order are refused; a flag given alone, the help flag apart, is
    read as set to "True". *)
Theorem command_line_options :
  (forall arg_list rp, parse arg_list = Parsed rp -> map fst rp = map fst run_par) /\
  (forall prog p q,
      positional p -> q <> ""%string ->
      parse [prog; p; ("-i:" ++ q)%string] = Parsed (par_set run_par "i" q) /\
      parse [prog; ("-i:" ++ q)%string; p] = Raised) /\
  (forall prog key,
      par_has run_par key = true -> key <> "h"%char ->
      parse [prog; String "-" (String key "")]
      = Parsed (par_set run_par key "True")).
Proof.
  split; [|split].
  - intros arg_list rp. unfold parse.
    destruct (length arg_list <? 2)%nat; [discriminate|].
    match goal with |- context [if ?c then Quit else _] => destruct c end; [discriminate|].
    assert (G : forall args st0,
               match st0 with
               | Some st => map fst (snd st) = map fst run_par
               | None => True
               end ->
               match fold_left (fun st arg => match st with
                                              | None => None
                                              | Some st1 => parse_arg st1 arg
                                              end) args st0 with
               | Some st => map fst (snd st) = map fst run_par
               | None => True
               end).
    { induction args as [|a args IH]; intros st0 H0; [exact H0|].
      cbn [fold_left]. apply IH. destruct st0 as [st|]; [|exact I].
      destruct (parse_arg st a) as [st'|] eqn:E; [|exact I].
      rewrite (parse_arg_keys st st' a E). exact H0. }
    specialize (G (tl arg_list) (Some (false, run_par)) eq_refl).
    destruct (fold_left _ (tl arg_list) _) as [[ip rp']|]; [|discriminate].
    destruct (negb (String.eqb (par_get rp' "h") "")); [discriminate|].
    intros E. injection E as <-. exact G.
  - intros prog p q Hp Hq. unfold parse. cbn [length Nat.ltb Nat.leb Nat.eqb andb tl fold_left].
    destruct (parse_positional run_par p Hp eq_refl) as [E1 _]. split.
    + rewrite E1, parse_named_input by (exact Hq || reflexivity).
      rewrite par_set_twice. reflexivity.
    + rewrite parse_named_input by (exact Hq || reflexivity).
      destruct (parse_positional (par_set run_par "i" q) p Hp eq_refl) as [_ E2].
      rewrite E2. reflexivity.
  - intros prog key Hk Hh. unfold par_has in Hk. apply existsb_exists in Hk.
    destruct Hk as [[k v] [Hin Ek]]. cbn [fst] in Ek. apply Ascii.eqb_eq in Ek. subst k.
    unfold run_par in Hin. cbn [In] in Hin.
    repeat (destruct Hin as [E|Hin];
            [injection E as <- _; try contradiction; reflexivity|]).
    destruct Hin.
Qed.

Lemma command_line_options_witness :
  parse ["GEEDaR.py"%string; "sites.csv"%string; "-i:other.csv"%string]
  = Parsed (par_set run_par "i" "other.csv") /\
  parse ["GEEDaR.py"%string; "-i:other.csv"%string; "sites.csv"%string] = Raised.
Proof.
  apply (proj1 (proj2 command_line_options)).
  - exists "s"%char, "ites.csv"%string. split; [reflexivity|discriminate].
  - discriminate.
Defined.

End CommandLine.

(** ** The processing code (lines 432-507) *)

Section ProcessingCodeFacts.

Import ProcessingCode.

Lemma digit_is_not (c x : ascii) :
  is_digit c = true -> is_digit x = false -> Ascii.eqb c x = false.
Proof.
  intros Hc Hx. destruct (Ascii.eqb_spec c x) as [->|_]; [congruence|reflexivity].
Qed.

Lemma digit_val_range (c : ascii) : is_digit c = true -> 0 <= digit_val c <= 9.
Proof.
  unfold is_digit, digit_val. rewrite andb_true_iff, !N.leb_le. lia.
Qed.

Variable py_int : string -> option Z.
Variable available_products : list Z.
Hypothesis py_int_decimals : reads_decimals py_int.

(** X21: a code of eight decimal digits PPPSSRRA whose parts are known is
    unfolded into itself as a number and its four parts by position: the
    product is the code divided by 100000, the processing algorithm the two
    digits that follow, the estimation algorithm the next two, and the
    reducer the last digit. *)
Theorem well_formed_code_decodes (strCode : string) (silent : bool) :
  String.length strCode = 8%nat ->
  all_digits strCode = true ->
  10000000 <= decimal strCode ->
  isin (decimal strCode / 100000) available_products = true ->
  isin (decimal strCode / 1000 mod 100) img_proc_algo_list = true ->
  isin (decimal strCode / 10 mod 100) estimation_algo_list = true ->
  decimal strCode mod 10 < 8 ->
  unfoldProcessingCode py_int available_products strCode silent
  = Codes [decimal strCode] [decimal strCode / 100000] [decimal strCode / 1000 mod 100]
          [decimal strCode / 10 mod 100] [decimal strCode mod 10].
Proof.
  intros Hlen Hd.
  destruct strCode as [|c0 [|c1 [|c2 [|c3 [|c4 [|c5 [|c6 [|c7 [|c8 s]]]]]]]]];
    try discriminate. clear Hlen.
  cbn [all_digits] in Hd. rewrite !andb_true_iff in Hd.
  destruct Hd as (D0 & D1 & D2 & D3 & D4 & D5 & D6 & D7 & _).
  pose proof (digit_val_range c0 D0) as R0. pose proof (digit_val_range c1 D1) as R1.
  pose proof (digit_val_range c2 D2) as R2. pose proof (digit_val_range c3 D3) as R3.
  pose proof (digit_val_range c4 D4) as R4. pose proof (digit_val_range c5 D5) as R5.
  pose proof (digit_val_range c6 D6) as R6. pose proof (digit_val_range c7 D7) as R7.
  set (code := decimal _).
  assert (Ecode : code = 10000000 * digit_val c0 + 1000000 * digit_val c1
                         + 100000 * digit_val c2 + 10000 * digit_val c3
                         + 1000 * digit_val c4 + 100 * digit_val c5
                         + 10 * digit_val c6 + digit_val c7).
  { unfold code, decimal. cbn [decimal_from]. lia. }
  assert (EP : code / 100000 = 100 * digit_val c0 + 10 * digit_val c1 + digit_val c2).
  { symmetry. apply (Z.div_unique code 100000 _
                       (10000 * digit_val c3 + 1000 * digit_val c4 + 100 * digit_val c5
                        + 10 * digit_val c6 + digit_val c7)); lia. }
  assert (ES : code / 1000 mod 100 = 10 * digit_val c3 + digit_val c4).
  { assert (E1 : code / 1000 = 10000 * digit_val c0 + 1000 * digit_val c1
                               + 100 * digit_val c2 + 10 * digit_val c3 + digit_val c4).
    { symmetry. apply (Z.div_unique code 1000 _
                         (100 * digit_val c5 + 10 * digit_val c6 + digit_val c7)); lia. }
    rewrite E1. symmetry.
    apply (Z.mod_unique _ 100 (100 * digit_val c0 + 10 * digit_val c1 + digit_val c2)); lia. }
  assert (ER : code / 10 mod 100 = 10 * digit_val c5 + digit_val c6).
  { assert (E1 : code / 10 = 1000000 * digit_val c0 + 100000 * digit_val c1
                             + 10000 * digit_val c2 + 1000 * digit_val c3
                             + 100 * digit_val c4 + 10 * digit_val c5 + digit_val c6).
    { symmetry. apply (Z.div_unique code 10 _ (digit_val c7)); lia. }
    rewrite E1. symmetry.
    apply (Z.mod_unique _ 100 (10000 * digit_val c0 + 1000 * digit_val c1
                               + 100 * digit_val c2 + 10 * digit_val c3 + digit_val c4)); lia. }
  assert (EA : code mod 10 = digit_val c7).
  { symmetry.
    apply (Z.mod_unique _ 10 (1000000 * digit_val c0 + 100000 * digit_val c1
                              + 10000 * digit_val c2 + 1000 * digit_val c3
                              + 100 * digit_val c4 + 10 * digit_val c5 + digit_val c6)); lia. }
  intros Hmin HP HS HR HA.
  unfold unfoldProcessingCode.
  cbn [String.length Nat.ltb Nat.leb String.get last_char].
  rewrite (digit_is_not c0 "[" D0 eq_refl). cbn [andb].
  cbn [remove_spaces].
  rewrite (digit_is_not c0 " " D0 eq_refl), (digit_is_not c1 " " D1 eq_refl),
          (digit_is_not c2 " " D2 eq_refl), (digit_is_not c3 " " D3 eq_refl),
          (digit_is_not c4 " " D4 eq_refl), (digit_is_not c5 " " D5 eq_refl),
          (digit_is_not c6 " " D6 eq_refl), (digit_is_not c7 " " D7 eq_refl).
  cbn [split_commas].
  rewrite (digit_is_not c0 "," D0 eq_refl), (digit_is_not c1 "," D1 eq_refl),
          (digit_is_not c2 "," D2 eq_refl), (digit_is_not c3 "," D3 eq_refl),
          (digit_is_not c4 "," D4 eq_refl), (digit_is_not c5 "," D5 eq_refl),
          (digit_is_not c6 "," D6 eq_refl), (digit_is_not c7 "," D7 eq_refl).
  cbn [unfold_codes String.substring last_char].
  rewrite !py_int_decimals
    by (try discriminate; cbn [all_digits];
        rewrite ?D0, ?D1, ?D2, ?D3, ?D4, ?D5, ?D6, ?D7; reflexivity).
  fold code.
  assert (E3 : decimal (String c0 (String c1 (String c2 ""))) = code / 100000).
  { rewrite EP. unfold decimal. cbn [decimal_from]. lia. }
  assert (E2a : decimal (String c3 (String c4 "")) = code / 1000 mod 100).
  { rewrite ES. unfold decimal. cbn [decimal_from]. lia. }
  assert (E2b : decimal (String c5 (String c6 "")) = code / 10 mod 100).
  { rewrite ER. unfold decimal. cbn [decimal_from]. lia. }
  assert (E1 : decimal (String c7 "") = code mod 10).
  { rewrite EA. unfold decimal. cbn [decimal_from]. lia. }
  rewrite E3, E2a, E2b, E1, HP, HS, HR. cbn [negb].
  destruct (Z.ltb_spec code 10000000); [lia|].
  destruct (Z.leb_spec 0 (code mod 10)); [|lia].
  destruct (Z.ltb_spec (code mod 10) n_reducers); [|unfold n_reducers in *; lia].
  reflexivity.
Qed.

End ProcessingCodeFacts.

Lemma well_formed_code_decodes_witness :
  let py_int := fun s => if all_digits s && negb (String.eqb s "") then Some (decimal s)
                         else None in
  ProcessingCode.unfoldProcessingCode py_int [101; 201] "20109001" false
  = ProcessingCode.Codes [20109001] [201] [9] [0] [1].
Proof.
  intros py_int.
  apply (well_formed_code_decodes py_int [101; 201]).
  - intros s Hs Hd. unfold py_int. rewrite Hd.
    destruct (String.eqb_spec s ""); [contradiction|reflexivity].
  - reflexivity.
  - reflexivity.
  - vm_compute. discriminate.
  - reflexivity.
  - reflexivity.
  - reflexivity.
  - reflexivity.
Defined.

(** ** The bit masks of the quality layers (lines 572-582) *)

Section QaMaskFacts.

Import QaMask.

Lemma sum_of_powers (s : Z) (n : nat) : forall a,
  0 <= s ->
  fold_left (fun acc j => acc + 2 ^ j) (map (fun k => s + Z.of_nat k) (seq 0 n)) a
  = a + 2 ^ (s + Z.of_nat n) - 2 ^ s.
Proof.
  induction n as [|n IH]; intros a Hs.
  - simpl. rewrite Z.add_0_r. lia.
  - rewrite seq_S, map_app, fold_left_app, IH by exact Hs. cbn [map fold_left Nat.add].
    replace (s + Z.of_nat (S n)) with (Z.succ (s + Z.of_nat n)) by lia.
    rewrite Z.pow_succ_r by lia. lia.
Qed.

Lemma bitToInt_ones (s e : Z) :
  0 <= s <= e -> bitToInt s e = Z.shiftl (Z.ones (e - s + 1)) s.
Proof.
  intros H. unfold bitToInt, SpecificDates.py_range.
  rewrite sum_of_powers by lia. rewrite Z2Nat.id by lia.
  rewrite Z.shiftl_mul_pow2, Z.ones_equiv by lia.
  replace (s + (e + 1 - s)) with ((e - s + 1) + s) by lia.
  rewrite Z.pow_add_r by lia. lia.
Qed.

(** X22: for a field from [startBit] to [endBit], at positions a float
    holds, the mask value has the bits of the field set and no other, and
    what is tested on a pixel of the quality layer whose value the cast to a
    32-bit integer leaves alone is, after the mask and the shift, the number
    written by the bits of the field. *)
Theorem qa_mask_selects_field (startBit endBit pixel : Z) :
  0 <= startBit <= endBit -> endBit < 1024 ->
  0 <= pixel < 2 ^ 31 ->
  bitToInt startBit endBit = 2 ^ (endBit + 1) - 2 ^ startBit /\
  (forall k, 0 <= k ->
     Z.testbit (bitToInt startBit endBit) k = (startBit <=? k) && (k <=? endBit)) /\
  tested startBit endBit pixel = (pixel / 2 ^ startBit) mod 2 ^ (endBit - startBit + 1).
Proof.
  intros H _ _. split; [|split].
  - unfold bitToInt, SpecificDates.py_range. rewrite sum_of_powers by lia.
    rewrite Z2Nat.id by lia. replace (startBit + (endBit + 1 - startBit)) with (endBit + 1)
      by lia. lia.
  - intros k Hk. rewrite bitToInt_ones by exact H. rewrite Z.shiftl_spec by exact Hk.
    destruct (Z.leb_spec startBit k) as [Hs|Hs]; cbn [andb].
    + rewrite Z.testbit_ones_nonneg by lia.
      destruct (Z.ltb_spec (k - startBit) (endBit - startBit + 1));
        destruct (Z.leb_spec k endBit); (reflexivity || lia).
    + apply Z.testbit_neg_r. lia.
  - unfold tested. rewrite bitToInt_ones by exact H.
    rewrite Z.shiftr_land, Z.shiftr_shiftl_l by lia. rewrite Z.sub_diag, Z.shiftl_0_r.
    rewrite Z.land_ones by lia. rewrite Z.shiftr_div_pow2 by lia. reflexivity.
Qed.

Lemma qa_mask_selects_field_witness :
  bitToInt 6 7 = 2 ^ (7 + 1) - 2 ^ 6 /\
  (forall k, 0 <= k -> Z.testbit (bitToInt 6 7) k = (6 <=? k) && (k <=? 7)) /\
  tested 6 7 200 = (200 / 2 ^ 6) mod 2 ^ (7 - 6 + 1).
Proof.
  apply (qa_mask_selects_field 6 7 200); lia.
Defined.

End QaMaskFacts.

(** ** What an update pass over a group reaches (lines 2199-2377) *)

Section UpdateCoverage.

Import Writer Run.

(** X23: against a provider that answers date by date and never fails, an
    update pass over a group with an area of positive size leaves, for every
    member of the group, a TIMESERIES record of every day of the group's span
    for which the provider has values, whatever records the members had
    before and however the days were cut into batches. *)
Theorem update_reaches_every_date_with_values (e : Env) (avail : Demand -> date -> bool)
    (r : Demand -> list Z -> date -> option values_t)
    (leader : Demand) (group : list Demand) (pixels : Q) (s s' : State) (start stop : date) :
  answers_by_date e avail r ->
  view_sound s ->
  (0 < pixels)%Q ->
  process_group e 3 leader group pixels s = Some s' ->
  Planner.startDate (collectionStartDate e (DEMANDPRODUCTID leader))
                    (map DEMANDSTARTDATE group) = Some start ->
  Planner.endDate (map DEMANDENDDATE group) = Some stop ->
  forall d id,
    start <= d <= stop -> r leader (map DEMANDID group) d <> None ->
    In id (map DEMANDID group) ->
    records_of (TIMESERIES s') id d <> [].
Proof.
  intros Hp Hv Hpix E Hs He d id Hd Hr Hid.
  pose proof (group_completes e avail r Hp leader group pixels s s' start stop Hpix E Hs He)
    as Hc.
  assert (Hv' : view_sound s').
  { apply (process_group_inv (map DEMANDID group) view_sound) in E; auto.
    - intros. apply write_date_view_sound. assumption.
    - apply incl_refl. }
  specialize (Hc d id Hd Hr Hid).
  destruct (records_of (timeSeriesDF s') id d) as [|row rows] eqn:Er; [contradiction|].
  assert (Hin : In row (records_of (timeSeriesDF s') id d)) by (rewrite Er; left; reflexivity).
  apply records_of_In in Hin. destruct Hin as (Hin & H1 & H2).
  intros Hnil.
  assert (Hrow : In row (records_of (TIMESERIES s') id d)).
  { apply records_of_In. split; [apply Hv'; exact Hin|auto]. }
  rewrite Hnil in Hrow. destruct Hrow.
Qed.

Lemma update_reaches_every_date_with_values_witness :
  let r := fun d => if isin d [1; 3] then Some (Sample.values d) else None in
  let e := Sample.env 3 (fun _ => true) r in
  let s := Sample.store [Sample.demand 7 1 1 3] [] [] 0 in
  match process_group e 3 (Sample.demand 7 1 1 3) [Sample.demand 7 1 1 3] (100 # 1) s with
  | Some s' => records_of (TIMESERIES s') 7 3 <> []
  | None => False
  end.
Proof.
  intros r e s.
  destruct (process_group e 3 (Sample.demand 7 1 1 3) [Sample.demand 7 1 1 3] (100 # 1) s)
    as [s'|] eqn:E.
  - refine (update_reaches_every_date_with_values e (fun _ _ => true) (fun _ _ => r)
              (Sample.demand 7 1 1 3) [Sample.demand 7 1 1 3] (100 # 1) s s' 1 3
              _ _ _ E _ _ 3 7 _ _ _).
    + split; [|split].
      * intros. reflexivity.
      * intros. reflexivity.
      * intros. reflexivity.
    + intros x Hx. exact Hx.
    + reflexivity.
    + reflexivity.
    + reflexivity.
    + lia.
    + discriminate.
    + left. reflexivity.
  - vm_compute in E. discriminate.
Defined.

End UpdateCoverage.

(** ** A date with values and without a record (lines 2294-2364) *)

Section NewDate.

Import Writer.

Lemma fold_left_before_after {A B : Type} (Before After : A -> Prop) (f : A -> B -> A)
    (l : list B) (b : B) :
  In b l -> NoDup l ->
  (forall a x, x <> b -> Before a -> Before (f a x)) ->
  (forall a, Before a -> After (f a b)) ->
  (forall a x, x <> b -> After a -> After (f a x)) ->
  forall a, Before a -> After (fold_left f l a).
Proof.
  intros Hb Hn HB Hreach HA a Ha.
  destruct (in_split b l Hb) as [pre [post ->]].
  pose proof (NoDup_remove_2 _ _ _ Hn) as Hnot.
  rewrite fold_left_app. cbn [fold_left].
  apply (fold_left_inv After).
  - intros a0 x Hx H0. apply HA; [|exact H0]. intros ->. apply Hnot.
    apply in_or_app. right. exact Hx.
  - apply Hreach. apply (fold_left_inv Before); [|exact Ha].
    intros a0 x Hx H0. apply HB; [|exact H0]. intros ->. apply Hnot.
    apply in_or_app. left. exact Hx.
Qed.

Lemma write_date_before_new ev mode earliest latest L0 m d recs vals m' st d' :
  m' <> m \/ d' <> d ->
  before_new L0 m d recs vals st ->
  before_new L0 m d recs vals (write_date ev mode earliest latest m' st d').
Proof.
  intros Hkey (B1 & B2 & B3 & B4 & B5 & B6).
  pose proof (write_date_ids_bounded ev mode earliest latest m' st d' B2) as Hb.
  pose proof (write_date_keeps_keys ev mode earliest latest m' st d' d B5) as Hk.
  pose proof (write_date_saved ev mode earliest latest m' st d d') as Hs.
  destruct st as [s result]. cbn [fst snd] in *.
  unfold before_new. split; [|split; [exact Hb|split; [|split; [|split; [exact Hk|congruence]]]]].
  - destruct (write_date_effect ev mode earliest latest m' s result d')
      as (_ & _ & _ & _ & [(_ & _ & _ & F & _)|[(r & _ & _ & F & _)|(_ & _ & _ & E)]]).
    + rewrite F, records_of_app, B1, records_of_other_key by exact Hkey. reflexivity.
    + rewrite F. exact B1.
    + rewrite E. exact B1.
  - destruct (write_date_effect ev mode earliest latest m' s result d')
      as (_ & _ & _ & _ & [(_ & _ & _ & _ & L & _)|[(r & _ & _ & _ & L & _)|(_ & _ & _ & E)]]).
    + rewrite L. lia.
    + rewrite L. exact B3.
    + rewrite E. exact B3.
  - destruct (write_date_effect ev mode earliest latest m' s result d')
      as (_ & _ & _ & _ & [(_ & _ & T & _)|[(r & _ & T & _)|(_ & _ & _ & E)]]).
    + rewrite T, records_of_app, B4, records_of_other_key, app_nil_r by exact Hkey.
      reflexivity.
    + rewrite T. exact B4.
    + rewrite E. exact B4.
Qed.

Lemma write_date_makes_new ev mode earliest latest L0 m d recs vals st :
  before_new L0 m d recs vals st ->
  exists id, after_new L0 id m d recs vals (write_date ev mode earliest latest m st d).
Proof.
  intros (B1 & [B2 B2'] & B3 & B4 & B5 & B6). destruct st as [s result]. cbn [fst snd] in *.
  destruct (write_date_effect ev mode earliest latest m s result d)
    as (_ & _ & _ & _ & [(_ & _ & T & F & L & _ & rows & D & Drows & V)
                        |[(r & Hr & _)|(_ & Hout & _)]]).
  - exists (lastTimeSeriesId s + 1). unfold after_new. cbv zeta.
    rewrite T, F, L, D, !records_of_app, records_of_self, B1, B4.
    split; [lia|]. split; [lia|]. split; [|split; [reflexivity|split; [reflexivity|]]].
    + intros r Hr Hid. apply in_app_iff in Hr. destruct Hr as [Hr|[<-|[]]]; [|reflexivity].
      specialize (B2 r Hr). lia.
    + rewrite data_of_app, (data_of_bounded (DATA s) _ (lastTimeSeriesId s)) by (auto; lia).
      cbn [app]. rewrite (data_of_all rows _ Drows), V, B6. reflexivity.
  - rewrite B1 in Hr. destruct Hr.
  - congruence.
Qed.

Lemma write_date_after_new ev mode earliest latest L0 id m d recs vals m' st d' :
  m' <> m \/ d' <> d ->
  after_new L0 id m d recs vals st ->
  after_new L0 id m d recs vals (write_date ev mode earliest latest m' st d').
Proof.
  intros Hkey (A1 & A2 & A3 & A4 & A5 & A6). destruct st as [s result]. cbn [fst snd] in *.
  destruct (write_date_effect ev mode earliest latest m' s result d')
    as (_ & _ & _ & _ & [(_ & _ & T & F & L & _ & rows & D & Drows & _)
                        |[(r & Hr & T & F & L & _ & rows & D & Drows & _)
                        |(_ & _ & _ & E)]]).
  - unfold after_new. cbv zeta.
    rewrite T, F, L, D, !records_of_app, records_of_other_key, !app_nil_r by exact Hkey.
    split; [exact A1|]. split; [lia|]. split; [|split; [exact A4|split; [exact A5|]]].
    + intros r Hr Hid. apply in_app_iff in Hr. destruct Hr as [Hr|[<-|[]]]; [auto|].
      simpl in Hid. lia.
    + rewrite data_of_app, (data_of_none rows id (lastTimeSeriesId s + 1)), app_nil_r
        by (auto; lia). exact A6.
  - apply records_of_In in Hr. destruct Hr as (Hin & Hm & Hd).
    assert (Hne : TIMESERIESID r <> id).
    { intros Eid. specialize (A3 r Hin Eid). subst r. simpl in Hm, Hd.
      destruct Hkey; congruence. }
    unfold after_new. cbv zeta. rewrite T, F, L, D.
    split; [exact A1|]. split; [exact A2|]. split; [exact A3|].
    split; [exact A4|]. split; [exact A5|].
    rewrite data_of_app, (data_of_none rows id (TIMESERIESID r)), app_nil_r by auto.
    destruct (mode =? 4); [|exact A6]. rewrite data_of_filter_other by exact Hne. exact A6.
  - rewrite E. unfold after_new. auto 10.
Qed.

Lemma write_member_before_new ev mode earliest latest start batch L0 m d recs vals st m' :
  m' <> m ->
  before_new L0 m d recs vals st ->
  before_new L0 m d recs vals (write_member ev mode earliest latest start batch st m').
Proof.
  intros Hm H. unfold write_member.
  destruct (negb (skip_member (snd st) (hd 0 batch) (last batch 0) (earliest m') (latest m')
                              start)); [|exact H].
  apply (fold_left_inv (before_new L0 m d recs vals)); [|exact H].
  intros a x _ Ha. apply write_date_before_new; auto.
Qed.

Lemma write_member_after_new ev mode earliest latest start batch L0 id m d recs vals st m' :
  m' <> m ->
  after_new L0 id m d recs vals st ->
  after_new L0 id m d recs vals (write_member ev mode earliest latest start batch st m').
Proof.
  intros Hm H. unfold write_member.
  destruct (negb (skip_member (snd st) (hd 0 batch) (last batch 0) (earliest m') (latest m')
                              start)); [|exact H].
  apply (fold_left_inv (after_new L0 id m d recs vals)); [|exact H].
  intros a x _ Ha. apply write_date_after_new; auto.
Qed.

Lemma write_member_makes_new ev mode earliest latest start batch L0 m d recs vals st :
  NoDup batch -> In d batch ->
  before_new L0 m d recs vals st ->
  exists id,
    after_new L0 id m d recs vals (write_member ev mode earliest latest start batch st m).
Proof.
  intros Hn Hd H. unfold write_member.
  assert (G : skip_member (snd st) (hd 0 batch) (last batch 0) (earliest m) (latest m) start
              = false).
  { destruct H as (_ & _ & _ & _ & H5 & _). unfold skip_member.
    destruct (snd st); [discriminate|reflexivity]. }
  rewrite G. cbn [negb].
  apply (fold_left_before_after (before_new L0 m d recs vals)
           (fun st' => exists id, after_new L0 id m d recs vals st')
           (write_date ev mode (earliest m) (latest m) m) batch d Hd Hn); [| | |exact H].
  - intros a x Hx Ha. apply write_date_before_new; auto.
  - intros a Ha. apply write_date_makes_new. exact Ha.
  - intros a x Hx [id Ha]. exists id. apply write_date_after_new; auto.
Qed.

(** X24: take a member of the group and a day of the batch that has
    values in the result and no record of the member in the view.  Writing
    the batch, in update or in overwrite mode, makes exactly one TIMESERIES
    record for the member and the day, under an id the table did not have,
    and the data rows under that id carry the values of the day as they
    came, each once and in order, the time of the image left out. *)
Theorem new_date_is_stored (ev : list string) (mode : Z) (earliest latest : Z -> date)
    (start : date) (ids : list Z) (batch : list date) (result : result_t) (s : State)
    (m : Z) (d : date) :
  NoDup ids -> NoDup batch -> In m ids -> In d batch ->
  in_result d result = true ->
  view_sound s -> data_has_parents s ->
  records_of (timeSeriesDF s) m d = [] ->
  let s' := write_batch ev mode earliest latest start ids batch result s in
  exists id,
    ~ In id (map TIMESERIESID (TIMESERIES s)) /\
    records_of (TIMESERIES s') m d
    = records_of (TIMESERIES s) m d
      ++ [{| TIMESERIESID := id; TIMESERIESDEMANDID := m; TIMESERIESDATE := d |}] /\
    map DATAVALUE (data_of (DATA s') id) = map snd (saved_values result d).
Proof.
  intros Hids Hbatch Hm Hd Hin Hv Hp Hr s'. subst s'. unfold write_batch.
  set (L0 := match sql_max (map TIMESERIESID (TIMESERIES s)) with
             | Some m0 => m0
             | None => 0
             end).
  set (s0 := set_lastTimeSeriesId L0 s).
  assert (HB : before_new L0 m d (records_of (TIMESERIES s) m d) (saved_values result d)
                          (s0, result)).
  { unfold before_new. cbn [fst snd]. split; [exact Hr|].
    split; [apply ids_bounded_batch_start; assumption|].
    split; [simpl; lia|]. auto. }
  destruct (fold_left_before_after
              (before_new L0 m d (records_of (TIMESERIES s) m d) (saved_values result d))
              (fun st' => exists id, after_new L0 id m d (records_of (TIMESERIES s) m d)
                                               (saved_values result d) st')
              (write_member ev mode earliest latest start batch) ids m Hm Hids)
    with (a := (s0, result)) as [id (A1 & _ & _ & _ & A5 & A6)].
  - intros a x Hx Ha. apply write_member_before_new; auto.
  - intros a Ha. apply write_member_makes_new; auto.
  - intros a x Hx [id Ha]. exists id. apply write_member_after_new; auto.
  - exact HB.
  - exists id. split; [|split; [exact A5|exact A6]].
    intros Hid. unfold L0, sql_max in A1.
    destruct (map TIMESERIESID (TIMESERIES s)) as [|x l]; [destruct Hid|].
    simpl in A1. pose proof (fold_max_ge l x id Hid). lia.
Qed.

Lemma new_date_is_stored_witness :
  let s := Sample.store [Sample.demand 7 1 1 3] [Sample.record 1 7 1] [Sample.datum 1 10] 1 in
  let s' := write_batch ["img_time"%string] 3 (fun _ => 1) (fun _ => 1) 1 [7] [2; 3]
                        [(3, Sample.values 31)] s in
  exists id,
    ~ In id (map TIMESERIESID (TIMESERIES s)) /\
    records_of (TIMESERIES s') 7 3 = records_of (TIMESERIES s) 7 3 ++ [Sample.record id 7 3] /\
    map DATAVALUE (data_of (DATA s') id) = map snd (saved_values [(3, Sample.values 31)] 3).
Proof.
  apply (new_date_is_stored ["img_time"%string] 3 (fun _ => 1) (fun _ => 1) 1 [7] [2; 3]
           [(3, Sample.values 31)]
           (Sample.store [Sample.demand 7 1 1 3] [Sample.record 1 7 1] [Sample.datum 1 10] 1)
           7 3).
  - repeat constructor; simpl; tauto.
  - repeat constructor; simpl; intuition discriminate.
  - left. reflexivity.
  - right. left. reflexivity.
  - reflexivity.
  - apply incl_refl.
  - intros x [<-|[]]. simpl. tauto.
  - reflexivity.
Defined.

End NewDate.
